(** * unix-y: a session-oriented stream client over local sockets

    A shallow embedding of [libavformat/unix_y.c].  The C functions are
    written as Rocq functions that pass two pieces of state explicitly:

    - the [UnixYContext] of the stream (the C struct, field for field), and
    - a [World]: [errno], the descriptor table with what each peer will do,
      the process-wide session counter and the log of socket calls made.

    Every C function [f] that returns an [int] and may change the context
    becomes [f : World -> UnixYContext -> ... -> Z * UnixYContext * World].
    Early [return]s become the branches of [if].  Logging ([av_log]) has no
    effect on either state and is left out. *)

From Stdlib Require Import ZArith List String Ascii Lia Bool.
From Stdlib Require Import DecimalString DecimalPos.
From stdpp Require Import base gmap list strings.

Open Scope Z_scope.

(** ** Machine integers *)

(** Two's complement wrap-around of a [bits]-bit signed integer. *)
Definition wrap (bits : Z) (z : Z) : Z :=
  (z + 2 ^ (bits - 1)) mod 2 ^ bits - 2 ^ (bits - 1).

Definition wrap32 : Z -> Z := wrap 32.
Definition wrap64 : Z -> Z := wrap 64.

(** [int64_t] addition, as in [s->pos + pos]. *)
Definition add64 (a b : Z) : Z := wrap64 (a + b).

Definition LLONG_MAX : Z := 2 ^ 63 - 1.
Definition LLONG_MIN : Z := - 2 ^ 63.

Definition in_int64 (z : Z) : Prop := LLONG_MIN <= z <= LLONG_MAX.

(** ** Constants of the headers the file includes

    [errno.h] (Linux numbering), [libavutil/error.h], [stdio.h] and
    [libavformat/avio.h] are not part of the translated source; the values
    below are the ones those headers give. *)

Definition EPERM : Z := 1.
Definition EBADF : Z := 9.
Definition EINVAL : Z := 22.
Definition EPIPE : Z := 32.
Definition ERANGE : Z := 34.
Definition ENETDOWN : Z := 100.
Definition ECONNREFUSED : Z := 111.

(** [#define AVERROR(e) (-(e))] *)
Definition AVERROR (e : Z) : Z := - e.

(** [MKTAG(a,b,c,d)] and [AVERROR_EOF = FFERRTAG('E','O','F',' ')]. *)
Definition MKTAG (a b c d : Z) : Z :=
  Z.lor a (Z.lor (Z.shiftl b 8) (Z.lor (Z.shiftl c 16) (Z.shiftl d 24))).
Definition AVERROR_EOF : Z := - MKTAG 69 79 70 32.

Definition SEEK_SET : Z := 0.
Definition SEEK_CUR : Z := 1.
Definition SEEK_END : Z := 2.
Definition AVSEEK_SIZE : Z := 65536.
Definition AVIO_FLAG_READ : Z := 1.

(** ** Characters and C strings *)

Definition NUL : ascii := Ascii.zero.
Definition LF : ascii := "010"%char.

Definition char_code (c : ascii) : Z := Z.of_nat (nat_of_ascii c).

(** The characters a [char *] designates: those before the first NUL.  A
    buffer that holds no NUL is read to its end (the memory behind the
    array is taken to start with a NUL). *)
Fixpoint cstr (buf : list ascii) : list ascii :=
  match buf with
  | [] => []
  | c :: rest => if Ascii.eqb c NUL then [] else c :: cstr rest
  end.

(** [strlen] *)
Definition strlen (buf : list ascii) : Z := Z.of_nat (length (cstr buf)).

(** [strcmp]: the difference of the first pair of bytes that differ, the
    scan ending at a NUL. *)
Fixpoint strcmp (a b : list ascii) : Z :=
  let ca := hd NUL a in
  let cb := hd NUL b in
  if negb (Ascii.eqb ca cb) then char_code ca - char_code cb
  else if Ascii.eqb ca NUL then 0
  else match a with
       | [] => 0
       | _ :: a' => strcmp a' (tl b)
       end.

(** A string literal or the output of [sprintf]: the characters and the
    terminating NUL. *)
Definition lit (s : string) : list ascii := list_ascii_of_string s ++ [NUL].

(** A [char buf[size]] after [sprintf(buf, ...)] produced [s].  The bytes
    behind the terminator are indeterminate in C; no caller reads them
    before writing them, and they are NUL here. *)
Definition char_array (size : nat) (s : string) : list ascii :=
  let l := lit s in l ++ repeat NUL (size - length l).

(** [%d] and [%lld] *)
Definition dec (z : Z) : string := NilZero.string_of_int (Z.to_int z).

(** [out[i] = c] on an array; an index outside the array is not written
    (the callers keep [i] below the size). *)
Definition store (out : list ascii) (i : Z) (c : ascii) : list ascii :=
  if i <? 0 then out else <[Z.to_nat i := c]> out.

(** ** [strtoll(s, NULL, 10)] *)

Definition is_space (c : ascii) : bool :=
  let n := char_code c in (n =? 32) || ((9 <=? n) && (n <=? 13)).

Definition digit_val (c : ascii) : option Z :=
  let n := char_code c in
  if (48 <=? n) && (n <=? 57) then Some (n - 48) else None.

Fixpoint skip_space (l : list ascii) : list ascii :=
  match l with
  | c :: rest => if is_space c then skip_space rest else l
  | [] => []
  end.

(** The leading decimal digits of [l]: their value on top of [acc], and
    whether there was one. *)
Fixpoint scan_digits (l : list ascii) (acc : Z) (any : bool) : Z * bool :=
  match l with
  | c :: rest =>
      match digit_val c with
      | Some d => scan_digits rest (10 * acc + d) true
      | None => (acc, any)
      end
  | [] => (acc, any)
  end.

Definition split_sign (l : list ascii) : bool * list ascii :=
  match l with
  | c :: rest =>
      if Ascii.eqb c "-"%char then (true, rest)
      else if Ascii.eqb c "+"%char then (false, rest)
      else (false, l)
  | [] => (false, [])
  end.

(** ** The world outside the process

    Sockets, [errno] and the C library are what the file calls into.  They
    are a state here, and every call is a function on it.  Each connection
    carries a script of its peer: the bytes and failures it has in store
    for [recv], and how its next [send]s will be taken.  Every call
    returns; one that would block for ever has no counterpart.  The log
    keeps the calls in the order they were made. *)

(** What a peer has queued for us on one connection: bytes, and receive
    failures with the [errno] they leave.  The end of the list is the peer
    closing the connection. *)
Inductive RecvItem : Type :=
| RByte (b : ascii)
| RErr (e : positive).

(** What the next [send] on a connection does: take at most [k] bytes
    ([k <= 0]: take nothing and return 0), or fail with an [errno].  Once
    the list is used up every [send] takes all it is given. *)
Inductive SendItem : Type :=
| SAccept (k : Z)
| SErr (e : positive).

Record Sock : Type := mkSock {
  inbox : list RecvItem;
  outscript : list SendItem;
  outbox : list ascii
}.

(** What the next connection attempt meets: no descriptor to be had, a
    refused or timed-out connect, or a peer. *)
Inductive ConnItem : Type :=
| NoSocket (e : positive)
| Refuse (e : positive)
| Peer (sk : Sock).

Inductive Syscall : Type :=
| SysSocket (ret : Z)
| SysConnect (fd : Z) (path : list ascii) (len : Z) (tmo : Z) (ret : Z)
| SysNonblock (fd : Z)
| SysSend (fd : Z) (data : list ascii) (ret : Z)
| SysRecv (fd : Z) (n : Z) (ret : Z)
| SysClose (fd : Z).

Record World : Type := mkWorld {
  errno : Z;
  socks : gmap Z Sock;
  backlog : list ConnItem;
  next_fd : nat;
  (** [static atomic_int session_id_inc] of [connectSocket] *)
  session_id_inc : Z;
  (** whether the C library's [strtoll] sets [errno] to [EINVAL] when it
      finds no digits (POSIX lets it; ISO C does not ask for it) *)
  noconv_einval : bool;
  trace : list Syscall
}.

Definition set_errno (e : Z) (w : World) : World :=
  mkWorld e (socks w) (backlog w) (next_fd w) (session_id_inc w)
          (noconv_einval w) (trace w).

Definition set_socks (m : gmap Z Sock) (w : World) : World :=
  mkWorld (errno w) m (backlog w) (next_fd w) (session_id_inc w)
          (noconv_einval w) (trace w).

Definition set_backlog (b : list ConnItem) (w : World) : World :=
  mkWorld (errno w) (socks w) b (next_fd w) (session_id_inc w)
          (noconv_einval w) (trace w).

Definition set_next_fd (n : nat) (w : World) : World :=
  mkWorld (errno w) (socks w) (backlog w) n (session_id_inc w)
          (noconv_einval w) (trace w).

Definition set_session_id_inc (c : Z) (w : World) : World :=
  mkWorld (errno w) (socks w) (backlog w) (next_fd w) c
          (noconv_einval w) (trace w).

Definition set_noconv_einval (b : bool) (w : World) : World :=
  mkWorld (errno w) (socks w) (backlog w) (next_fd w) (session_id_inc w)
          b (trace w).

Definition log (ev : Syscall) (w : World) : World :=
  mkWorld (errno w) (socks w) (backlog w) (next_fd w) (session_id_inc w)
          (noconv_einval w) (trace w ++ [ev]).

(** The bytes at the head of an inbox, [n] at most. *)
Fixpoint take_bytes (n : nat) (l : list RecvItem) : list ascii :=
  match n, l with
  | S n', RByte b :: rest => b :: take_bytes n' rest
  | _, _ => []
  end.

(** [send(fd, data, length data, MSG_NOSIGNAL)] *)
Definition send (w : World) (fd : Z) (data : list ascii) : Z * World :=
  match socks w !! fd with
  | None => (-1, log (SysSend fd data (-1)) (set_errno EBADF w))
  | Some sk =>
      match outscript sk with
      | SErr e :: rest =>
          (-1, log (SysSend fd data (-1))
                 (set_errno (Z.pos e)
                    (set_socks (<[fd := mkSock (inbox sk) rest (outbox sk)]> (socks w)) w)))
      | SAccept k :: rest =>
          let n := Z.max 0 (Z.min k (Z.of_nat (length data))) in
          (n, log (SysSend fd data n)
                (set_socks (<[fd := mkSock (inbox sk) rest
                                     (outbox sk ++ take (Z.to_nat n) data)]> (socks w)) w))
      | [] =>
          let n := Z.of_nat (length data) in
          (n, log (SysSend fd data n)
                (set_socks (<[fd := mkSock (inbox sk) [] (outbox sk ++ data)]> (socks w)) w))
      end
  end.

(** [recv(fd, buf, n, flags)]: the result and the bytes put in [buf]. *)
Definition recv (w : World) (fd : Z) (n : Z) : Z * list ascii * World :=
  match socks w !! fd with
  | None => (-1, [], log (SysRecv fd n (-1)) (set_errno EBADF w))
  | Some sk =>
      match inbox sk with
      | RErr e :: rest =>
          (-1, [], log (SysRecv fd n (-1))
                     (set_errno (Z.pos e)
                        (set_socks (<[fd := mkSock rest (outscript sk) (outbox sk)]> (socks w)) w)))
      | items =>
          let data := take_bytes (Z.to_nat n) items in
          let r := Z.of_nat (length data) in
          (r, data, log (SysRecv fd n r)
                      (set_socks (<[fd := mkSock (drop (length data) items)
                                           (outscript sk) (outbox sk)]> (socks w)) w))
      end
  end.

(** [ff_socket(AF_UNIX, SOCK_STREAM, 0)] *)
Definition ff_socket (w : World) : Z * World :=
  match backlog w with
  | NoSocket e :: rest =>
      (-1, log (SysSocket (-1)) (set_errno (Z.pos e) (set_backlog rest w)))
  | _ =>
      let fd := Z.of_nat (next_fd w) in
      (fd, log (SysSocket fd) (set_next_fd (S (next_fd w)) w))
  end.

(** [ff_listen_connect(fd, addr, addr_len, timeout, h, 0)]: 0, or a
    negative [AVERROR] code. *)
Definition ff_listen_connect (w : World) (fd : Z) (path : list ascii)
    (len tmo : Z) : Z * World :=
  match backlog w with
  | Peer sk :: rest =>
      (0, log (SysConnect fd path len tmo 0)
            (set_socks (<[fd := sk]> (socks w)) (set_backlog rest w)))
  | Refuse e :: rest | NoSocket e :: rest =>
      let r := AVERROR (Z.pos e) in
      (r, log (SysConnect fd path len tmo r) (set_backlog rest w))
  | [] =>
      let r := AVERROR ECONNREFUSED in
      (r, log (SysConnect fd path len tmo r) w)
  end.

Definition ff_socket_nonblock (w : World) (fd : Z) : World :=
  log (SysNonblock fd) w.

Definition closesocket (w : World) (fd : Z) : World :=
  log (SysClose fd) (set_socks (delete fd (socks w)) w).

(** [ff_neterrno()] is [AVERROR(errno)]. *)
Definition ff_neterrno (w : World) : Z := AVERROR (errno w).

(** [strtoll(s, NULL, 10)]: white space, a sign, decimal digits; the value
    is clamped to [long long] with [errno = ERANGE]; without a digit the
    result is 0. *)
Definition strtoll (w : World) (s : list ascii) : Z * World :=
  let '(neg, l) := split_sign (skip_space (cstr s)) in
  let '(v, any) := scan_digits l 0 false in
  if negb any then
    (0, if noconv_einval w then set_errno EINVAL w else w)
  else
    let sv := if neg then - v else v in
    if sv >? LLONG_MAX then (LLONG_MAX, set_errno ERANGE w)
    else if sv <? LLONG_MIN then (LLONG_MIN, set_errno ERANGE w)
    else (sv, w).

(** ** The stream context *)

(** [struct UnixYContext]: [addr] is [addr.sun_path]; the [AVClass] pointer
    and [addr.sun_family] play no part. *)
Record UnixYContext : Type := mkCtx {
  addr : list ascii;
  addr_len : Z;
  timeout : Z;
  control_fd : Z;
  cur_fd : Z;
  reading_mode : Z;
  session_id : Z;
  pos : Z
}.

Definition set_cur_fd (fd : Z) (s : UnixYContext) : UnixYContext :=
  mkCtx (addr s) (addr_len s) (timeout s) (control_fd s) fd
        (reading_mode s) (session_id s) (pos s).

Definition set_session_id (id : Z) (s : UnixYContext) : UnixYContext :=
  mkCtx (addr s) (addr_len s) (timeout s) (control_fd s) (cur_fd s)
        (reading_mode s) id (pos s).

Definition set_pos (p : Z) (s : UnixYContext) : UnixYContext :=
  mkCtx (addr s) (addr_len s) (timeout s) (control_fd s) (cur_fd s)
        (reading_mode s) (session_id s) p.

(** ** [write_str] and [read_str_until] *)

(** The loop of [write_str], entered with [write] bytes sent.  Each turn
    that does not return sends at least one byte, so [len - write] turns
    are enough and [fuel] is never what stops it
    (see [write_str_loop_fuel]). *)
Fixpoint write_str_loop (fuel : nat) (w : World) (fd : Z) (buf : list ascii)
    (len write : Z) : Z * World :=
  if write <? len then
    match fuel with
    | O => (0, w)
    | S fuel' =>
        let '(ret, w1) :=
          send w fd (take (Z.to_nat (len - write)) (drop (Z.to_nat write) buf)) in
        if ret =? 0 then (AVERROR ENETDOWN, w1)
        else if ret <? 0 then (AVERROR (errno w1), w1)
        else write_str_loop fuel' w1 fd buf len (write + ret)
    end
  else (0, w).

Definition write_str (w : World) (fd : Z) (buf : list ascii) (len : Z) : Z * World :=
  write_str_loop (Z.to_nat len) w fd buf len 0.

(** The loop of [read_str_until] with [turns = max - read] turns left: the
    result, the array [out] and the world. *)
Fixpoint read_str_until_loop (turns : nat) (w : World) (fd : Z)
    (until_char : ascii) (out : list ascii) (read : Z) : Z * list ascii * World :=
  match turns with
  | O => (read, out, w)
  | S turns' =>
      let '(ret, buf, w1) := recv w fd 1 in
      if ret <? 0 then (ff_neterrno w1, out, w1)
      else if ret <? 1 then (AVERROR_EOF, out, w1)
      else if Ascii.eqb (hd NUL buf) until_char then (read, store out read NUL, w1)
      else read_str_until_loop turns' w1 fd until_char
             (store out read (hd NUL buf)) (read + 1)
  end.

Definition read_str_until (w : World) (fd : Z) (until_char : ascii)
    (out : list ascii) (max : Z) : Z * list ascii * World :=
  read_str_until_loop (Z.to_nat max) w fd until_char out 0.

(** ** [connectSocket] *)

(** [atomic_fetch_add(&session_id_inc, n)]: the value before, and the
    counter advanced (an [atomic_int] wraps).  [atomic_load(&session_id_inc)]
    reads it.  Each is one indivisible step on the shared counter. *)
Definition atomic_fetch_add (w : World) (n : Z) : Z * World :=
  (session_id_inc w, set_session_id_inc (wrap32 (session_id_inc w + n)) w).

Definition atomic_load (w : World) : Z := session_id_inc w.

Definition connectSocket (w : World) (s : UnixYContext) : Z * UnixYContext * World :=
  let '(fd, w1) := ff_socket w in
  if fd <? 0 then (ff_neterrno w1, s, w1)
  else
    let '(ret, w2) := ff_listen_connect w1 fd (addr s) (addr_len s) (timeout s) in
    if ret <? 0 then (ret, s, closesocket w2 fd)
    else
      let w3 := ff_socket_nonblock w2 fd in
      if session_id s >? 0 then
        let cmd := char_array 50 ("run_session " ++ dec (session_id s) ++ String LF "") in
        let '(ret, w4) := write_str w3 fd cmd (strlen cmd) in
        if ret <? 0 then (ret, s, closesocket w4 fd)
        else (fd, s, w4)
      else
        let '(_, w4) := atomic_fetch_add w3 1 in
        let new_session_id := atomic_load w4 in
        let cmd :=
          if negb (reading_mode s =? 0)
          then char_array 50 ("new_session read " ++ dec new_session_id ++ String LF "")
          else char_array 50 ("new_session write " ++ dec new_session_id ++ String LF "") in
        let '(ret, w5) := write_str w4 fd cmd (strlen cmd) in
        if ret <? 0 then (ret, s, closesocket w5 fd)
        else (fd, set_session_id new_session_id s, w5).

(** ** [unix_y_open] *)

(** [sizeof(addr.sun_path)], [offsetof(struct sockaddr_un, sun_path)] and
    [sizeof(struct sockaddr_un)] of [sys/un.h]. *)
Definition SUN_PATH_SIZE : nat := 108.
Definition SUN_PATH_OFFSET : Z := 2.
Definition SOCKADDR_UN_SIZE : Z := 110.

(** [av_strstart(str, pfx, &ptr)]: [str] without [pfx] when it starts with
    it, [str] as it is otherwise. *)
Fixpoint strip_prefix (pfx str : list ascii) : option (list ascii) :=
  match pfx, str with
  | [], _ => Some str
  | p :: pfx', c :: str' =>
      if Ascii.eqb p c then strip_prefix pfx' str' else None
  | _ :: _, [] => None
  end.

Definition av_strstart (str pfx : list ascii) : list ascii :=
  match strip_prefix pfx str with
  | Some rest => rest
  | None => str
  end.

(** [av_strlcpy(dst, src, size)] into a fresh array of [size] bytes. *)
Definition av_strlcpy (src : list ascii) (size : nat) : list ascii :=
  let l := take (size - 1) src in l ++ repeat NUL (size - length l).

Definition unix_y_open (w : World) (s : UnixYContext) (filename : string)
    (flags : Z) : Z * UnixYContext * World :=
  let s := mkCtx (addr s) (addr_len s) (timeout s) (control_fd s) (cur_fd s)
                 (Z.land flags AVIO_FLAG_READ) (-1) (pos s) in
  let filename := av_strstart (list_ascii_of_string filename)
                    (list_ascii_of_string "unix-y:") in
  let path := av_strlcpy filename SUN_PATH_SIZE in
  let '(path, len) :=
    if Ascii.eqb (hd NUL filename) "0"%char
    then (<[0%nat := NUL]> path, Z.of_nat (length filename) + SUN_PATH_OFFSET)
    else (path, SOCKADDR_UN_SIZE) in
  let s := mkCtx path len (if timeout s <? 0 then 3000 else timeout s)
                 (control_fd s) (cur_fd s) (reading_mode s) (session_id s) (pos s) in
  let '(fd, s, w1) := connectSocket w s in
  if fd <? 0 then (fd, s, w1)
  else (0, mkCtx (addr s) (addr_len s) (timeout s) fd (-1)
                 (reading_mode s) (session_id s) 0, w1).

(** ** [unix_y_read] and [unix_y_write] *)

(** The end of [unix_y_read], behind the [if (s->cur_fd < 0)] block: one
    [recv] on the data connection.  The second component is what was put
    in the caller's buffer. *)
Definition unix_y_read_recv (w : World) (s : UnixYContext) (size : Z)
    : Z * list ascii * UnixYContext * World :=
  let '(ret, data, w1) := recv w (cur_fd s) size in
  if ret =? 0 then (AVERROR_EOF, [], s, w1)
  else if ret <? 0 then (ff_neterrno w1, [], s, w1)
  else (ret, data, set_pos (add64 (pos s) ret) s, w1).

Definition unix_y_read (w : World) (s : UnixYContext) (size : Z)
    : Z * list ascii * UnixYContext * World :=
  if reading_mode s =? 0 then (AVERROR EPERM, [], s, w)
  else if cur_fd s <? 0 then
    let cmd_buf := char_array 50 ("read " ++ dec (pos s) ++ String LF "") in
    let '(ret, w1) := write_str w (control_fd s) cmd_buf (strlen cmd_buf) in
    if ret <? 0 then (ret, [], s, w1)
    else
      let '(ret, cmd_buf, w2) := read_str_until w1 (control_fd s) LF cmd_buf 50 in
      if ret <? 0 then (ret, [], s, w2)
      else if negb (strcmp cmd_buf (lit "ok") =? 0) then (AVERROR EINVAL, [], s, w2)
      else
        let '(ret, s1, w3) := connectSocket w2 s in
        if ret <? 0 then (ret, [], s1, w3)
        else unix_y_read_recv w3 (set_cur_fd ret s1) size
  else unix_y_read_recv w s size.

(** The end of [unix_y_write]: one [send] of the first [size] bytes of
    [buf] on the data connection. *)
Definition unix_y_write_send (w : World) (s : UnixYContext) (buf : list ascii)
    (size : Z) : Z * UnixYContext * World :=
  let '(ret, w1) := send w (cur_fd s) (take (Z.to_nat size) buf) in
  if ret <? 0 then (ff_neterrno w1, s, w1)
  else (ret, set_pos (add64 (pos s) ret) s, w1).

Definition unix_y_write (w : World) (s : UnixYContext) (buf : list ascii)
    (size : Z) : Z * UnixYContext * World :=
  if negb (reading_mode s =? 0) then (AVERROR EPERM, s, w)
  else if cur_fd s <? 0 then
    let cmd_buf := char_array 50 ("write " ++ dec (pos s) ++ String LF "") in
    let '(ret, w1) := write_str w (control_fd s) cmd_buf (strlen cmd_buf) in
    if ret <? 0 then (ret, s, w1)
    else
      let '(ret, cmd_buf, w2) := read_str_until w1 (control_fd s) LF cmd_buf 50 in
      if ret <? 0 then (ret, s, w2)
      else if negb (strcmp cmd_buf (lit "ok") =? 0) then (AVERROR EINVAL, s, w2)
      else
        let '(ret, s1, w3) := connectSocket w2 s in
        if ret <? 0 then (ret, s1, w3)
        else unix_y_write_send w3 (set_cur_fd ret s1) buf size
  else unix_y_write_send w s buf size.

(** ** [unix_y_close] and [unix_y_get_file_handle] *)

Definition unix_y_close (w : World) (s : UnixYContext) : Z * UnixYContext * World :=
  let w1 := if cur_fd s >=? 0 then closesocket w (cur_fd s) else w in
  (0, s, closesocket w1 (control_fd s)).

Definition unix_y_get_file_handle (s : UnixYContext) : Z := control_fd s.

(** ** [unix_y_seek] *)

(** The end of [unix_y_seek], from [if (whence == AVSEEK_SIZE)] on, with
    the value [stat] has there.  [None] in [newPos] is the last [else],
    which returns.  The statement [AVERROR(EINVAL);] under
    [if (stat < 0)] computes a value and drops it. *)
Definition unix_y_seek_move (w : World) (s : UnixYContext) (offset whence stat : Z)
    : Z * UnixYContext * World :=
  if whence =? AVSEEK_SIZE then (stat, s, w)
  else
    let newPos :=
      if whence =? SEEK_SET then Some offset
      else if whence =? SEEK_CUR then Some (add64 (pos s) offset)
      else if whence =? SEEK_END then
        let _ := if stat <? 0 then AVERROR EINVAL else 0 in
        Some (add64 stat offset)
      else None in
    match newPos with
    | None => (AVERROR EINVAL, s, w)
    | Some newPos =>
        if (cur_fd s >=? 0) && negb (newPos =? pos s)
        then (newPos, set_pos newPos (set_cur_fd (-1) s), closesocket w (cur_fd s))
        else (newPos, set_pos newPos s, w)
    end.

(** The first block of [unix_y_seek], up to [if (whence == AVSEEK_SIZE)]:
    either the function has returned there, or it goes on with a value
    for [stat]. *)
Inductive Flow : Type :=
| Returned (r : Z)
| Reached (stat : Z).

Definition unix_y_seek_stat (w : World) (s : UnixYContext) (whence : Z)
    : Flow * World :=
  if (whence =? AVSEEK_SIZE) || (whence =? SEEK_END) then
    let cmd_buf := lit ("stat" ++ String LF "") in
    let '(ret, w1) := write_str w (control_fd s) cmd_buf (strlen cmd_buf) in
    if ret <? 0 then (Returned ret, w1)
    else
      let '(ret, rep_buf, w2) :=
        read_str_until w1 (control_fd s) LF (repeat NUL 50) 50 in
      if ret <? 0 then (Returned (AVERROR (errno w2)), w2)
      else
        let '(stat, w3) := strtoll w2 rep_buf in
        if errno w3 =? EINVAL then (Returned (AVERROR (errno w3)), w3)
        else (Reached stat, w3)
  else (Reached (-1), w).

(** [offset] is the C parameter [pos]. *)
Definition unix_y_seek (w : World) (s : UnixYContext) (offset whence : Z)
    : Z * UnixYContext * World :=
  let '(flow, w1) := unix_y_seek_stat w s whence in
  match flow with
  | Returned r => (r, s, w1)
  | Reached stat => unix_y_seek_move w1 s offset whence stat
  end.

(** ** Two threads in [connectSocket] at once *)

(** Where a thread stands between lines 134 and 135: before the
    [atomic_fetch_add], between it and the [atomic_load], or with its
    [new_session_id]. *)
Inductive MintPc : Type :=
| BeforeAdd
| BeforeLoad
| Minted (new_session_id : Z).

Definition mint_step (w : World) (pc : MintPc) : MintPc * World :=
  match pc with
  | BeforeAdd => let '(_, w1) := atomic_fetch_add w 1 in (BeforeLoad, w1)
  | BeforeLoad => (Minted (atomic_load w), w)
  | Minted id => (Minted id, w)
  end.

Inductive Tid : Type := T1 | T2.

(** The two threads under a schedule: the thread named takes one step on
    the shared world. *)
Fixpoint run_schedule (sched : list Tid) (w : World) (p1 p2 : MintPc)
    : MintPc * MintPc * World :=
  match sched with
  | [] => (p1, p2, w)
  | T1 :: rest => let '(p1', w1) := mint_step w p1 in run_schedule rest w1 p1' p2
  | T2 :: rest => let '(p2', w1) := mint_step w p2 in run_schedule rest w1 p1 p2'
  end.

(** ** What a run leaves in the log *)

(** The [send] calls of [write_str] whose results were [rets], the first
    one made with [write] bytes already sent: each passes [&buf[write]]
    and [len - write]. *)
Fixpoint send_log (fd : Z) (buf : list ascii) (len write : Z) (rets : list Z)
    : list Syscall :=
  match rets with
  | [] => []
  | ret :: rest =>
      SysSend fd (take (Z.to_nat (len - write)) (drop (Z.to_nat write) buf)) ret
        :: send_log fd buf len (write + ret) rest
  end.

(** [write_outcome len e write rets r]: with [write] bytes sent, [send]
    results [rets] and a final [errno] of [e] make the loop return [r]. *)
Inductive write_outcome (len e : Z) : Z -> list Z -> Z -> Prop :=
| wo_all_sent write :
    len <= write -> write_outcome len e write [] 0
| wo_closed write :
    write < len -> write_outcome len e write [0] (AVERROR ENETDOWN)
| wo_failed write ret :
    write < len -> ret < 0 -> write_outcome len e write [ret] (AVERROR e)
| wo_partial write ret rets r :
    write < len -> 0 < ret ->
    write_outcome len e (write + ret) rets r ->
    write_outcome len e write (ret :: rets) r.

(** A call on descriptor [fd] that moves bytes. *)
Definition io_event (fd : Z) (ev : Syscall) : Prop :=
  match ev with
  | SysSend fd' _ _ | SysRecv fd' _ _ => fd' = fd
  | _ => False
  end.

(** [io_on fd w w']: from [w] to [w'] nothing happened but sends and
    receives on [fd]. *)
Record io_on (fd : Z) (w w' : World) : Prop := mk_io_on {
  io_backlog : backlog w' = backlog w;
  io_next_fd : next_fd w' = next_fd w;
  io_counter : session_id_inc w' = session_id_inc w;
  io_noconv : noconv_einval w' = noconv_einval w;
  io_socks : forall fd', fd' <> fd -> socks w' !! fd' = socks w !! fd';
  io_trace : exists evs, trace w' = trace w ++ evs /\ Forall (io_event fd) evs
}.

(** The inbox and the bytes sent on [fd], empty for a descriptor that is
    not open. *)
Definition inbox_of (w : World) (fd : Z) : list RecvItem :=
  match socks w !! fd with Some sk => inbox sk | None => [] end.

Definition outbox_of (w : World) (fd : Z) : list ascii :=
  match socks w !! fd with Some sk => outbox sk | None => [] end.

(** [out] once the bytes of [line] have been stored one by one from index
    [read] on, as the loop of [read_str_until] does. *)
Fixpoint store_line (out : list ascii) (read : Z) (line : list ascii) : list ascii :=
  match line with
  | [] => out
  | c :: rest => store_line (store out read c) (read + 1) rest
  end.

(** The world after [k] calls [recv(fd, buf, 1, MSG_WAITALL)] that each
    got a byte and left [rest] in the inbox of [fd], whose socket was [sk]. *)
Definition received (w : World) (fd : Z) (sk : Sock) (k : nat)
    (rest : list RecvItem) : World :=
  mkWorld (errno w)
          (<[fd := mkSock rest (outscript sk) (outbox sk)]> (socks w))
          (backlog w) (next_fd w) (session_id_inc w) (noconv_einval w)
          (trace w ++ repeat (SysRecv fd 1 1) k).

(** The value of a decimal numeral read from its first digit on, on top
    of [acc]: what [scan_digits] makes of its characters. *)
Fixpoint uint_val (d : Decimal.uint) (acc : Z) : Z :=
  match d with
  | Decimal.Nil => acc
  | Decimal.D0 d => uint_val d (10 * acc + 0)
  | Decimal.D1 d => uint_val d (10 * acc + 1)
  | Decimal.D2 d => uint_val d (10 * acc + 2)
  | Decimal.D3 d => uint_val d (10 * acc + 3)
  | Decimal.D4 d => uint_val d (10 * acc + 4)
  | Decimal.D5 d => uint_val d (10 * acc + 5)
  | Decimal.D6 d => uint_val d (10 * acc + 6)
  | Decimal.D7 d => uint_val d (10 * acc + 7)
  | Decimal.D8 d => uint_val d (10 * acc + 8)
  | Decimal.D9 d => uint_val d (10 * acc + 9)
  end.

(** A decimal digit. *)
Definition is_digit (c : ascii) : Prop := exists v, digit_val c = Some v.

(** The descriptors closed in a log, in order. *)
Definition closed_fds (tr : list Syscall) : list Z :=
  flat_map (fun ev => match ev with SysClose fd => [fd] | _ => [] end) tr.

(** ** Worlds to run the code in *)

Definition bytes (s : string) : list RecvItem :=
  map RByte (list_ascii_of_string s).

(** A peer that has queued [reply] and takes all that is sent to it. *)
Definition peer (reply : list RecvItem) : Sock := mkSock reply [] [].

(** A process that has no stream yet: descriptors from 3 on are free and
    the session counter stands at 0. *)
Definition fresh_world (conns : list ConnItem) : World :=
  mkWorld 0 ∅ conns 3 0 false [].

(** A context before [unix_y_open] has run [connectSocket] to its end:
    the session id is the [-1] that [unix_y_open] stores first. *)
Definition unopened (mode : Z) : UnixYContext :=
  mkCtx (av_strlcpy (list_ascii_of_string "/tmp/y.sock") SUN_PATH_SIZE)
        SOCKADDR_UN_SIZE 3000 0 0 mode (-1) 0.

(** A process with one open stream: descriptor 3 is the control
    connection, session 1 was minted for it, and [conns] is what further
    connection attempts will meet. *)
Definition world_with (ctrl : Sock) (conns : list ConnItem) : World :=
  mkWorld 0 {[ 3 := ctrl ]} conns 4 1 false [].

(** The context [unix_y_open] leaves: no data connection, position 0. *)
Definition opened (mode : Z) : UnixYContext :=
  mkCtx (av_strlcpy (list_ascii_of_string "/tmp/y.sock") SUN_PATH_SIZE)
        SOCKADDR_UN_SIZE 3000 3 (-1) mode 1 0.

(** The same stream with data connection 4 open at position [p]. *)
Definition streaming (mode p : Z) : UnixYContext :=
  set_pos p (set_cur_fd 4 (opened mode)).

(** A stream with its control connection on 3 and an open data connection
    on 4. *)
Definition world_streaming (ctrl data : Sock) : World :=
  mkWorld 0 (<[ 4 := data ]> {[ 3 := ctrl ]}) [] 5 1 false [].

(** Replies used below: a line that is not [ok]; [ok], a NUL and one more
    byte before the line feed; fifty bytes with no line feed among them,
    once all [x] and once starting with [ok] and a NUL. *)
Definition reply_no : list RecvItem := bytes ("no" ++ String LF "").

Definition reply_ok_nul : list RecvItem :=
  bytes ("ok" ++ String NUL ("x" ++ String LF "")).

Definition reply_long : list RecvItem := map RByte (repeat "x"%char 50).

Definition reply_long_ok : list RecvItem :=
  bytes ("ok" ++ String NUL "") ++ map RByte (repeat "x"%char 47).

(** ** Words for the statements about whole operations *)

(** The lines the code prints with [sprintf]. *)
Definition new_session_line (mode id : Z) : string :=
  if negb (mode =? 0)
  then "new_session read " ++ dec id ++ String LF ""
  else "new_session write " ++ dec id ++ String LF "".

Definition run_session_line (id : Z) : string :=
  "run_session " ++ dec id ++ String LF "".

Definition read_line (p : Z) : string := "read " ++ dec p ++ String LF "".

Definition write_line (p : Z) : string := "write " ++ dec p ++ String LF "".

(** The world after one [send] on [fd], whose socket was [sk] and takes
    what it is given, has taken all of [data]. *)
Definition sent (w : World) (fd : Z) (sk : Sock) (data : list ascii) : World :=
  log (SysSend fd data (Z.of_nat (length data)))
    (set_socks (<[fd := mkSock (inbox sk) [] (outbox sk ++ data)]> (socks w)) w).

(** The world after [ff_socket], [ff_listen_connect] and
    [ff_socket_nonblock] have given descriptor [next_fd w] to the peer
    [sk], [rest] being what is left of the backlog. *)
Definition connected (w : World) (s : UnixYContext) (sk : Sock)
    (rest : list ConnItem) : World :=
  let fd := Z.of_nat (next_fd w) in
  ff_socket_nonblock
    (log (SysConnect fd (addr s) (addr_len s) (timeout s) 0)
       (set_socks (<[fd := sk]> (socks w))
          (set_backlog rest (log (SysSocket fd) (set_next_fd (S (next_fd w)) w)))))
    fd.

(** Every open descriptor is one that [ff_socket] has handed out. *)
Definition fds_below (w : World) : Prop :=
  forall fd, is_Some (socks w !! fd) -> 0 <= fd < Z.of_nat (next_fd w).

(** What holds of an open stream between calls: its control connection is
    open, and its data descriptor is negative or an open descriptor other
    than the control one. *)
Definition stream_inv (w : World) (s : UnixYContext) : Prop :=
  fds_below w /\
  is_Some (socks w !! control_fd s) /\
  (cur_fd s < 0 \/ (is_Some (socks w !! cur_fd s) /\ cur_fd s <> control_fd s)).

(** What no call after [unix_y_open] changes in the context. *)
Definition same_stream (s s' : UnixYContext) : Prop :=
  addr s' = addr s /\ addr_len s' = addr_len s /\ timeout s' = timeout s /\
  control_fd s' = control_fd s /\ reading_mode s' = reading_mode s.

(** The same descriptors are open. *)
Definition same_fds (w w' : World) : Prop :=
  forall fd, is_Some (socks w' !! fd) <-> is_Some (socks w !! fd).



(** The line [connectSocket] sends on the new connection, and the session
    id and the counter it leaves when the line has gone out. *)
Definition hello_line_sent (w : World) (s s' : UnixYContext) (w' : World)
    (line : string) : Prop :=
  (session_id s > 0 /\ s' = s /\ session_id_inc w' = session_id_inc w /\
   line = run_session_line (session_id s))
  \/
  (session_id s <= 0 /\
   s' = set_session_id (wrap32 (session_id_inc w + 1)) s /\
   session_id_inc w' = wrap32 (session_id_inc w + 1) /\
   line = new_session_line (reading_mode s) (wrap32 (session_id_inc w + 1))).

(** The file name [unix_y_open] works with: the URL without its scheme. *)
Definition socket_name (filename : string) : list ascii :=
  av_strstart (list_ascii_of_string filename) (list_ascii_of_string "unix-y:").

(** The world after a negotiation that goes through: the command [line]
    sent on the control connection, whose socket was [ctl], the three
    bytes of the reply [ok] read from it with [rest] left behind it, the
    data connection made to the peer [dk], and [run_session <id>] sent on
    it. *)
Definition negotiated (w : World) (s : UnixYContext) (ctl : Sock)
    (rest : list RecvItem) (dk : Sock) (conns : list ConnItem) (line : string)
    : World :=
  let c := control_fd s in
  let w1 := sent w c ctl (list_ascii_of_string line) in
  let w2 := received w1 c (mkSock (inbox ctl) [] (outbox ctl ++ list_ascii_of_string line))
              3 rest in
  let w3 := connected w2 s dk conns in
  sent w3 (Z.of_nat (next_fd w)) dk
    (list_ascii_of_string (run_session_line (session_id s))).

(** ** A stream in use *)

(** A call made through [ff_unix_y_protocol], the table that binds
    [url_read], [url_write] and [url_seek] to the functions above. *)
Inductive Call : Type :=
| url_read (size : Z)
| url_write (buf : list ascii) (size : Z)
| url_seek (offset whence : Z).

Definition ff_unix_y_protocol (c : Call) (w : World) (s : UnixYContext)
    : Z * UnixYContext * World :=
  match c with
  | url_read size => let '(ret, _, s', w') := unix_y_read w s size in (ret, s', w')
  | url_write buf size => unix_y_write w s buf size
  | url_seek offset whence => unix_y_seek w s offset whence
  end.

(** The context and the world after the calls [cs], made one after the
    other whatever each returns. *)
Fixpoint calls (cs : list Call) (w : World) (s : UnixYContext)
    : UnixYContext * World :=
  match cs with
  | [] => (s, w)
  | c :: rest => let '(_, s', w') := ff_unix_y_protocol c w s in calls rest w' s'
  end.

(** [owns w0 w c d]: of the descriptors open in [w], those that were not
    open in [w0] are the control descriptor [c] and, when it is not
    negative, the data descriptor [d]; both were handed out after [w0],
    they differ, and every other descriptor is as it was in [w0]. *)
Definition owns (w0 w : World) (c d : Z) : Prop :=
  fds_below w0 /\ fds_below w /\ (next_fd w0 <= next_fd w)%nat /\
  Z.of_nat (next_fd w0) <= c /\ is_Some (socks w !! c) /\
  (d < 0 \/ (Z.of_nat (next_fd w0) <= d /\ d <> c /\ is_Some (socks w !! d))) /\
  (forall fd, fd <> c -> fd <> d -> socks w !! fd = socks w0 !! fd).

Definition stream_owns (w0 w : World) (s : UnixYContext) : Prop :=
  owns w0 w (control_fd s) (cur_fd s).

(** * Properties *)

(** ** Integers and strings *)

(** Closes a branch whose tests on integers contradict each other or the
    hypotheses. *)
Ltac absurd_test :=
  exfalso;
  repeat match goal with
    | H : (_ <? _) = true |- _ => apply Z.ltb_lt in H
    | H : (_ <? _) = false |- _ => apply Z.ltb_ge in H
    | H : (_ >? _) = true |- _ => apply Z.gtb_lt in H
    | H : (_ >? _) = false |- _ => rewrite Z.gtb_ltb in H
    | H : (_ >=? _) = true |- _ => apply Z.geb_le in H
    | H : (_ >=? _) = false |- _ => rewrite Z.geb_leb in H
    | H : (_ <=? _) = true |- _ => apply Z.leb_le in H
    | H : (_ <=? _) = false |- _ => apply Z.leb_gt in H
    | H : (_ =? _) = true |- _ => apply Z.eqb_eq in H
    | H : (_ =? _) = false |- _ => apply Z.eqb_neq in H
    end;
  lia.

Lemma wrap64_exact z : in_int64 z -> wrap64 z = z.
Proof.
  unfold in_int64, LLONG_MIN, LLONG_MAX, wrap64, wrap. intros H.
  rewrite Z.mod_small; lia.
Qed.

Lemma add64_exact a b : in_int64 (a + b) -> add64 a b = a + b.
Proof. apply wrap64_exact. Qed.

Lemma wrap32_exact z : - 2 ^ 31 <= z < 2 ^ 31 -> wrap32 z = z.
Proof. unfold wrap32, wrap. intros H. rewrite Z.mod_small; lia. Qed.

Lemma ascii_eqb_eq a b : Ascii.eqb a b = true <-> a = b.
Proof. apply Ascii.eqb_eq. Qed.

Lemma ascii_eqb_false a b : Ascii.eqb a b = false <-> a <> b.
Proof. apply Ascii.eqb_neq. Qed.

Lemma char_code_inj a b : char_code a = char_code b -> a = b.
Proof.
  unfold char_code. intros H. apply Nat2Z.inj in H.
  rewrite <- (ascii_nat_embedding a), <- (ascii_nat_embedding b), H. reflexivity.
Qed.

Lemma cstr_hd_nul l : hd NUL l = NUL -> cstr l = [].
Proof.
  destruct l as [|x l]; [reflexivity|]. simpl. intros ->. reflexivity.
Qed.

Lemma cstr_hd_char l : hd NUL l <> NUL -> l = hd NUL l :: tl l /\ cstr l = hd NUL l :: cstr (tl l).
Proof.
  destruct l as [|x l]; simpl; [congruence|]. intros H.
  apply ascii_eqb_false in H. rewrite H. auto.
Qed.

(** [strcmp] is 0 exactly on equal strings. *)
Lemma strcmp_0 : forall a b, strcmp a b = 0 <-> cstr a = cstr b.
Proof.
  induction a as [|x a IH]; intros b.
  - cbn [strcmp hd cstr]. destruct (Ascii.eqb NUL (hd NUL b)) eqn:E; cbn [negb].
    + apply ascii_eqb_eq in E. rewrite cstr_hd_nul by congruence.
      change (Ascii.eqb NUL NUL) with true. tauto.
    + apply ascii_eqb_false in E.
      destruct (cstr_hd_char b) as [_ ->]; [congruence|].
      split; [|discriminate]. intros H.
      assert (NUL = hd NUL b) by (apply char_code_inj; lia). contradiction.
  - cbn [strcmp hd]. destruct (Ascii.eqb x (hd NUL b)) eqn:E; cbn [negb].
    + apply ascii_eqb_eq in E. destruct (Ascii.eqb x NUL) eqn:E0.
      * apply ascii_eqb_eq in E0. rewrite E0 in E. rewrite E0. cbn [cstr].
        change (Ascii.eqb NUL NUL) with true. cbv iota.
        rewrite cstr_hd_nul by congruence. tauto.
      * pose proof E0 as E0'. apply ascii_eqb_false in E0'.
        destruct (cstr_hd_char b) as [_ ->]; [congruence|].
        cbn [cstr]. rewrite E0, <- E, IH.
        split; [congruence|]. intros H. injection H. auto.
    + apply ascii_eqb_false in E. split.
      * intros H. assert (x = hd NUL b) by (apply char_code_inj; lia). contradiction.
      * intros H. exfalso. cbn [cstr] in H.
        destruct (Ascii.eqb x NUL) eqn:E0.
        -- apply ascii_eqb_eq in E0. rewrite E0 in E.
           destruct (cstr_hd_char b) as [_ Hb]; [congruence|].
           rewrite Hb in H. discriminate.
        -- destruct b as [|y b]; [discriminate|]. cbn [cstr hd] in *.
           destruct (Ascii.eqb y NUL); [discriminate|]. congruence.
Qed.

Lemma strcmp_ok buf :
  strcmp buf (lit "ok") = 0 <-> cstr buf = list_ascii_of_string "ok".
Proof. rewrite strcmp_0. reflexivity. Qed.

(** A line without NUL, stored with its terminator, reads back as it is. *)
Lemma cstr_line line tl :
  Forall (fun b => b <> NUL) line -> cstr (line ++ NUL :: tl) = line.
Proof.
  induction 1 as [|x line Hx _ IH]; simpl; [reflexivity|].
  apply ascii_eqb_false in Hx. rewrite Hx, IH. reflexivity.
Qed.

Lemma char_array_length size s : (size <= length (char_array size s))%nat.
Proof. unfold char_array. rewrite length_app, repeat_length. lia. Qed.

(** ** [strtoll] reads back what [%lld] prints *)

Lemma strtoll_cstr w s s' : cstr s = cstr s' -> strtoll w s = strtoll w s'.
Proof. unfold strtoll. intros ->. reflexivity. Qed.

Lemma uint_val_of_uint_acc : forall d acc,
  Z.pos (Pos.of_uint_acc d acc) = uint_val d (Z.pos acc).
Proof.
  induction d; intros acc; simpl; [reflexivity| | | | | | | | | |];
    rewrite IHd; f_equal; lia.
Qed.

Lemma uint_val_of_uint : forall d, Z.of_N (Pos.of_uint d) = uint_val d 0.
Proof.
  induction d; simpl; [reflexivity|exact IHd| | | | | | | | |];
    apply uint_val_of_uint_acc.
Qed.

Lemma uint_val_to_uint p : uint_val (Pos.to_uint p) 0 = Z.pos p.
Proof.
  rewrite <- uint_val_of_uint, DecimalPos.Unsigned.of_to. reflexivity.
Qed.

Lemma scan_digits_uint : forall d acc any,
  scan_digits (list_ascii_of_string (NilEmpty.string_of_uint d)) acc any
  = (uint_val d acc, match d with Decimal.Nil => any | _ => true end).
Proof.
  induction d; intros acc any; simpl; [reflexivity| | | | | | | | | |];
    rewrite IHd; destruct d; reflexivity.
Qed.

Lemma string_of_uint_digits : forall d,
  Forall is_digit (list_ascii_of_string (NilEmpty.string_of_uint d)).
Proof.
  induction d; simpl; constructor; try assumption; eexists; reflexivity.
Qed.

Lemma is_digit_plain c :
  is_digit c ->
  c <> NUL /\ is_space c = false /\
  Ascii.eqb c "-"%char = false /\ Ascii.eqb c "+"%char = false.
Proof.
  intros [v Hv]. unfold digit_val in Hv.
  destruct ((48 <=? char_code c) && (char_code c <=? 57)) eqn:E; [|discriminate].
  apply andb_true_iff in E. destruct E as [E1 E2].
  apply Z.leb_le in E1, E2.
  repeat split.
  - intros ->. vm_compute in E1. apply E1. reflexivity.
  - unfold is_space. cbv zeta.
    destruct (char_code c =? 32) eqn:A; [apply Z.eqb_eq in A; lia|].
    destruct (char_code c <=? 13) eqn:B; [apply Z.leb_le in B; lia|].
    rewrite andb_false_r. reflexivity.
  - apply ascii_eqb_false. intros ->. vm_compute in E1. apply E1. reflexivity.
  - apply ascii_eqb_false. intros ->. vm_compute in E1. apply E1. reflexivity.
Qed.

Lemma is_digit_not_lf c : is_digit c -> c <> LF.
Proof. intros [v Hv] ->. vm_compute in Hv. discriminate. Qed.

Lemma cstr_digits l tl :
  Forall is_digit l -> cstr (l ++ NUL :: tl) = l.
Proof.
  intros H. apply cstr_line. eapply Forall_impl; [exact H|].
  intros c Hc. apply is_digit_plain, Hc.
Qed.

(** The digits of a positive number, as [strtoll] meets them. *)
Lemma strtoll_digits w p tl :
  Z.pos p <= LLONG_MAX ->
  strtoll w (list_ascii_of_string (NilEmpty.string_of_uint (Pos.to_uint p)) ++ NUL :: tl)
  = (Z.pos p, w).
Proof.
  intros Hmax. unfold strtoll.
  rewrite cstr_digits by apply string_of_uint_digits.
  pose proof (scan_digits_uint (Pos.to_uint p) 0 false) as Hscan.
  pose proof (string_of_uint_digits (Pos.to_uint p)) as Hd.
  pose proof (DecimalPos.Unsigned.to_uint_nonnil p) as Hnn.
  destruct (list_ascii_of_string (NilEmpty.string_of_uint (Pos.to_uint p)))
    as [|c l] eqn:El.
  { destruct (Pos.to_uint p); try congruence; discriminate. }
  inversion Hd as [|? ? Hc _]; subst.
  destruct (is_digit_plain c Hc) as (_ & Hsp & Hm & Hpl).
  cbn [skip_space]. rewrite Hsp. cbn [split_sign]. rewrite Hm, Hpl, Hscan.
  rewrite uint_val_to_uint.
  destruct (Pos.to_uint p); try congruence; cbn [negb];
    (destruct (Z.pos p >? LLONG_MAX) eqn:E1; [absurd_test|];
     destruct (Z.pos p <? LLONG_MIN) eqn:E2; [unfold LLONG_MIN in *; absurd_test|];
     reflexivity).
Qed.

Lemma strtoll_minus_digits w p tl :
  LLONG_MIN <= Z.neg p ->
  strtoll w ("-"%char :: list_ascii_of_string (NilEmpty.string_of_uint (Pos.to_uint p))
             ++ NUL :: tl)
  = (Z.neg p, w).
Proof.
  intros Hmin. unfold strtoll.
  change ("-"%char :: ?l ++ NUL :: tl) with (("-"%char :: l) ++ NUL :: tl).
  rewrite cstr_line.
  2:{ constructor; [discriminate|]. eapply Forall_impl; [apply string_of_uint_digits|].
      intros c Hc. apply is_digit_plain, Hc. }
  cbn [skip_space]. change (is_space "-") with false. cbv iota.
  cbn [split_sign]. change (Ascii.eqb "-" "-") with true. cbv iota.
  rewrite scan_digits_uint, uint_val_to_uint.
  pose proof (DecimalPos.Unsigned.to_uint_nonnil p) as Hnn.
  destruct (Pos.to_uint p); try congruence; cbn [negb];
    (destruct (- Z.pos p >? LLONG_MAX) eqn:E1; [unfold LLONG_MAX in *; absurd_test|];
     destruct (- Z.pos p <? LLONG_MIN) eqn:E2; [absurd_test|];
     reflexivity).
Qed.

Lemma string_of_uint_to_uint p :
  NilZero.string_of_uint (Pos.to_uint p) = NilEmpty.string_of_uint (Pos.to_uint p).
Proof.
  pose proof (DecimalPos.Unsigned.to_uint_nonnil p) as Hnn.
  destruct (Pos.to_uint p); [congruence|reflexivity..].
Qed.

(** [strtoll] gives back every [int64_t] printed with [%lld]. *)
Lemma strtoll_dec w z tl :
  in_int64 z ->
  strtoll w (list_ascii_of_string (dec z) ++ NUL :: tl) = (z, w).
Proof.
  intros [Hmin Hmax]. destruct z as [|p|p].
  - reflexivity.
  - unfold dec. cbn [Z.to_int NilZero.string_of_int].
    rewrite string_of_uint_to_uint. apply strtoll_digits, Hmax.
  - unfold dec. cbn [Z.to_int NilZero.string_of_int list_ascii_of_string].
    rewrite string_of_uint_to_uint. apply strtoll_minus_digits, Hmin.
Qed.

Lemma string_of_uint_length d :
  length (list_ascii_of_string (NilEmpty.string_of_uint d)) = Decimal.nb_digits d.
Proof. induction d; simpl; congruence. Qed.

Lemma uint_val_lower : forall d acc,
  0 <= acc -> acc * 10 ^ Z.of_nat (Decimal.nb_digits d) <= uint_val d acc.
Proof.
  induction d; intros acc Hacc; cbn [uint_val Decimal.nb_digits];
    [simpl; lia| | | | | | | | | |];
    (rewrite Nat2Z.inj_succ, Z.pow_succ_r by lia;
     etransitivity; [|apply IHd; lia];
     assert (0 < 10 ^ Z.of_nat (Decimal.nb_digits d)) by (apply Z.pow_pos_nonneg; lia);
     nia).
Qed.

Lemma to_uint_normal p : Decimal.unorm (Pos.to_uint p) = Pos.to_uint p.
Proof.
  rewrite <- (DecimalPos.Unsigned.to_of (Pos.to_uint p)), DecimalPos.Unsigned.of_to.
  reflexivity.
Qed.

(** A positive number has no more digits than its size allows. *)
Lemma to_uint_digits p :
  10 ^ (Z.of_nat (Decimal.nb_digits (Pos.to_uint p)) - 1) <= Z.pos p.
Proof.
  pose proof (to_uint_normal p) as Hn.
  pose proof (DecimalPos.Unsigned.to_uint_nonzero p) as Hz.
  pose proof (uint_val_to_uint p) as Hv.
  unfold Decimal.unorm in Hn.
  destruct (Pos.to_uint p) as [|d|d|d|d|d|d|d|d|d|d] eqn:E.
  1:{ simpl. lia. }
  1:{ exfalso. cbn [Decimal.nzhead] in Hn.
      destruct (Decimal.nzhead d) eqn:En;
        first [ apply Hz; congruence
              | apply (DecimalFacts.nzhead_nonzero d d); rewrite En; congruence ]. }
  all: rewrite <- Hv; cbn [uint_val Decimal.nb_digits];
    rewrite Nat2Z.inj_succ;
    replace (Z.succ (Z.of_nat (Decimal.nb_digits d)) - 1)
      with (Z.of_nat (Decimal.nb_digits d)) by lia;
    (etransitivity; [|apply uint_val_lower; lia]);
    assert (0 < 10 ^ Z.of_nat (Decimal.nb_digits d)) by (apply Z.pow_pos_nonneg; lia);
    lia.
Qed.

Lemma to_uint_short p :
  Z.pos p <= 2 ^ 63 -> (Decimal.nb_digits (Pos.to_uint p) < 49)%nat.
Proof.
  intros Hp. pose proof (to_uint_digits p) as Hd.
  destruct (Nat.lt_ge_cases (Decimal.nb_digits (Pos.to_uint p)) 49) as [H|H]; [exact H|].
  exfalso.
  assert (10 ^ 48 <= 10 ^ (Z.of_nat (Decimal.nb_digits (Pos.to_uint p)) - 1))
    by (apply Z.pow_le_mono_r; lia).
  assert (2 ^ 63 < 10 ^ 48) by reflexivity.
  lia.
Qed.

(** What [%lld] prints for an [int64_t] is a line that fits the reply
    buffer. *)
Lemma dec_line z :
  in_int64 z ->
  Forall (fun b => b <> LF) (list_ascii_of_string (dec z)) /\
  Forall (fun b => b <> NUL) (list_ascii_of_string (dec z)) /\
  (length (list_ascii_of_string (dec z)) < 50)%nat.
Proof.
  intros [Hmin Hmax]. unfold LLONG_MIN, LLONG_MAX in *.
  assert (Hdig : forall p,
            Forall (fun b => b <> LF)
              (list_ascii_of_string (NilEmpty.string_of_uint (Pos.to_uint p))) /\
            Forall (fun b => b <> NUL)
              (list_ascii_of_string (NilEmpty.string_of_uint (Pos.to_uint p)))).
  { intros p. split; (eapply Forall_impl; [apply string_of_uint_digits|]);
      intros c Hc; [apply is_digit_not_lf, Hc|apply is_digit_plain, Hc]. }
  destruct z as [|p|p].
  - repeat split; first [repeat constructor; discriminate | simpl; lia].
  - unfold dec. cbn [Z.to_int NilZero.string_of_int].
    rewrite string_of_uint_to_uint, string_of_uint_length.
    destruct (Hdig p) as [H1 H2]. repeat split; auto.
    pose proof (to_uint_short p). lia.
  - unfold dec. cbn [Z.to_int NilZero.string_of_int list_ascii_of_string length].
    rewrite string_of_uint_to_uint, string_of_uint_length.
    destruct (Hdig p) as [H1 H2].
    repeat split; try (constructor; [discriminate|assumption]).
    pose proof (to_uint_short p). lia.
Qed.

(** ** Sends and receives touch one descriptor *)

Lemma io_on_refl fd w : io_on fd w w.
Proof.
  constructor; try reflexivity. exists []. rewrite app_nil_r. auto.
Qed.

Lemma io_on_trans fd w1 w2 w3 : io_on fd w1 w2 -> io_on fd w2 w3 -> io_on fd w1 w3.
Proof.
  intros [B1 N1 C1 V1 S1 (e1 & T1 & F1)] [B2 N2 C2 V2 S2 (e2 & T2 & F2)].
  constructor; try congruence.
  - intros fd' Hne. rewrite S2, S1; auto.
  - exists (e1 ++ e2). rewrite T2, T1, app_assoc. split; [reflexivity|].
    apply Forall_app; auto.
Qed.

Lemma send_trace w fd data :
  trace (snd (send w fd data)) = trace w ++ [SysSend fd data (fst (send w fd data))].
Proof.
  unfold send. destruct (socks w !! fd) as [sk|]; [|reflexivity].
  destruct (outscript sk) as [|[k|e] rest]; reflexivity.
Qed.

Lemma send_io_on w fd data : io_on fd w (snd (send w fd data)).
Proof.
  constructor; try (unfold send; destruct (socks w !! fd) as [sk|];
    [destruct (outscript sk) as [|[k|e] rest]|]; reflexivity).
  - intros fd' Hne. unfold send. destruct (socks w !! fd) as [sk|]; [|reflexivity].
    destruct (outscript sk) as [|[k|e] rest]; simpl; apply lookup_insert_ne; auto.
  - eexists. split; [apply send_trace|]. repeat constructor.
Qed.

Lemma send_failed_errno w fd data :
  fst (send w fd data) < 0 -> 0 < errno (snd (send w fd data)).
Proof.
  unfold send. destruct (socks w !! fd) as [sk|]; [|simpl; unfold EBADF; lia].
  destruct (outscript sk) as [|[k|e] rest]; simpl; lia.
Qed.

Lemma recv_trace w fd n :
  trace (snd (recv w fd n)) = trace w ++ [SysRecv fd n (fst (fst (recv w fd n)))].
Proof.
  unfold recv. destruct (socks w !! fd) as [sk|]; [|reflexivity].
  destruct (inbox sk) as [|[b|e] rest]; reflexivity.
Qed.

Lemma recv_io_on w fd n : io_on fd w (snd (recv w fd n)).
Proof.
  constructor; try (unfold recv; destruct (socks w !! fd) as [sk|];
    [destruct (inbox sk) as [|[b|e] rest]|]; reflexivity).
  - intros fd' Hne. unfold recv. destruct (socks w !! fd) as [sk|]; [|reflexivity].
    destruct (inbox sk) as [|[b|e] rest]; simpl; apply lookup_insert_ne; auto.
  - eexists. split; [apply recv_trace|]. repeat constructor.
Qed.

Lemma write_str_loop_io_on fuel : forall w fd buf len write,
  io_on fd w (snd (write_str_loop fuel w fd buf len write)).
Proof.
  induction fuel as [|fuel IH]; intros w fd buf len write; simpl.
  - destruct (write <? len); apply io_on_refl.
  - destruct (write <? len); [|apply io_on_refl].
    pose proof (send_io_on w fd (take (Z.to_nat (len - write)) (drop (Z.to_nat write) buf))) as Hs.
    destruct (send w fd _) as [ret w1]. simpl in Hs.
    destruct (ret =? 0); [exact Hs|].
    destruct (ret <? 0); [exact Hs|].
    eapply io_on_trans; [exact Hs|apply IH].
Qed.

Lemma write_str_io_on w fd buf len : io_on fd w (snd (write_str w fd buf len)).
Proof. apply write_str_loop_io_on. Qed.

Lemma read_str_until_loop_io_on turns : forall w fd c out read,
  io_on fd w (snd (read_str_until_loop turns w fd c out read)).
Proof.
  induction turns as [|turns IH]; intros w fd c out read; simpl.
  - apply io_on_refl.
  - pose proof (recv_io_on w fd 1) as Hr.
    destruct (recv w fd 1) as [[ret buf] w1]. simpl in Hr.
    destruct (ret <? 0); [exact Hr|].
    destruct (ret <? 1); [exact Hr|].
    destruct (Ascii.eqb (hd NUL buf) c); [exact Hr|].
    eapply io_on_trans; [exact Hr|apply IH].
Qed.

Lemma read_str_until_io_on w fd c out max :
  io_on fd w (snd (read_str_until w fd c out max)).
Proof. apply read_str_until_loop_io_on. Qed.

Lemma strtoll_io_on fd w buf : io_on fd w (snd (strtoll w buf)).
Proof.
  unfold strtoll. destruct (split_sign _) as [neg l].
  destruct (scan_digits l 0 false) as [v any].
  destruct (negb any).
  - cbn [snd]. destruct (noconv_einval w); [|apply io_on_refl].
    constructor; try reflexivity. exists []. rewrite app_nil_r. auto.
  - destruct (_ >? _); [|destruct (_ <? _)]; cbn [snd]; try apply io_on_refl;
      (constructor; try reflexivity; exists []; rewrite app_nil_r; auto).
Qed.

(** ** [write_str] *)

Lemma send_open w fd data sk :
  socks w !! fd = Some sk ->
  exists sk1,
    socks (snd (send w fd data)) !! fd = Some sk1 /\
    fst (send w fd data) <= Z.of_nat (length data) /\
    inbox sk1 = inbox sk /\
    outbox sk1 = outbox sk ++ take (Z.to_nat (fst (send w fd data))) data.
Proof.
  intros Hsk. unfold send. rewrite Hsk.
  destruct (outscript sk) as [|[k|e] rest]; simpl;
    (eexists; split; [apply lookup_insert_eq|]); simpl.
  - rewrite Nat2Z.id, take_ge by lia. repeat split; lia.
  - repeat split; lia.
  - rewrite app_nil_r. repeat split; lia.
Qed.

Lemma send_ok_errno w fd data :
  0 <= fst (send w fd data) -> errno (snd (send w fd data)) = errno w.
Proof.
  unfold send. destruct (socks w !! fd) as [sk|]; [|simpl; lia].
  destruct (outscript sk) as [|[k|e] rest]; simpl; (reflexivity || lia).
Qed.

(** [fuel] does not decide anything once it covers the bytes left. *)
Lemma write_str_loop_fuel fuel : forall fuel' w fd buf len write,
  len - write <= Z.of_nat fuel -> len - write <= Z.of_nat fuel' ->
  write_str_loop fuel w fd buf len write = write_str_loop fuel' w fd buf len write.
Proof.
  induction fuel as [|fuel IH]; intros fuel' w fd buf len write H1 H2.
  - destruct fuel'; simpl; destruct (write <? len) eqn:E; try reflexivity; lia.
  - destruct fuel' as [|fuel']; simpl; destruct (write <? len) eqn:E;
      try reflexivity; try lia.
    destruct (send w fd _) as [ret w1].
    destruct (ret =? 0) eqn:E0; [reflexivity|].
    destruct (ret <? 0) eqn:E1; [reflexivity|].
    apply IH; lia.
Qed.

Lemma write_str_loop_run fuel : forall w fd buf len write,
  len - write <= Z.of_nat fuel ->
  exists rets,
    trace (snd (write_str_loop fuel w fd buf len write))
      = trace w ++ send_log fd buf len write rets /\
    write_outcome len (errno (snd (write_str_loop fuel w fd buf len write)))
      write rets (fst (write_str_loop fuel w fd buf len write)).
Proof.
  induction fuel as [|fuel IH]; intros w fd buf len write Hfuel; simpl.
  - destruct (write <? len) eqn:E; [lia|].
    exists []. simpl. rewrite app_nil_r. split; [reflexivity|].
    constructor. lia.
  - destruct (write <? len) eqn:E.
    2:{ exists []. simpl. rewrite app_nil_r. split; [reflexivity|].
        constructor. lia. }
    set (data := take (Z.to_nat (len - write)) (drop (Z.to_nat write) buf)).
    pose proof (send_trace w fd data) as Ht.
    destruct (send w fd data) as [ret w1]. simpl in Ht.
    destruct (ret =? 0) eqn:E0.
    { exists [0]. simpl. assert (ret = 0) by lia. subst ret.
      split; [exact Ht|]. apply wo_closed. lia. }
    destruct (ret <? 0) eqn:E1.
    { exists [ret]. simpl. split; [exact Ht|]. apply wo_failed; lia. }
    destruct (IH w1 fd buf len (write + ret)) as (rets & Htr & Hout); [lia|].
    exists (ret :: rets). simpl. split.
    + rewrite Htr, Ht, <- app_assoc. reflexivity.
    + apply wo_partial; [lia|lia|exact Hout].
Qed.

Lemma write_str_loop_delivers fuel : forall w fd buf len write sk,
  socks w !! fd = Some sk ->
  0 <= write -> len <= Z.of_nat (length buf) ->
  len - write <= Z.of_nat fuel ->
  exists n,
    write <= n /\
    outbox_of (snd (write_str_loop fuel w fd buf len write)) fd
      = outbox sk ++ take (Z.to_nat (n - write)) (drop (Z.to_nat write) buf) /\
    inbox_of (snd (write_str_loop fuel w fd buf len write)) fd = inbox sk /\
    (fst (write_str_loop fuel w fd buf len write) = 0 -> n = Z.max write len) /\
    (fst (write_str_loop fuel w fd buf len write) <> 0 -> n < len).
Proof.
  induction fuel as [|fuel IH]; intros w fd buf len write sk Hsk Hw Hlen Hfuel.
  - simpl. destruct (write <? len) eqn:E; [lia|].
    exists write. unfold outbox_of, inbox_of. simpl. rewrite Hsk, Z.sub_diag. simpl.
    rewrite app_nil_r. repeat split; first [lia | congruence | reflexivity].
  - simpl. destruct (write <? len) eqn:E.
    2:{ exists write. unfold outbox_of, inbox_of. simpl. rewrite Hsk, Z.sub_diag. simpl.
        rewrite app_nil_r. repeat split; first [lia | congruence | reflexivity]. }
    set (data := take (Z.to_nat (len - write)) (drop (Z.to_nat write) buf)).
    assert (Hdata : Z.of_nat (length data) = len - write).
    { unfold data. rewrite length_take, length_drop. lia. }
    destruct (send_open w fd data sk Hsk) as (sk1 & Hsk1 & Hle & Hin & Hbox).
    pose proof (send_failed_errno w fd data) as Herr.
    destruct (send w fd data) as [ret w1]. simpl in Hsk1, Hle, Hin, Hbox, Herr.
    destruct (ret =? 0) eqn:E0.
    { exists write. unfold outbox_of, inbox_of. simpl. rewrite Hsk1, Hbox, Hin, Z.sub_diag.
      assert (ret = 0) by lia. subst ret. simpl.
      repeat split; try lia. unfold AVERROR, ENETDOWN. lia. }
    destruct (ret <? 0) eqn:E1.
    { exists write. unfold outbox_of, inbox_of. simpl. rewrite Hsk1, Hbox, Hin, Z.sub_diag.
      replace (Z.to_nat ret) with 0%nat by lia. simpl.
      repeat split; try lia. unfold AVERROR. lia. }
    destruct (IH w1 fd buf len (write + ret) sk1 Hsk1) as (n & Hn & Ho & Hi & Hz & Hnz);
      try lia.
    exists n. split; [lia|]. split; [|split; [congruence|split; [lia|exact Hnz]]].
    rewrite Ho, Hbox, <- app_assoc. f_equal.
    unfold data. rewrite take_take.
    replace (Z.to_nat ret `min` Z.to_nat (len - write))%nat with (Z.to_nat ret) by lia.
    replace (Z.to_nat (write + ret)) with (Z.to_nat write + Z.to_nat ret)%nat by lia.
    rewrite <- drop_drop, take_take_drop. f_equal. lia.
Qed.

Lemma write_str_loop_ok fuel : forall w fd buf len write sk,
  socks w !! fd = Some sk ->
  fst (write_str_loop fuel w fd buf len write) = 0 ->
  errno (snd (write_str_loop fuel w fd buf len write)) = errno w /\
  exists sk1,
    socks (snd (write_str_loop fuel w fd buf len write)) !! fd = Some sk1 /\
    inbox sk1 = inbox sk.
Proof.
  induction fuel as [|fuel IH]; intros w fd buf len write sk Hsk; simpl.
  - destruct (write <? len); eauto.
  - destruct (write <? len); [|eauto].
    set (data := take (Z.to_nat (len - write)) (drop (Z.to_nat write) buf)).
    destruct (send_open w fd data sk Hsk) as (sk1 & Hsk1 & _ & Hin & _).
    pose proof (send_ok_errno w fd data) as Herrno.
    pose proof (send_failed_errno w fd data) as Hfail.
    destruct (send w fd data) as [ret w1]. cbn [fst snd] in *.
    destruct (ret =? 0) eqn:E0; [unfold AVERROR, ENETDOWN; simpl; lia|].
    destruct (ret <? 0) eqn:E1.
    { simpl. unfold AVERROR. intros H. apply Z.ltb_lt in E1. specialize (Hfail E1). lia. }
    intros H. destruct (IH w1 fd buf len (write + ret) sk1 Hsk1 H) as (He & sk2 & Hsk2 & Hin2).
    split; [rewrite He; apply Herrno; apply Z.ltb_ge in E1; lia|].
    exists sk2. split; [exact Hsk2|congruence].
Qed.

Lemma write_str_sends_whole_line_aux w fd buf len :
  exists rets,
    trace (snd (write_str w fd buf len)) = trace w ++ send_log fd buf len 0 rets /\
    write_outcome len (errno (snd (write_str w fd buf len))) 0 rets
      (fst (write_str w fd buf len)).
Proof. apply write_str_loop_run. lia. Qed.

Lemma write_outcome_code len e write rets r :
  write_outcome len e write rets r ->
  r = 0 \/ r = AVERROR ENETDOWN \/ r = AVERROR e.
Proof. induction 1; auto. Qed.

Lemma write_str_code w fd buf len :
  fst (write_str w fd buf len) = 0 \/
  fst (write_str w fd buf len) = AVERROR ENETDOWN \/
  fst (write_str w fd buf len) = AVERROR (errno (snd (write_str w fd buf len))).
Proof.
  destruct (write_str_sends_whole_line_aux w fd buf len) as (rets & _ & H).
  eapply write_outcome_code, H.
Qed.



(** [write_str] on a peer that takes two bytes and then one at a time,
    one that closes after two bytes, and one that fails after two. *)
Lemma write_str_examples :
  let cmd := lit ("stat" ++ String LF "") in
  let run script :=
    let r := write_str (world_with (mkSock [] script []) []) 3 cmd (strlen cmd) in
    (fst r, outbox_of (snd r) 3, length (trace (snd r))) in
  run [SAccept 2; SAccept 1; SAccept 1]
    = (0, list_ascii_of_string ("stat" ++ String LF ""), 4%nat) /\
  run [SAccept 2; SAccept 0]
    = (AVERROR ENETDOWN, list_ascii_of_string "st", 2%nat) /\
  run [SAccept 2; SErr 32]
    = (AVERROR EPIPE, list_ascii_of_string "st", 2%nat).
Proof. repeat split. Qed.

(** ** [read_str_until] *)

Lemma recv_byte w fd sk b rest :
  socks w !! fd = Some sk -> inbox sk = RByte b :: rest ->
  recv w fd 1 = (1, [b], received w fd sk 1 rest).
Proof.
  intros Hsk Hin. unfold recv, received, log, set_socks. rewrite Hsk, Hin.
  reflexivity.
Qed.

Lemma recv_eof w fd sk :
  socks w !! fd = Some sk -> inbox sk = [] ->
  recv w fd 1 = (0, [], log (SysRecv fd 1 0) (received w fd sk 0 [])).
Proof.
  intros Hsk Hin. unfold recv, received, log, set_socks. rewrite Hsk, Hin. simpl.
  rewrite app_nil_r. reflexivity.
Qed.

Lemma recv_err w fd sk e rest :
  socks w !! fd = Some sk -> inbox sk = RErr e :: rest ->
  recv w fd 1 = (-1, [], log (SysRecv fd 1 (-1))
                           (set_errno (Z.pos e) (received w fd sk 0 rest))).
Proof.
  intros Hsk Hin. unfold recv, received, log, set_socks, set_errno. rewrite Hsk, Hin.
  simpl. rewrite app_nil_r. reflexivity.
Qed.

Lemma received_nothing w fd sk :
  socks w !! fd = Some sk -> received w fd sk 0 (inbox sk) = w.
Proof.
  intros Hsk. unfold received. destruct w, sk; simpl in *.
  rewrite insert_id, app_nil_r by exact Hsk. reflexivity.
Qed.

Lemma received_more w fd sk k n mid rest :
  received (received w fd sk k mid) fd (mkSock mid (outscript sk) (outbox sk)) n rest
  = received w fd sk (k + n) rest.
Proof.
  unfold received. simpl. rewrite insert_insert_eq, <- app_assoc, repeat_app.
  reflexivity.
Qed.

Lemma received_lookup w fd sk k rest :
  socks (received w fd sk k rest) !! fd = Some (mkSock rest (outscript sk) (outbox sk)).
Proof. apply lookup_insert_eq. Qed.

(** The loop takes the bytes of a line that holds no [until_char] one by
    one into [out]. *)
Lemma read_str_until_loop_line fd c : forall line w sk out read turns rest,
  socks w !! fd = Some sk ->
  inbox sk = map RByte line ++ rest ->
  Forall (fun b => b <> c) line ->
  read_str_until_loop (length line + turns) w fd c out read
  = read_str_until_loop turns (received w fd sk (length line) rest) fd c
      (store_line out read line) (read + Z.of_nat (length line)).
Proof.
  induction line as [|b line IH]; intros w sk out read turns rest Hsk Hin Hne.
  - simpl in *. subst rest. rewrite received_nothing, Z.add_0_r by exact Hsk.
    reflexivity.
  - inversion Hne as [|? ? Hb Hline]; subst.
    change (length (b :: line) + turns)%nat with (S (length line + turns)).
    cbn [read_str_until_loop].
    rewrite (recv_byte w fd sk b (map RByte line ++ rest) Hsk Hin).
    cbn [hd]. apply ascii_eqb_false in Hb. rewrite Hb.
    change (1 <? 0) with false. change (1 <? 1) with false. cbv iota.
    rewrite (IH _ (mkSock (map RByte line ++ rest) (outscript sk) (outbox sk))
               _ _ _ rest);
      [|apply received_lookup|reflexivity|exact Hline].
    rewrite received_more. cbn [store_line length].
    f_equal. lia.
Qed.

Lemma store_line_app : forall line out read,
  0 <= read ->
  (Z.to_nat read + length line <= length out)%nat ->
  store_line out read line
  = take (Z.to_nat read) out ++ line ++ drop (Z.to_nat read + length line) out.
Proof.
  induction line as [|b line IH]; intros out read Hr Hlen; simpl.
  - rewrite Nat.add_0_r, take_drop. reflexivity.
  - simpl in Hlen. rewrite IH; [|lia|].
    2:{ unfold store. destruct (read <? 0) eqn:E; [lia|]. rewrite length_insert. lia. }
    unfold store. destruct (read <? 0) eqn:E; [lia|].
    replace (Z.to_nat (read + 1)) with (S (Z.to_nat read)) by lia.
    rewrite (take_S_r _ _ b).
    2:{ apply list_lookup_insert_eq. lia. }
    rewrite take_insert_ge by lia.
    rewrite drop_insert_lt by lia.
    rewrite <- app_assoc. simpl.
    replace (Z.to_nat read + S (length line))%nat
      with (S (Z.to_nat read + length line)) by lia.
    reflexivity.
Qed.

Lemma store_line_0 line out :
  (length line <= length out)%nat ->
  store_line out 0 line = line ++ drop (length line) out.
Proof.
  intros H. rewrite store_line_app by (simpl; lia). reflexivity.
Qed.

Lemma store_line_0_nul line out :
  (length line < length out)%nat ->
  store (store_line out 0 line) (Z.of_nat (length line)) NUL
  = line ++ NUL :: drop (S (length line)) out.
Proof.
  intros H. rewrite store_line_0 by lia. unfold store.
  destruct (Z.of_nat (length line) <? 0) eqn:E; [lia|].
  rewrite Nat2Z.id.
  rewrite insert_app_r_alt, Nat.sub_diag by lia.
  destruct (drop (length line) out) as [|x tl] eqn:Hd.
  - apply (f_equal length) in Hd. rewrite length_drop in Hd. simpl in Hd. lia.
  - simpl. do 2 f_equal.
    replace (S (length line)) with (length line + 1)%nat by lia.
    rewrite <- drop_drop, Hd. reflexivity.
Qed.

(** The line fills the buffer: the loop ends on its condition. *)
Lemma read_str_until_at_cap w fd sk c out line rest :
  socks w !! fd = Some sk ->
  inbox sk = map RByte line ++ rest ->
  Forall (fun b => b <> c) line ->
  (length line <= length out)%nat ->
  read_str_until w fd c out (Z.of_nat (length line))
  = (Z.of_nat (length line), line ++ drop (length line) out,
     received w fd sk (length line) rest).
Proof.
  intros Hsk Hin Hne Hlen. unfold read_str_until.
  replace (Z.to_nat (Z.of_nat (length line))) with (length line + 0)%nat by lia.
  rewrite (read_str_until_loop_line fd c line w sk out 0 0 rest Hsk Hin Hne).
  simpl. rewrite store_line_0 by lia. reflexivity.
Qed.

(** What follows a line shorter than [max] decides: the terminator, the
    end of the stream, or a failing [recv]. *)
Lemma read_str_until_short w fd sk c out max line rest :
  socks w !! fd = Some sk ->
  inbox sk = map RByte line ++ rest ->
  Forall (fun b => b <> c) line ->
  Z.of_nat (length line) < max <= Z.of_nat (length out) ->
  read_str_until w fd c out max
  = read_str_until_loop (S (Z.to_nat max - length line - 1))
      (received w fd sk (length line) rest) fd c
      (line ++ drop (length line) out) (Z.of_nat (length line)).
Proof.
  intros Hsk Hin Hne Hlen. unfold read_str_until.
  replace (Z.to_nat max) with (length line + S (Z.to_nat max - length line - 1))%nat
    at 1 by lia.
  rewrite (read_str_until_loop_line fd c line w sk out 0 _ _ Hsk Hin Hne).
  rewrite store_line_0 by lia. reflexivity.
Qed.

Lemma read_str_until_terminated w fd sk c out max line rest :
  socks w !! fd = Some sk ->
  inbox sk = map RByte line ++ RByte c :: rest ->
  Forall (fun b => b <> c) line ->
  Z.of_nat (length line) < max <= Z.of_nat (length out) ->
  read_str_until w fd c out max
  = (Z.of_nat (length line), line ++ NUL :: drop (S (length line)) out,
     received w fd sk (length line + 1) rest).
Proof.
  intros Hsk Hin Hne Hlen.
  rewrite (read_str_until_short w fd sk c out max line _ Hsk Hin Hne Hlen).
  cbn [read_str_until_loop].
  rewrite (recv_byte _ fd _ c rest (received_lookup _ _ _ _ _) eq_refl).
  cbn [hd]. rewrite (proj2 (ascii_eqb_eq c c) eq_refl).
  change (1 <? 0) with false. change (1 <? 1) with false. cbv iota.
  rewrite received_more, <- store_line_0_nul, store_line_0 by lia.
  reflexivity.
Qed.

Lemma read_str_until_eof w fd sk c out max line :
  socks w !! fd = Some sk ->
  inbox sk = map RByte line ++ [] ->
  Forall (fun b => b <> c) line ->
  Z.of_nat (length line) < max <= Z.of_nat (length out) ->
  read_str_until w fd c out max
  = (AVERROR_EOF, line ++ drop (length line) out,
     log (SysRecv fd 1 0) (received w fd sk (length line) [])).
Proof.
  intros Hsk Hin Hne Hlen.
  rewrite (read_str_until_short w fd sk c out max line _ Hsk Hin Hne Hlen).
  cbn [read_str_until_loop].
  rewrite (recv_eof _ fd _ (received_lookup _ _ _ _ _) eq_refl).
  change (0 <? 0) with false. change (0 <? 1) with true. cbv iota.
  rewrite received_more, Nat.add_0_r. reflexivity.
Qed.

Lemma read_str_until_recv_error w fd sk c out max line e rest :
  socks w !! fd = Some sk ->
  inbox sk = map RByte line ++ RErr e :: rest ->
  Forall (fun b => b <> c) line ->
  Z.of_nat (length line) < max <= Z.of_nat (length out) ->
  read_str_until w fd c out max
  = (AVERROR (Z.pos e), line ++ drop (length line) out,
     log (SysRecv fd 1 (-1))
       (set_errno (Z.pos e) (received w fd sk (length line) rest))).
Proof.
  intros Hsk Hin Hne Hlen.
  rewrite (read_str_until_short w fd sk c out max line _ Hsk Hin Hne Hlen).
  cbn [read_str_until_loop].
  rewrite (recv_err _ fd _ e rest (received_lookup _ _ _ _ _) eq_refl).
  change (-1 <? 0) with true. cbv iota.
  rewrite received_more, Nat.add_0_r. reflexivity.
Qed.

(** A line of fewer than 50 bytes, none of them NUL, ends up in the reply
    buffer as the C string it is. *)
Lemma read_reply_line w fd sk line rest out :
  socks w !! fd = Some sk ->
  inbox sk = map RByte line ++ RByte LF :: rest ->
  Forall (fun b => b <> LF) line ->
  Forall (fun b => b <> NUL) line ->
  (length line < 50)%nat -> (50 <= length out)%nat ->
  exists buf,
    read_str_until w fd LF out 50
    = (Z.of_nat (length line), buf, received w fd sk (length line + 1) rest) /\
    cstr buf = line.
Proof.
  intros Hsk Hin Hlf Hnul Hlen Hout.
  eexists. split; [apply read_str_until_terminated; auto; lia|].
  apply cstr_line, Hnul.
Qed.

(** A read or write hands on the error of the reply reader as it is. *)
Lemma unix_y_read_reply_failed w s size r1 w1 r2 buf w2 :
  reading_mode s <> 0 -> cur_fd s < 0 ->
  (let cmd_buf := char_array 50 ("read " ++ dec (pos s) ++ String LF "") in
   write_str w (control_fd s) cmd_buf (strlen cmd_buf) = (r1, w1) /\
   read_str_until w1 (control_fd s) LF cmd_buf 50 = (r2, buf, w2)) ->
  0 <= r1 -> r2 < 0 ->
  unix_y_read w s size = (r2, [], s, w2).
Proof.
  intros Hmode Hfd [Hw Hr] H1 H2. unfold unix_y_read.
  destruct (reading_mode s =? 0) eqn:E; [lia|].
  destruct (cur_fd s <? 0) eqn:E1; [|lia].
  rewrite Hw. destruct (r1 <? 0) eqn:E2; [lia|].
  rewrite Hr. destruct (r2 <? 0) eqn:E3; [reflexivity|lia].
Qed.

Lemma unix_y_write_reply_failed w s data size r1 w1 r2 buf w2 :
  reading_mode s = 0 -> cur_fd s < 0 ->
  (let cmd_buf := char_array 50 ("write " ++ dec (pos s) ++ String LF "") in
   write_str w (control_fd s) cmd_buf (strlen cmd_buf) = (r1, w1) /\
   read_str_until w1 (control_fd s) LF cmd_buf 50 = (r2, buf, w2)) ->
  0 <= r1 -> r2 < 0 ->
  unix_y_write w s data size = (r2, s, w2).
Proof.
  intros Hmode Hfd [Hw Hr] H1 H2. unfold unix_y_write.
  destruct (reading_mode s =? 0) eqn:E; [|lia]. cbn [negb].
  destruct (cur_fd s <? 0) eqn:E1; [|lia].
  rewrite Hw. destruct (r1 <? 0) eqn:E2; [lia|].
  rewrite Hr. destruct (r2 <? 0) eqn:E3; [reflexivity|lia].
Qed.

(** C2, as the code has it.  Let the peer have queued a line of bytes
    other than [until_char], no longer than [max], in front of [rest].
    [read_str_until] asks for one byte at a time and
    - when the line has [max] bytes, stops there and returns [max]: no
      error, the [max] bytes in [out] and no terminator behind them;
    - when [until_char] follows sooner, returns the length of the line,
      with the line and a NUL in [out];
    - when the peer closes sooner, returns [AVERROR_EOF];
    - when a [recv] fails sooner, returns [AVERROR(errno)].
    A read or a write whose reply reader returns a negative value returns
    that value and leaves the context as it was. *)
Theorem read_str_until_framing :
  (forall w fd sk c out max line rest,
     socks w !! fd = Some sk ->
     inbox sk = map RByte line ++ rest ->
     Forall (fun b => b <> c) line ->
     Z.of_nat (length line) <= max <= Z.of_nat (length out) ->
     (Z.of_nat (length line) = max ->
      read_str_until w fd c out max
      = (max, line ++ drop (length line) out, received w fd sk (length line) rest)) /\
     (forall rest', Z.of_nat (length line) < max -> rest = RByte c :: rest' ->
      read_str_until w fd c out max
      = (Z.of_nat (length line), line ++ NUL :: drop (S (length line)) out,
         received w fd sk (length line + 1) rest')) /\
     (Z.of_nat (length line) < max -> rest = [] ->
      read_str_until w fd c out max
      = (AVERROR_EOF, line ++ drop (length line) out,
         log (SysRecv fd 1 0) (received w fd sk (length line) []))) /\
     (forall e rest', Z.of_nat (length line) < max -> rest = RErr e :: rest' ->
      read_str_until w fd c out max
      = (AVERROR (Z.pos e), line ++ drop (length line) out,
         log (SysRecv fd 1 (-1))
           (set_errno (Z.pos e) (received w fd sk (length line) rest'))))) /\
  (forall w s size r1 w1 r2 buf w2,
     reading_mode s <> 0 -> cur_fd s < 0 ->
     (let cmd_buf := char_array 50 ("read " ++ dec (pos s) ++ String LF "") in
      write_str w (control_fd s) cmd_buf (strlen cmd_buf) = (r1, w1) /\
      read_str_until w1 (control_fd s) LF cmd_buf 50 = (r2, buf, w2)) ->
     0 <= r1 -> r2 < 0 ->
     unix_y_read w s size = (r2, [], s, w2)) /\
  (forall w s data size r1 w1 r2 buf w2,
     reading_mode s = 0 -> cur_fd s < 0 ->
     (let cmd_buf := char_array 50 ("write " ++ dec (pos s) ++ String LF "") in
      write_str w (control_fd s) cmd_buf (strlen cmd_buf) = (r1, w1) /\
      read_str_until w1 (control_fd s) LF cmd_buf 50 = (r2, buf, w2)) ->
     0 <= r1 -> r2 < 0 ->
     unix_y_write w s data size = (r2, s, w2)).
Proof.
  split; [|split].
  - intros w fd sk c out max line rest Hsk Hin Hne [Hlo Hhi]. repeat split.
    + intros <-. apply read_str_until_at_cap; auto. lia.
    + intros rest' Hlt ->. apply read_str_until_terminated; auto.
    + intros Hlt ->. apply read_str_until_eof; auto.
    + intros e rest' Hlt ->. apply read_str_until_recv_error; auto.
  - exact unix_y_read_reply_failed.
  - exact unix_y_write_reply_failed.
Qed.

(** The peer closes in the middle of its reply to a read command: the
    read fails with [AVERROR_EOF] and the stream stays where it was. *)
Lemma read_str_until_framing_witness :
  unix_y_read (world_with (peer (bytes "o")) []) (opened 1) 5
  = (AVERROR_EOF, [], opened 1,
     snd (unix_y_read (world_with (peer (bytes "o")) []) (opened 1) 5)) /\
  read_str_until (world_with (peer (bytes ("ok" ++ String LF ""))) []) 3 LF
    (repeat NUL 50) 50
  = (2, list_ascii_of_string "ok" ++ NUL :: drop 3 (repeat NUL 50),
     received (world_with (peer (bytes ("ok" ++ String LF ""))) []) 3
       (peer (bytes ("ok" ++ String LF ""))) 3 []).
Proof.
  split.
  - eapply (proj1 (proj2 read_str_until_framing)).
    + vm_compute. discriminate.
    + vm_compute. reflexivity.
    + split; vm_compute; reflexivity.
    + vm_compute. discriminate.
    + vm_compute. reflexivity.
  - refine (proj1 (proj2 (proj1 read_str_until_framing
              (world_with (peer (bytes ("ok" ++ String LF ""))) []) 3
              (peer (bytes ("ok" ++ String LF ""))) LF (repeat NUL 50) 50
              (list_ascii_of_string "ok") [RByte LF] _ _ _ _)) [] _ _).
    + reflexivity.
    + reflexivity.
    + repeat constructor; discriminate.
    + simpl. lia.
    + simpl. lia.
    + reflexivity.
Defined.

(** C2 as stated fails at the cap.  Fifty bytes without a line feed make
    [read_str_until] return 50, which is not an error; [unix_y_read] then
    finds the buffer unlike [ok] and returns the [AVERROR(EINVAL)] of any
    other reply; and when the fifty bytes start with [ok] and a NUL the
    read goes through. *)
Lemma reply_at_the_cap_is_not_an_error :
  length reply_long = 50%nat /\ ~ In (RByte LF) reply_long /\
  length reply_long_ok = 50%nat /\ ~ In (RByte LF) reply_long_ok /\
  fst (fst (read_str_until (world_with (peer reply_long) []) 3 LF
              (repeat NUL 50) 50)) = 50 /\
  fst (fst (fst (unix_y_read (world_with (peer reply_long) []) (opened 1) 5)))
    = AVERROR EINVAL /\
  fst (fst (fst (unix_y_read
                   (world_with (peer reply_long_ok) [Peer (peer (bytes "hello"))])
                   (opened 1) 5))) = 5.
Proof.
  split; [reflexivity|]. split.
  { intros H. vm_compute in H. repeat (destruct H as [H|H]; [discriminate H|]). exact H. }
  split; [reflexivity|]. split.
  { intros H. vm_compute in H. repeat (destruct H as [H|H]; [discriminate H|]). exact H. }
  repeat split; vm_compute; reflexivity.
Qed.

(** ** [connectSocket] *)

Lemma closesocket_gone w fd : socks (closesocket w fd) !! fd = None.
Proof. apply lookup_delete_eq. Qed.

(** The send of the [new_session] line, the last step of a negotiation
    that has no session id yet. *)
Lemma connectSocket_new_session w s sk rest :
  session_id s <= 0 -> backlog w = Peer sk :: rest ->
  exists w4 cmd,
    session_id_inc w4 = wrap32 (session_id_inc w + 1) /\
    (exists evs, trace w4 = trace w ++ evs) /\
    connectSocket w s =
      (let fd := Z.of_nat (next_fd w) in
       let '(ret, w5) := write_str w4 fd cmd (strlen cmd) in
       if ret <? 0 then (ret, s, closesocket w5 fd)
       else (fd, set_session_id (wrap32 (session_id_inc w + 1)) s, w5)).
Proof.
  intros Hid Hb. unfold connectSocket, ff_socket. rewrite Hb.
  destruct (Z.of_nat (next_fd w) <? 0) eqn:E; [absurd_test|].
  unfold ff_listen_connect. cbn [backlog log set_next_fd]. rewrite Hb.
  change (0 <? 0) with false. cbv iota.
  destruct (session_id s >? 0) eqn:E1; [absurd_test|].
  cbn [atomic_fetch_add atomic_load].
  eexists _, _. split; [|split; [|reflexivity]].
  - reflexivity.
  - cbn. rewrite <- !app_assoc. eexists. reflexivity.
Qed.

Lemma connectSocket_pos w s : pos (snd (fst (connectSocket w s))) = pos s.
Proof.
  unfold connectSocket.
  destruct (ff_socket w) as [fd w1].
  destruct (fd <? 0); [reflexivity|].
  destruct (ff_listen_connect w1 fd _ _ _) as [ret w2].
  destruct (ret <? 0); [reflexivity|].
  destruct (session_id s >? 0).
  - destruct (write_str _ _ _ _) as [r w4]. destruct (r <? 0); reflexivity.
  - destruct (atomic_fetch_add _ _) as [c w4].
    destruct (write_str _ _ _ _) as [r w5]. destruct (r <? 0); reflexivity.
Qed.

(** C3, as the code has it.  A negotiation without a session id that gets
    its connection and then fails can only have failed in sending the
    [new_session] line.  It returns the error of [write_str] and closes the
    descriptor it had opened.  The context is as before, so the session
    id is still unset: [s->session_id] is assigned behind the send only.
    The process-wide counter keeps the increment, so the number minted is
    used up and a retry mints the next one. *)
Theorem failed_new_session_leaves_id_unset w s sk rest :
  session_id s <= 0 ->
  backlog w = Peer sk :: rest ->
  fst (fst (connectSocket w s)) < 0 ->
  let '(ret, s', w') := connectSocket w s in
  s' = s /\
  session_id_inc w' = wrap32 (session_id_inc w + 1) /\
  socks w' !! Z.of_nat (next_fd w) = None /\
  (exists evs, trace w' = trace w ++ evs ++ [SysClose (Z.of_nat (next_fd w))]) /\
  (ret = AVERROR ENETDOWN \/ ret = AVERROR (errno w')).
Proof.
  intros Hid Hb.
  destruct (connectSocket_new_session w s sk rest Hid Hb)
    as (w4 & cmd & Hc & (evs & Ht) & ->).
  cbv zeta.
  pose proof (write_str_io_on w4 (Z.of_nat (next_fd w)) cmd (strlen cmd)) as Hio.
  pose proof (write_str_code w4 (Z.of_nat (next_fd w)) cmd (strlen cmd)) as Hcode.
  destruct (write_str w4 (Z.of_nat (next_fd w)) cmd (strlen cmd)) as [ret w5].
  cbn [fst snd] in Hio, Hcode.
  destruct (ret <? 0) eqn:E; cbn [fst]; intros Hneg; [|absurd_test].
  split; [reflexivity|]. split.
  { cbn. rewrite (io_counter _ _ _ Hio). exact Hc. }
  split; [apply closesocket_gone|]. split.
  - destruct (io_trace _ _ _ Hio) as (evs' & Ht' & _).
    exists (evs ++ evs'). cbn. rewrite Ht', Ht, <- !app_assoc. reflexivity.
  - cbn. destruct Hcode as [H|[H|H]]; [lia|auto|auto].
Qed.

Lemma failed_new_session_leaves_id_unset_witness :
  let '(ret, s', w') :=
    connectSocket (fresh_world [Peer (mkSock [] [SErr 32] [])]) (unopened 1) in
  s' = unopened 1 /\
  session_id_inc w'
    = wrap32 (session_id_inc (fresh_world [Peer (mkSock [] [SErr 32] [])]) + 1) /\
  socks w' !! Z.of_nat (next_fd (fresh_world [Peer (mkSock [] [SErr 32] [])])) = None /\
  (exists evs,
     trace w' = trace (fresh_world [Peer (mkSock [] [SErr 32] [])]) ++ evs ++
                [SysClose (Z.of_nat (next_fd (fresh_world [Peer (mkSock [] [SErr 32] [])])))]) /\
  (ret = AVERROR ENETDOWN \/ ret = AVERROR (errno w')).
Proof.
  apply (failed_new_session_leaves_id_unset
           (fresh_world [Peer (mkSock [] [SErr 32] [])]) (unopened 1)
           (mkSock [] [SErr 32] []) []).
  - vm_compute. discriminate.
  - reflexivity.
  - vm_compute. reflexivity.
Defined.

(** C3 as stated fails.  The first negotiation mints 1 and fails in its
    send with [EPIPE]; the session id is then not 1 but still the [-1] of
    an unset id, and the negotiation that follows mints 2. *)
Lemma failed_new_session_forgets_minted_id :
  let '(ret, s', w') :=
    connectSocket (fresh_world [Peer (mkSock [] [SErr 32] []); Peer (peer [])])
      (unopened 1) in
  ret = AVERROR EPIPE /\
  session_id_inc w' = 1 /\
  session_id s' = -1 /\
  session_id s' <> 1 /\
  session_id (snd (fst (connectSocket w' s'))) = 2.
Proof. vm_compute. repeat split; discriminate. Qed.

(** ** Two threads in [connectSocket] at once *)

(** One thread running lines 134 and 135 by itself mints what
    [connectSocket] mints. *)
Lemma mint_alone w p2 :
  fst (run_schedule [T1; T1] w BeforeAdd p2)
  = (Minted (wrap32 (session_id_inc w + 1)), p2).
Proof. reflexivity. Qed.

(** One after the other, two threads mint two ids, distinct as long as
    the counter does not wrap. *)
Lemma mint_in_turn w :
  - 2 ^ 31 <= session_id_inc w < 2 ^ 31 - 2 ->
  exists id1 id2,
    fst (run_schedule [T1; T1; T2; T2] w BeforeAdd BeforeAdd) = (Minted id1, Minted id2) /\
    id1 = session_id_inc w + 1 /\ id2 = session_id_inc w + 2.
Proof.
  intros H. eexists _, _. split; [reflexivity|]. cbn.
  rewrite !wrap32_exact; rewrite ?wrap32_exact; lia.
Qed.

(** C9.  Both threads pass their [atomic_fetch_add] before either does
    its [atomic_load]: each then loads the counter after both increments,
    and the two streams get the same session id.  From a counter of 0 it
    is 2 for both. *)
Theorem interleaved_mints_share_an_id w :
  fst (run_schedule [T1; T2; T1; T2] w BeforeAdd BeforeAdd)
  = (Minted (wrap32 (wrap32 (session_id_inc w + 1) + 1)),
     Minted (wrap32 (wrap32 (session_id_inc w + 1) + 1))) /\
  fst (run_schedule [T1; T2; T1; T2] (fresh_world []) BeforeAdd BeforeAdd)
  = (Minted 2, Minted 2).
Proof. split; reflexivity. Qed.

(** ** The reply to a [read] or [write] command *)

Lemma unix_y_read_not_ok w s size r1 w1 r2 buf w2 :
  reading_mode s <> 0 -> cur_fd s < 0 ->
  (let cmd_buf := char_array 50 ("read " ++ dec (pos s) ++ String LF "") in
   write_str w (control_fd s) cmd_buf (strlen cmd_buf) = (r1, w1) /\
   read_str_until w1 (control_fd s) LF cmd_buf 50 = (r2, buf, w2)) ->
  0 <= r1 -> 0 <= r2 ->
  cstr buf <> list_ascii_of_string "ok" ->
  unix_y_read w s size = (AVERROR EINVAL, [], s, w2).
Proof.
  intros Hmode Hfd [Hw Hr] H1 H2 Hbuf. unfold unix_y_read.
  destruct (reading_mode s =? 0) eqn:E; [lia|].
  destruct (cur_fd s <? 0) eqn:E1; [|lia].
  rewrite Hw. destruct (r1 <? 0) eqn:E2; [lia|].
  rewrite Hr. destruct (r2 <? 0) eqn:E3; [lia|].
  destruct (strcmp buf (lit "ok") =? 0) eqn:E4; [|reflexivity].
  exfalso. apply Hbuf, strcmp_ok. lia.
Qed.

Lemma unix_y_write_not_ok w s data size r1 w1 r2 buf w2 :
  reading_mode s = 0 -> cur_fd s < 0 ->
  (let cmd_buf := char_array 50 ("write " ++ dec (pos s) ++ String LF "") in
   write_str w (control_fd s) cmd_buf (strlen cmd_buf) = (r1, w1) /\
   read_str_until w1 (control_fd s) LF cmd_buf 50 = (r2, buf, w2)) ->
  0 <= r1 -> 0 <= r2 ->
  cstr buf <> list_ascii_of_string "ok" ->
  unix_y_write w s data size = (AVERROR EINVAL, s, w2).
Proof.
  intros Hmode Hfd [Hw Hr] H1 H2 Hbuf. unfold unix_y_write.
  destruct (reading_mode s =? 0) eqn:E; [|lia]. cbn [negb].
  destruct (cur_fd s <? 0) eqn:E1; [|lia].
  rewrite Hw. destruct (r1 <? 0) eqn:E2; [lia|].
  rewrite Hr. destruct (r2 <? 0) eqn:E3; [lia|].
  destruct (strcmp buf (lit "ok") =? 0) eqn:E4; [|reflexivity].
  exfalso. apply Hbuf, strcmp_ok. lia.
Qed.

(** A read whose command went out and whose reply is a line other than
    [ok], free of NUL bytes, fails with [AVERROR(EINVAL)] and leaves the
    context as it was. *)
Lemma unix_y_read_line_not_ok w s size sk line rest :
  reading_mode s <> 0 -> cur_fd s < 0 ->
  socks w !! control_fd s = Some sk ->
  inbox sk = map RByte line ++ RByte LF :: rest ->
  Forall (fun b => b <> LF) line ->
  Forall (fun b => b <> NUL) line ->
  (length line < 50)%nat ->
  line <> list_ascii_of_string "ok" ->
  (let cmd_buf := char_array 50 ("read " ++ dec (pos s) ++ String LF "") in
   fst (write_str w (control_fd s) cmd_buf (strlen cmd_buf)) = 0) ->
  fst (unix_y_read w s size) = (AVERROR EINVAL, [], s).
Proof.
  intros Hmode Hfd Hsk Hin Hlf Hnul Hlen Hne Hsend. cbv zeta in Hsend.
  set (cmd_buf := char_array 50 ("read " ++ dec (pos s) ++ String LF "")) in *.
  destruct (write_str_loop_ok _ _ _ _ _ _ sk Hsk Hsend) as (_ & sk1 & Hsk1 & Hin1).
  fold (write_str w (control_fd s) cmd_buf (strlen cmd_buf)) in Hsk1.
  destruct (write_str w (control_fd s) cmd_buf (strlen cmd_buf)) as [r1 w1] eqn:Hw.
  cbn [fst snd] in *.
  destruct (read_reply_line w1 (control_fd s) sk1 line rest cmd_buf Hsk1)
    as (buf & Hr & Hbuf); auto; [congruence|apply char_array_length|].
  rewrite (unix_y_read_not_ok w s size r1 w1 _ buf _ Hmode Hfd (conj Hw Hr));
    [reflexivity|lia|lia|congruence].
Qed.

Lemma unix_y_write_line_not_ok w s data size sk line rest :
  reading_mode s = 0 -> cur_fd s < 0 ->
  socks w !! control_fd s = Some sk ->
  inbox sk = map RByte line ++ RByte LF :: rest ->
  Forall (fun b => b <> LF) line ->
  Forall (fun b => b <> NUL) line ->
  (length line < 50)%nat ->
  line <> list_ascii_of_string "ok" ->
  (let cmd_buf := char_array 50 ("write " ++ dec (pos s) ++ String LF "") in
   fst (write_str w (control_fd s) cmd_buf (strlen cmd_buf)) = 0) ->
  fst (unix_y_write w s data size) = (AVERROR EINVAL, s).
Proof.
  intros Hmode Hfd Hsk Hin Hlf Hnul Hlen Hne Hsend. cbv zeta in Hsend.
  set (cmd_buf := char_array 50 ("write " ++ dec (pos s) ++ String LF "")) in *.
  destruct (write_str_loop_ok _ _ _ _ _ _ sk Hsk Hsend) as (_ & sk1 & Hsk1 & Hin1).
  fold (write_str w (control_fd s) cmd_buf (strlen cmd_buf)) in Hsk1.
  destruct (write_str w (control_fd s) cmd_buf (strlen cmd_buf)) as [r1 w1] eqn:Hw.
  cbn [fst snd] in *.
  destruct (read_reply_line w1 (control_fd s) sk1 line rest cmd_buf Hsk1)
    as (buf & Hr & Hbuf); auto; [congruence|apply char_array_length|].
  rewrite (unix_y_write_not_ok w s data size r1 w1 _ buf _ Hmode Hfd (conj Hw Hr));
    [reflexivity|lia|lia|congruence].
Qed.

(** C5, as the code has it.  When a read or a write has sent its command
    on the control connection and read the reply, and the reply buffer,
    taken as a C string (its bytes before the first NUL), is not [ok], the
    call returns [AVERROR(EINVAL)] and leaves the whole context, the
    position with it, as it was; no data connection is attempted.  So it
    is for every reply line of fewer than 50 bytes that holds no NUL and
    is not [ok]. *)
Theorem reply_other_than_ok_is_refused :
  (forall w s size r1 w1 r2 buf w2,
     reading_mode s <> 0 -> cur_fd s < 0 ->
     (let cmd_buf := char_array 50 ("read " ++ dec (pos s) ++ String LF "") in
      write_str w (control_fd s) cmd_buf (strlen cmd_buf) = (r1, w1) /\
      read_str_until w1 (control_fd s) LF cmd_buf 50 = (r2, buf, w2)) ->
     0 <= r1 -> 0 <= r2 ->
     cstr buf <> list_ascii_of_string "ok" ->
     unix_y_read w s size = (AVERROR EINVAL, [], s, w2)) /\
  (forall w s data size r1 w1 r2 buf w2,
     reading_mode s = 0 -> cur_fd s < 0 ->
     (let cmd_buf := char_array 50 ("write " ++ dec (pos s) ++ String LF "") in
      write_str w (control_fd s) cmd_buf (strlen cmd_buf) = (r1, w1) /\
      read_str_until w1 (control_fd s) LF cmd_buf 50 = (r2, buf, w2)) ->
     0 <= r1 -> 0 <= r2 ->
     cstr buf <> list_ascii_of_string "ok" ->
     unix_y_write w s data size = (AVERROR EINVAL, s, w2)) /\
  (forall w s size sk line rest,
     reading_mode s <> 0 -> cur_fd s < 0 ->
     socks w !! control_fd s = Some sk ->
     inbox sk = map RByte line ++ RByte LF :: rest ->
     Forall (fun b => b <> LF) line ->
     Forall (fun b => b <> NUL) line ->
     (length line < 50)%nat ->
     line <> list_ascii_of_string "ok" ->
     (let cmd_buf := char_array 50 ("read " ++ dec (pos s) ++ String LF "") in
      fst (write_str w (control_fd s) cmd_buf (strlen cmd_buf)) = 0) ->
     fst (unix_y_read w s size) = (AVERROR EINVAL, [], s)) /\
  (forall w s data size sk line rest,
     reading_mode s = 0 -> cur_fd s < 0 ->
     socks w !! control_fd s = Some sk ->
     inbox sk = map RByte line ++ RByte LF :: rest ->
     Forall (fun b => b <> LF) line ->
     Forall (fun b => b <> NUL) line ->
     (length line < 50)%nat ->
     line <> list_ascii_of_string "ok" ->
     (let cmd_buf := char_array 50 ("write " ++ dec (pos s) ++ String LF "") in
      fst (write_str w (control_fd s) cmd_buf (strlen cmd_buf)) = 0) ->
     fst (unix_y_write w s data size) = (AVERROR EINVAL, s)).
Proof.
  split; [|split; [|split]].
  - exact unix_y_read_not_ok.
  - exact unix_y_write_not_ok.
  - exact unix_y_read_line_not_ok.
  - exact unix_y_write_line_not_ok.
Qed.

(** The reply [no] to a read command. *)
Lemma reply_other_than_ok_is_refused_witness :
  fst (unix_y_read (world_with (peer reply_no) []) (opened 1) 5)
  = (AVERROR EINVAL, [], opened 1).
Proof.
  apply (proj1 (proj2 (proj2 reply_other_than_ok_is_refused))
           (world_with (peer reply_no) []) (opened 1) 5
           (peer reply_no) (list_ascii_of_string "no") []).
  - vm_compute. discriminate.
  - vm_compute. reflexivity.
  - reflexivity.
  - reflexivity.
  - repeat constructor; discriminate.
  - repeat constructor; discriminate.
  - simpl. lia.
  - discriminate.
  - vm_compute. reflexivity.
Defined.

(** C5 as stated fails: the reply line [ok], NUL, [x] is not the line [ok],
    and the read goes through, moving the position. *)
Lemma reply_with_nul_passes_for_ok :
  inbox (peer reply_ok_nul)
    = map RByte (list_ascii_of_string ("ok" ++ String NUL "x")) ++ [RByte LF] /\
  list_ascii_of_string ("ok" ++ String NUL "x") <> list_ascii_of_string "ok" /\
  let '(ret, data, s', _) :=
    unix_y_read (world_with (peer reply_ok_nul) [Peer (peer (bytes "hello"))])
                (opened 1) 5 in
  ret = 5 /\ data = list_ascii_of_string "hello" /\ pos s' = 5 /\
  ret <> AVERROR EINVAL.
Proof.
  split; [reflexivity|]. split; [discriminate|].
  vm_compute. repeat split; discriminate.
Qed.

(** ** [unix_y_seek] *)

Lemma unix_y_seek_stat_io_on w s whence :
  io_on (control_fd s) w (snd (unix_y_seek_stat w s whence)).
Proof.
  unfold unix_y_seek_stat.
  destruct ((whence =? AVSEEK_SIZE) || (whence =? SEEK_END)); [|apply io_on_refl].
  cbv zeta.
  pose proof (write_str_io_on w (control_fd s) (lit ("stat" ++ String LF ""))
                (strlen (lit ("stat" ++ String LF "")))) as H1.
  destruct (write_str w (control_fd s) _ _) as [ret w1]. cbn [snd] in H1.
  destruct (ret <? 0); [exact H1|].
  pose proof (read_str_until_io_on w1 (control_fd s) LF (repeat NUL 50) 50) as H2.
  destruct (read_str_until w1 (control_fd s) LF (repeat NUL 50) 50) as [[ret2 buf] w2].
  cbn [snd] in H2.
  destruct (ret2 <? 0); [exact (io_on_trans _ _ _ _ H1 H2)|].
  pose proof (strtoll_io_on (control_fd s) w2 buf) as H3.
  destruct (strtoll w2 buf) as [stat w3]. cbn [snd] in H3.
  destruct (errno w3 =? EINVAL);
    exact (io_on_trans _ _ _ _ H1 (io_on_trans _ _ _ _ H2 H3)).
Qed.

Lemma unix_y_seek_stat_other w s whence :
  whence <> AVSEEK_SIZE -> whence <> SEEK_END ->
  unix_y_seek_stat w s whence = (Reached (-1), w).
Proof.
  intros H1 H2. unfold unix_y_seek_stat.
  apply Z.eqb_neq in H1, H2. rewrite H1, H2. reflexivity.
Qed.

(** A stat exchange whose command goes out and whose reply is a size in
    decimal gets through with that size, for every [int64_t] size and
    whatever [errno] was, short of [EINVAL]. *)
Lemma unix_y_seek_stat_decimal w s whence sk z rest :
  whence = AVSEEK_SIZE \/ whence = SEEK_END ->
  socks w !! control_fd s = Some sk ->
  inbox sk = bytes (dec z) ++ RByte LF :: rest ->
  in_int64 z ->
  errno w <> EINVAL ->
  fst (write_str w (control_fd s) (lit ("stat" ++ String LF ""))
         (strlen (lit ("stat" ++ String LF "")))) = 0 ->
  fst (unix_y_seek_stat w s whence) = Reached z.
Proof.
  intros Hwh Hsk Hin Hz Herrno Hsend.
  destruct (dec_line z Hz) as (Hlf & Hnul & Hlen).
  destruct (write_str_loop_ok _ _ _ _ _ _ sk Hsk Hsend) as (He & sk1 & Hsk1 & Hin1).
  unfold unix_y_seek_stat.
  replace ((whence =? AVSEEK_SIZE) || (whence =? SEEK_END)) with true
    by (destruct Hwh as [-> | ->]; reflexivity).
  cbv zeta.
  fold (write_str w (control_fd s) (lit ("stat" ++ String LF ""))
          (strlen (lit ("stat" ++ String LF "")))) in He, Hsk1.
  destruct (write_str w (control_fd s) _ _) as [r1 w1]. cbn [fst snd] in *. subst r1.
  change (0 <? 0) with false. cbv iota.
  destruct (read_reply_line w1 (control_fd s) sk1 (list_ascii_of_string (dec z)) rest
              (repeat NUL 50) Hsk1) as (buf & Hr & Hbuf); auto.
  { rewrite Hin1. exact Hin. }
  rewrite Hr.
  destruct (Z.of_nat (length (list_ascii_of_string (dec z))) <? 0) eqn:E; [absurd_test|].
  rewrite (strtoll_cstr _ buf (list_ascii_of_string (dec z) ++ NUL :: [])).
  2:{ rewrite Hbuf, cstr_line by exact Hnul. reflexivity. }
  rewrite strtoll_dec by exact Hz.
  replace (errno (received w1 (control_fd s) sk1 _ rest)) with (errno w) by (symmetry; exact He).
  apply Z.eqb_neq in Herrno. rewrite Herrno. reflexivity.
Qed.

(** So the size query returns the size the peer reports in decimal. *)
Lemma seek_size_returns_reported_size w s offset sk z rest :
  socks w !! control_fd s = Some sk ->
  inbox sk = bytes (dec z) ++ RByte LF :: rest ->
  in_int64 z ->
  errno w <> EINVAL ->
  fst (write_str w (control_fd s) (lit ("stat" ++ String LF ""))
         (strlen (lit ("stat" ++ String LF "")))) = 0 ->
  fst (unix_y_seek w s offset AVSEEK_SIZE) = (z, s).
Proof.
  intros Hsk Hin Hz Herrno Hsend.
  pose proof (unix_y_seek_stat_decimal w s AVSEEK_SIZE sk z rest (or_introl eq_refl)
                Hsk Hin Hz Herrno Hsend) as H.
  unfold unix_y_seek. destruct (unix_y_seek_stat w s AVSEEK_SIZE) as [flow w1].
  cbn [fst] in H. subst flow. unfold unix_y_seek_move. rewrite Z.eqb_refl. reflexivity.
Qed.

Lemma set_pos_same s : set_pos (pos s) s = s.
Proof. destruct s. reflexivity. Qed.



(** [seek(0, SEEK_CUR)] returns the position and changes nothing; no data
    connection is closed. *)
Lemma seek_cur_zero w s :
  in_int64 (pos s) -> unix_y_seek w s 0 SEEK_CUR = (pos s, s, w).
Proof.
  intros Hp. unfold unix_y_seek.
  rewrite unix_y_seek_stat_other by discriminate.
  unfold unix_y_seek_move.
  change (SEEK_CUR =? AVSEEK_SIZE) with false.
  change (SEEK_CUR =? SEEK_SET) with false.
  change (SEEK_CUR =? SEEK_CUR) with true. cbv iota.
  rewrite add64_exact, Z.add_0_r by (rewrite Z.add_0_r; exact Hp).
  rewrite Z.eqb_refl, andb_false_r, set_pos_same. reflexivity.
Qed.

(** A second [seek(x, SEEK_SET)] right behind the first closes nothing and
    changes nothing. *)
Lemma seek_set_again w s x :
  let '(_, s1, w1) := unix_y_seek w s x SEEK_SET in
  unix_y_seek w1 s1 x SEEK_SET = (x, s1, w1).
Proof.
  assert (Hseek : forall w s, unix_y_seek w s x SEEK_SET =
            if (cur_fd s >=? 0) && negb (x =? pos s)
            then (x, set_pos x (set_cur_fd (-1) s), closesocket w (cur_fd s))
            else (x, set_pos x s, w)).
  { intros w0 s0. unfold unix_y_seek.
    rewrite unix_y_seek_stat_other by discriminate. reflexivity. }
  rewrite (Hseek w s).
  destruct ((cur_fd s >=? 0) && negb (x =? pos s)); rewrite Hseek;
    cbn [pos set_pos set_cur_fd cur_fd]; rewrite Z.eqb_refl, andb_false_r;
    reflexivity.
Qed.

(** A seek with [AVSEEK_SIZE] returns the context as it got it, the
    position and the data descriptor with it.  From the world before to
    the world after there are only sends and receives on the control
    descriptor: no descriptor is made, connected or closed, and no other
    socket is touched.  When the stat block gets through with size
    [stat], that is the value returned; it does so with the size [z]
    when the [stat] line went out, the peer answered with [z] in decimal
    and [errno] was not [EINVAL] on entry.  See
    [seek_size_with_errno_left_is_refused] for [errno = EINVAL]. *)
Lemma seek_size_only_asks w s offset :
  let '(ret, s', w') := unix_y_seek w s offset AVSEEK_SIZE in
  s' = s /\
  io_on (control_fd s) w w' /\
  (forall stat w1,
     unix_y_seek_stat w s AVSEEK_SIZE = (Reached stat, w1) -> ret = stat /\ w' = w1) /\
  (forall sk z rest,
     socks w !! control_fd s = Some sk ->
     inbox sk = bytes (dec z) ++ RByte LF :: rest ->
     in_int64 z ->
     errno w <> EINVAL ->
     fst (write_str w (control_fd s) (lit ("stat" ++ String LF ""))
            (strlen (lit ("stat" ++ String LF "")))) = 0 ->
     ret = z).
Proof.
  pose proof (seek_size_returns_reported_size w s offset) as Hdec.
  unfold unix_y_seek in *.
  pose proof (unix_y_seek_stat_io_on w s AVSEEK_SIZE) as Hio.
  destruct (unix_y_seek_stat w s AVSEEK_SIZE) as [[r|stat] w1]; cbn [snd] in Hio.
  - split; [reflexivity|]. split; [exact Hio|]. split; [discriminate|].
    intros sk z rest H1 H2 H3 H4 H5.
    specialize (Hdec sk z rest H1 H2 H3 H4 H5). cbn [fst] in Hdec. congruence.
  - unfold unix_y_seek_move in *. rewrite Z.eqb_refl in *.
    split; [reflexivity|]. split; [exact Hio|]. split.
    + intros stat' w1' H. injection H as -> ->. auto.
    + intros sk z rest H1 H2 H3 H4 H5.
      specialize (Hdec sk z rest H1 H2 H3 H4 H5). cbn [fst] in Hdec. congruence.
Qed.

Lemma seek_size_only_asks_witness :
  let '(ret, s', _) :=
    unix_y_seek (world_streaming (peer (bytes ("200" ++ String LF ""))) (peer []))
      (streaming 1 60) 0 AVSEEK_SIZE in
  ret = 200 /\ s' = streaming 1 60.
Proof.
  pose proof (seek_size_only_asks
                (world_streaming (peer (bytes ("200" ++ String LF ""))) (peer []))
                (streaming 1 60) 0) as H.
  destruct (unix_y_seek _ _ _ _) as [[ret s'] w'].
  destruct H as (Hs & _ & _ & Hdec).
  split; [|exact Hs].
  apply (Hdec (peer (bytes ("200" ++ String LF ""))) 200 []).
  - reflexivity.
  - reflexivity.
  - vm_compute. split; discriminate.
  - vm_compute. discriminate.
  - vm_compute. reflexivity.
Defined.

(** A reply in decimal is returned as the size. *)
Lemma seek_size_example :
  fst (fst (unix_y_seek (world_with (peer (bytes ("200" ++ String LF ""))) [])
              (opened 1) 0 AVSEEK_SIZE)) = 200.
Proof. vm_compute. reflexivity. Qed.

(** C1.  The size the peer reports is [-5]: the stat exchange passes, and
    the seek to the end with offset 100 does not fail.  It returns 95 and
    stores it as the position. *)
Theorem seek_end_with_negative_size_goes_on :
  fst (unix_y_seek_stat (world_with (peer (bytes ("-5" ++ String LF ""))) [])
         (opened 1) SEEK_END) = Reached (-5) /\
  let '(ret, s', _) :=
    unix_y_seek (world_with (peer (bytes ("-5" ++ String LF ""))) [])
      (opened 1) 100 SEEK_END in
  ret = 95 /\ pos s' = 95 /\ pos (opened 1) = 0 /\ ret <> AVERROR EINVAL.
Proof.
  split; [vm_compute; reflexivity|].
  vm_compute. repeat split; discriminate.
Qed.

(** C4.  The peer answers the stat command with [abc], on a C library
    whose [strtoll] leaves [errno] alone when it finds no digit, and
    [errno] is 0 beforehand.  The size query does not fail: it returns 0. *)
Theorem seek_size_of_unparsable_reply_is_zero :
  noconv_einval (world_with (peer (bytes ("abc" ++ String LF ""))) []) = false /\
  errno (world_with (peer (bytes ("abc" ++ String LF ""))) []) = 0 /\
  fst (fst (unix_y_seek (world_with (peer (bytes ("abc" ++ String LF ""))) [])
              (opened 1) 0 AVSEEK_SIZE)) = 0 /\
  0 <> AVERROR EINVAL.
Proof. repeat split; vm_compute; (reflexivity || discriminate). Qed.

(** On a C library that does set [errno] to [EINVAL] there, the same query
    fails with it. *)
Lemma seek_size_of_unparsable_reply_posix :
  fst (fst (unix_y_seek
              (set_noconv_einval true
                 (world_with (peer (bytes ("abc" ++ String LF ""))) []))
              (opened 1) 0 AVSEEK_SIZE)) = AVERROR EINVAL.
Proof. vm_compute. reflexivity. Qed.

(** With [EINVAL] left in [errno] by some earlier call, a size query
    fails although the reply is a number: [errno] is not cleared before
    [strtoll]. *)
Lemma seek_size_with_stale_errno :
  fst (fst (unix_y_seek
              (set_errno EINVAL
                 (world_with (peer (bytes ("200" ++ String LF ""))) []))
              (opened 1) 0 AVSEEK_SIZE)) = AVERROR EINVAL.
Proof. vm_compute. reflexivity. Qed.

(** The stat exchange of a seek entered with [EINVAL] in [errno]: the
    command goes out, the peer answers with a size in decimal, [strtoll]
    converts it and leaves [errno] alone, and the test [errno == EINVAL]
    that follows takes the value left by the earlier call for a failure
    of the conversion. *)
Lemma unix_y_seek_stat_errno_left w s whence sk z rest :
  whence = AVSEEK_SIZE \/ whence = SEEK_END ->
  socks w !! control_fd s = Some sk ->
  inbox sk = bytes (dec z) ++ RByte LF :: rest ->
  in_int64 z ->
  errno w = EINVAL ->
  fst (write_str w (control_fd s) (lit ("stat" ++ String LF ""))
         (strlen (lit ("stat" ++ String LF "")))) = 0 ->
  fst (unix_y_seek_stat w s whence) = Returned (AVERROR EINVAL).
Proof.
  intros Hwh Hsk Hin Hz Herrno Hsend.
  destruct (dec_line z Hz) as (Hlf & Hnul & Hlen).
  destruct (write_str_loop_ok _ _ _ _ _ _ sk Hsk Hsend) as (He & sk1 & Hsk1 & Hin1).
  unfold unix_y_seek_stat.
  replace ((whence =? AVSEEK_SIZE) || (whence =? SEEK_END)) with true
    by (destruct Hwh as [-> | ->]; reflexivity).
  cbv zeta.
  fold (write_str w (control_fd s) (lit ("stat" ++ String LF ""))
          (strlen (lit ("stat" ++ String LF "")))) in He, Hsk1.
  destruct (write_str w (control_fd s) _ _) as [r1 w1]. cbn [fst snd] in *. subst r1.
  change (0 <? 0) with false. cbv iota.
  destruct (read_reply_line w1 (control_fd s) sk1 (list_ascii_of_string (dec z)) rest
              (repeat NUL 50) Hsk1) as (buf & Hr & Hbuf); auto.
  { rewrite Hin1. exact Hin. }
  rewrite Hr.
  destruct (Z.of_nat (length (list_ascii_of_string (dec z))) <? 0) eqn:E; [absurd_test|].
  rewrite (strtoll_cstr _ buf (list_ascii_of_string (dec z) ++ NUL :: [])).
  2:{ rewrite Hbuf, cstr_line by exact Hnul. reflexivity. }
  rewrite strtoll_dec by exact Hz.
  replace (errno (received w1 (control_fd s) sk1 _ rest)) with EINVAL
    by (rewrite <- Herrno; symmetry; exact He).
  reflexivity.
Qed.

(** C7.  A seek with [AVSEEK_SIZE] does not always return the size the
    stat exchange reports.  [errno] is not cleared before [strtoll], and
    the test [errno == EINVAL] behind it is meant to catch a reply that
    is no number.  So when an earlier call has left [EINVAL] in [errno],
    the [stat] line goes out, the peer reports a size [z >= 0] in
    decimal, and the call returns [AVERROR(EINVAL)], which is not [z].
    The rest of the claim holds on this path too: the context, and with
    it the position and the data descriptor, is returned as it was, and
    nothing happened but sends and receives on the control descriptor. *)
Theorem seek_size_with_errno_left_is_refused w s offset sk z rest :
  socks w !! control_fd s = Some sk ->
  inbox sk = bytes (dec z) ++ RByte LF :: rest ->
  in_int64 z -> 0 <= z ->
  errno w = EINVAL ->
  fst (write_str w (control_fd s) (lit ("stat" ++ String LF ""))
         (strlen (lit ("stat" ++ String LF "")))) = 0 ->
  let '(ret, s', w') := unix_y_seek w s offset AVSEEK_SIZE in
  ret = AVERROR EINVAL /\ ret <> z /\
  s' = s /\ io_on (control_fd s) w w'.
Proof.
  intros Hsk Hin Hz Hpos Herrno Hsend.
  pose proof (unix_y_seek_stat_errno_left w s AVSEEK_SIZE sk z rest (or_introl eq_refl)
                Hsk Hin Hz Herrno Hsend) as Hstat.
  pose proof (unix_y_seek_stat_io_on w s AVSEEK_SIZE) as Hio.
  unfold unix_y_seek.
  destruct (unix_y_seek_stat w s AVSEEK_SIZE) as [flow w1]. cbn [fst snd] in Hstat, Hio.
  subst flow.
  split; [reflexivity|].
  split; [unfold AVERROR, EINVAL; lia|].
  split; [reflexivity|exact Hio].
Qed.

Lemma seek_size_with_errno_left_is_refused_witness :
  let '(ret, s', _) :=
    unix_y_seek (set_errno EINVAL (world_with (peer (bytes ("200" ++ String LF ""))) []))
      (opened 1) 0 AVSEEK_SIZE in
  ret = -22 /\ ret <> 200 /\ s' = opened 1.
Proof.
  pose proof (seek_size_with_errno_left_is_refused
                (set_errno EINVAL (world_with (peer (bytes ("200" ++ String LF ""))) []))
                (opened 1) 0 (peer (bytes ("200" ++ String LF ""))) 200 []) as H.
  assert (Hz : in_int64 200) by (vm_compute; split; discriminate).
  assert (Hp : 0 <= 200) by (vm_compute; discriminate).
  assert (Hsend : fst (write_str
                    (set_errno EINVAL (world_with (peer (bytes ("200" ++ String LF ""))) []))
                    (control_fd (opened 1)) (lit ("stat" ++ String LF ""))
                    (strlen (lit ("stat" ++ String LF "")))) = 0)
    by (vm_compute; reflexivity).
  specialize (H eq_refl eq_refl Hz Hp eq_refl Hsend).
  destruct (unix_y_seek _ _ _ _) as [[ret s'] w'].
  destruct H as (Hret & Hne & Hs & _).
  split; [exact Hret|]. split; [exact Hne|exact Hs].
Defined.

(** The peer closes instead of answering the stat command, [errno] being
    0: the reply reader returns [AVERROR_EOF], but the seek returns
    [AVERROR(errno)], which is 0 and reads as a size. *)
Lemma seek_size_at_eof_returns_errno :
  fst (fst (unix_y_seek (world_with (peer []) []) (opened 1) 0 AVSEEK_SIZE)) = 0 /\
  fst (fst (read_str_until
              (snd (write_str (world_with (peer []) []) 3
                      (lit ("stat" ++ String LF "")) 5))
              3 LF (repeat NUL 50) 50)) = AVERROR_EOF.
Proof. split; vm_compute; reflexivity. Qed.

(** ** The position *)

Lemma unix_y_read_recv_pos w s size :
  let '(ret, _, s', _) := unix_y_read_recv w s size in
  pos s' = pos s \/ (0 < ret /\ pos s' = add64 (pos s) ret).
Proof.
  unfold unix_y_read_recv. destruct (recv w (cur_fd s) size) as [[ret data] w1].
  destruct (ret =? 0) eqn:E0; [left; reflexivity|].
  destruct (ret <? 0) eqn:E1; [left; reflexivity|].
  right. split; [|reflexivity]. apply Z.eqb_neq in E0. apply Z.ltb_ge in E1. lia.
Qed.

Lemma unix_y_write_send_pos w s buf size :
  let '(ret, s', _) := unix_y_write_send w s buf size in
  pos s' = pos s \/ (0 <= ret /\ pos s' = add64 (pos s) ret).
Proof.
  unfold unix_y_write_send. destruct (send w (cur_fd s) _) as [ret w1].
  destruct (ret <? 0) eqn:E1; [left; reflexivity|].
  right. split; [|reflexivity]. apply Z.ltb_ge in E1. lia.
Qed.

Lemma unix_y_read_pos w s size :
  let '(ret, _, s', _) := unix_y_read w s size in
  pos s' = pos s \/ (0 < ret /\ pos s' = add64 (pos s) ret).
Proof.
  unfold unix_y_read.
  destruct (reading_mode s =? 0); [left; reflexivity|].
  destruct (cur_fd s <? 0); [|apply unix_y_read_recv_pos].
  cbv zeta. destruct (write_str _ _ _ _) as [r1 w1].
  destruct (r1 <? 0); [left; reflexivity|].
  destruct (read_str_until _ _ _ _ _) as [[r2 buf] w2].
  destruct (r2 <? 0); [left; reflexivity|].
  destruct (negb _); [left; reflexivity|].
  pose proof (connectSocket_pos w2 s) as Hp.
  destruct (connectSocket w2 s) as [[r3 s1] w3]. cbn [fst snd] in Hp.
  destruct (r3 <? 0); [left; exact Hp|].
  pose proof (unix_y_read_recv_pos w3 (set_cur_fd r3 s1) size) as H.
  destruct (unix_y_read_recv w3 (set_cur_fd r3 s1) size) as [[[ret data] s'] w'].
  cbn [pos set_cur_fd] in H. rewrite Hp in H. exact H.
Qed.

Lemma unix_y_write_pos w s buf size :
  let '(ret, s', _) := unix_y_write w s buf size in
  pos s' = pos s \/ (0 <= ret /\ pos s' = add64 (pos s) ret).
Proof.
  unfold unix_y_write.
  destruct (negb (reading_mode s =? 0)); [left; reflexivity|].
  destruct (cur_fd s <? 0); [|apply unix_y_write_send_pos].
  cbv zeta. destruct (write_str _ _ _ _) as [r1 w1].
  destruct (r1 <? 0); [left; reflexivity|].
  destruct (read_str_until _ _ _ _ _) as [[r2 rep] w2].
  destruct (r2 <? 0); [left; reflexivity|].
  destruct (negb _); [left; reflexivity|].
  pose proof (connectSocket_pos w2 s) as Hp.
  destruct (connectSocket w2 s) as [[r3 s1] w3]. cbn [fst snd] in Hp.
  destruct (r3 <? 0); [left; exact Hp|].
  pose proof (unix_y_write_send_pos w3 (set_cur_fd r3 s1) buf size) as H.
  destruct (unix_y_write_send w3 (set_cur_fd r3 s1) buf size) as [[ret s'] w'].
  cbn [pos set_cur_fd] in H. rewrite Hp in H. exact H.
Qed.

Lemma unix_y_seek_pos w s offset whence :
  let '(ret, s', _) := unix_y_seek w s offset whence in
  pos s' = pos s \/
  (ret = pos s' /\
   (whence = SEEK_SET \/ whence = SEEK_CUR \/ whence = SEEK_END) /\
   exists stat w1, unix_y_seek_stat w s whence = (Reached stat, w1)).
Proof.
  unfold unix_y_seek.
  destruct (unix_y_seek_stat w s whence) as [[r|stat] w1]; [left; reflexivity|].
  unfold unix_y_seek_move.
  destruct (whence =? AVSEEK_SIZE) eqn:E; [left; reflexivity|].
  assert (Hwh : forall np,
            (if whence =? SEEK_SET then Some offset
             else if whence =? SEEK_CUR then Some (add64 (pos s) offset)
             else if whence =? SEEK_END then Some (add64 stat offset)
             else None) = Some np ->
            whence = SEEK_SET \/ whence = SEEK_CUR \/ whence = SEEK_END).
  { intros np. destruct (whence =? SEEK_SET) eqn:E1; [apply Z.eqb_eq in E1; auto|].
    destruct (whence =? SEEK_CUR) eqn:E2; [apply Z.eqb_eq in E2; auto|].
    destruct (whence =? SEEK_END) eqn:E3; [apply Z.eqb_eq in E3; auto|].
    discriminate. }
  cbv zeta.
  destruct (if whence =? SEEK_SET then Some offset else _) as [np|];
    [|left; reflexivity].
  specialize (Hwh np eq_refl).
  destruct ((cur_fd s >=? 0) && negb (np =? pos s));
    right; (split; [reflexivity|split; [exact Hwh|eauto]]).
Qed.

(** C10, as the code has it.  A read changes the position only by adding
    the positive count its [recv] on the data connection returned, and a
    write only by adding the count its [send] returned; a read or write
    that returns a negative value leaves it.  A seek changes the position
    only in its last assignment, which it reaches with [SEEK_SET],
    [SEEK_CUR] or [SEEK_END] behind a stat block that did not return; the
    value it then returns is the position it stored, whatever its sign. *)
Theorem position_changes_only_at_the_end :
  (forall w s size,
     let '(ret, _, s', _) := unix_y_read w s size in
     (ret <= 0 -> pos s' = pos s) /\
     (pos s' = pos s \/ (0 < ret /\ pos s' = add64 (pos s) ret))) /\
  (forall w s buf size,
     let '(ret, s', _) := unix_y_write w s buf size in
     (ret < 0 -> pos s' = pos s) /\
     (pos s' = pos s \/ (0 <= ret /\ pos s' = add64 (pos s) ret))) /\
  (forall w s offset whence,
     let '(ret, s', _) := unix_y_seek w s offset whence in
     (forall r w1, unix_y_seek_stat w s whence = (Returned r, w1) -> pos s' = pos s) /\
     (whence <> SEEK_SET -> whence <> SEEK_CUR -> whence <> SEEK_END -> pos s' = pos s) /\
     (pos s' = pos s \/
      (ret = pos s' /\
       (whence = SEEK_SET \/ whence = SEEK_CUR \/ whence = SEEK_END) /\
       exists stat w1, unix_y_seek_stat w s whence = (Reached stat, w1)))).
Proof.
  split; [|split].
  - intros w s size. pose proof (unix_y_read_pos w s size) as H.
    destruct (unix_y_read w s size) as [[[ret data] s'] w'].
    split; [|exact H]. intros Hret. destruct H as [H|[H _]]; [exact H|lia].
  - intros w s buf size. pose proof (unix_y_write_pos w s buf size) as H.
    destruct (unix_y_write w s buf size) as [[ret s'] w'].
    split; [|exact H]. intros Hret. destruct H as [H|[H _]]; [exact H|lia].
  - intros w s offset whence. pose proof (unix_y_seek_pos w s offset whence) as H.
    destruct (unix_y_seek w s offset whence) as [[ret s'] w'].
    split; [|split; [|exact H]].
    + intros r w1 Hr. destruct H as [H|(_ & _ & stat & w2 & H)]; [exact H|].
      rewrite Hr in H. discriminate.
    + intros H1 H2 H3. destruct H as [H|(_ & [H|[H|H]] & _)]; [exact H| | |];
        contradiction.
Qed.

Lemma position_changes_only_at_the_end_witness :
  let '(ret, _, s', _) :=
    unix_y_read (world_with (peer reply_no) []) (opened 1) 5 in
  ret = AVERROR EINVAL /\ pos s' = pos (opened 1).
Proof.
  pose proof (proj1 position_changes_only_at_the_end
                (world_with (peer reply_no) []) (opened 1) 5) as H.
  destruct (unix_y_read _ _ _) as [[[ret data] s'] w'] eqn:E.
  assert (Hret : ret = AVERROR EINVAL).
  { vm_compute in E. injection E as <- _ _ _. reflexivity. }
  split; [exact Hret|]. apply (proj1 H). rewrite Hret. vm_compute. discriminate.
Defined.

(** C10 as stated fails for seeks.  With a size of 100, a seek to 122
    bytes before the end returns [-22], the very value of
    [AVERROR(EINVAL)], which a caller reads as an error, and has stored
    [-22] as the position; so has a seek to [-5] from the start. *)
Lemma seek_below_zero_moves_and_returns_negative :
  (let '(ret, s', _) :=
     unix_y_seek (world_streaming (peer (bytes ("100" ++ String LF ""))) (peer []))
       (streaming 1 50) (-122) SEEK_END in
   ret = AVERROR EINVAL /\ ret < 0 /\ pos s' = -22 /\ pos s' <> pos (streaming 1 50)) /\
  (let '(ret, s', _) :=
     unix_y_seek (world_streaming (peer []) (peer [])) (streaming 1 50) (-5) SEEK_SET in
   ret = -5 /\ ret < 0 /\ pos s' = -5 /\ pos s' <> pos (streaming 1 50)).
Proof. split; vm_compute; repeat split; discriminate. Qed.

(** ** A stream from open to the last seek *)

(** The run of a write stream: open mints session 1; 100 bytes are
    written at 0 behind a [write 0] exchange; a seek to 50 drops the data
    connection; 10 bytes are written at 50 behind a [write 50] exchange
    on a new data connection; a seek to the end, the peer reporting 200,
    returns 200 and drops the data connection again. *)
Lemma write_stream_run :
  let ok : string := "ok" +:+ String LF "" in
  let ctrl := peer (bytes (ok +:+ ok +:+ "200" +:+ String LF "")) in
  let w0 := fresh_world [Peer ctrl; Peer (peer []); Peer (peer [])] in
  let '(r1, s1, w1) := unix_y_open w0 (unopened 0) "unix-y:/tmp/y.sock" 2 in
  let '(r2, s2, w2) := unix_y_write w1 s1 (repeat "a"%char 100) 100 in
  let '(r3, s3, w3) := unix_y_seek w2 s2 50 SEEK_SET in
  let '(r4, s4, w4) := unix_y_write w3 s3 (repeat "b"%char 10) 10 in
  let '(r5, s5, w5) := unix_y_seek w4 s4 0 SEEK_END in
  (r1, session_id s1, control_fd s1, cur_fd s1, pos s1) = (0, 1, 3, -1, 0) /\
  (r2, cur_fd s2, pos s2) = (100, 4, 100) /\
  (r3, cur_fd s3, pos s3) = (50, -1, 50) /\
  (r4, cur_fd s4, pos s4) = (10, 5, 60) /\
  (r5, cur_fd s5, pos s5) = (200, -1, 200) /\
  outbox_of w5 3 = list_ascii_of_string
    ("new_session write 1" ++ String LF ("write 0" ++ String LF
       ("write 50" ++ String LF ("stat" ++ String LF "")))) /\
  closed_fds (trace w5) = [4; 5].
Proof. vm_compute. repeat split. Qed.

(** * The rest of the stream's life *)

(** ** The command lines *)

Lemma chars_app (a b : string) :
  list_ascii_of_string (a ++ b) = list_ascii_of_string a ++ list_ascii_of_string b.
Proof. induction a as [|c a IH]; simpl; [reflexivity|]. rewrite IH. reflexivity. Qed.

(** [%d] prints no NUL and no line feed. *)
Lemma dec_plain z :
  Forall (fun c => c <> NUL /\ c <> LF) (list_ascii_of_string (dec z)).
Proof.
  assert (Hdig : forall p,
            Forall (fun c => c <> NUL /\ c <> LF)
              (list_ascii_of_string (NilEmpty.string_of_uint (Pos.to_uint p)))).
  { intros p. eapply Forall_impl; [apply string_of_uint_digits|].
    intros c Hc. split; [apply is_digit_plain, Hc|apply is_digit_not_lf, Hc]. }
  destruct z as [|p|p]; unfold dec; cbn [Z.to_int NilZero.string_of_int].
  - repeat constructor; discriminate.
  - rewrite string_of_uint_to_uint. apply Hdig.
  - cbn [list_ascii_of_string]. rewrite string_of_uint_to_uint.
    constructor; [split; discriminate|apply Hdig].
Qed.

(** A line printed into an array is, as a C string, the line. *)
Lemma cstr_char_array size (str : string) :
  Forall (fun c => c <> NUL) (list_ascii_of_string str) ->
  cstr (char_array size str) = list_ascii_of_string str.
Proof.
  intros H. unfold char_array, lit. cbv zeta. rewrite <- app_assoc. simpl.
  apply cstr_line, H.
Qed.

Lemma strlen_char_array size (str : string) :
  Forall (fun c => c <> NUL) (list_ascii_of_string str) ->
  strlen (char_array size str) = Z.of_nat (length (list_ascii_of_string str)) /\
  take (length (list_ascii_of_string str)) (char_array size str)
    = list_ascii_of_string str.
Proof.
  intros H. unfold strlen. rewrite cstr_char_array by exact H.
  split; [reflexivity|].
  unfold char_array, lit. cbv zeta. rewrite <- app_assoc. apply take_app_length.
Qed.

(** The four command lines hold no NUL. *)
Lemma line_plain (prefix : string) z :
  Forall (fun c => c <> NUL) (list_ascii_of_string prefix) ->
  Forall (fun c => c <> NUL)
    (list_ascii_of_string (prefix ++ dec z ++ String LF "")).
Proof.
  intros Hp. rewrite !chars_app. apply Forall_app. split; [exact Hp|].
  apply Forall_app. split.
  - eapply Forall_impl; [apply dec_plain|]. intros c [Hc _]. exact Hc.
  - repeat constructor. discriminate.
Qed.

Lemma read_line_plain p : Forall (fun c => c <> NUL) (list_ascii_of_string (read_line p)).
Proof. apply line_plain. repeat constructor; discriminate. Qed.

Lemma write_line_plain p : Forall (fun c => c <> NUL) (list_ascii_of_string (write_line p)).
Proof. apply line_plain. repeat constructor; discriminate. Qed.

Lemma run_session_line_plain id :
  Forall (fun c => c <> NUL) (list_ascii_of_string (run_session_line id)).
Proof. apply line_plain. repeat constructor; discriminate. Qed.

Lemma new_session_line_plain mode id :
  Forall (fun c => c <> NUL) (list_ascii_of_string (new_session_line mode id)).
Proof.
  unfold new_session_line. destruct (negb (mode =? 0));
    apply line_plain; repeat constructor; discriminate.
Qed.

Lemma line_not_empty (prefix : string) z :
  (0 < length (list_ascii_of_string (prefix ++ dec z ++ String LF "")))%nat.
Proof. rewrite !chars_app, !length_app. simpl. lia. Qed.

(** ** A peer that takes what it is sent *)

Lemma send_all w fd sk data :
  socks w !! fd = Some sk -> outscript sk = [] ->
  send w fd data = (Z.of_nat (length data), sent w fd sk data).
Proof. intros Hsk Hs. unfold send, sent. rewrite Hsk, Hs. reflexivity. Qed.

(** [write_str] on such a peer: one [send], the whole line. *)
Lemma write_str_all w fd sk buf len :
  socks w !! fd = Some sk -> outscript sk = [] ->
  0 < len <= Z.of_nat (length buf) ->
  write_str w fd buf len = (0, sent w fd sk (take (Z.to_nat len) buf)).
Proof.
  intros Hsk Hs Hlen. unfold write_str.
  destruct (Z.to_nat len) as [|n] eqn:En; [lia|].
  cbn [write_str_loop]. destruct (0 <? len) eqn:E; [|absurd_test].
  rewrite Z.sub_0_r. change (Z.to_nat 0) with 0%nat. rewrite drop_0, En.
  rewrite <- En.
  rewrite (send_all w fd sk _ Hsk Hs).
  assert (Hl : Z.of_nat (length (take (Z.to_nat len) buf)) = len)
    by (rewrite length_take; lia).
  rewrite Hl.
  destruct (len =? 0) eqn:E0; [absurd_test|].
  destruct (len <? 0) eqn:E1; [absurd_test|].
  rewrite Z.add_0_l.
  destruct n; cbn [write_str_loop]; rewrite Z.ltb_irrefl; reflexivity.
Qed.

(** A command line printed into a 50-byte array and sent with
    [write_str(fd, cmd, strlen(cmd))]. *)
Lemma write_str_line w fd sk (str : string) :
  socks w !! fd = Some sk -> outscript sk = [] ->
  Forall (fun c => c <> NUL) (list_ascii_of_string str) ->
  (0 < length (list_ascii_of_string str))%nat ->
  write_str w fd (char_array 50 str) (strlen (char_array 50 str))
  = (0, sent w fd sk (list_ascii_of_string str)).
Proof.
  intros Hsk Hs Hp Hlen.
  destruct (strlen_char_array 50 str Hp) as [Hl Ht].
  rewrite (write_str_all w fd sk); auto.
  - rewrite Hl, Nat2Z.id, Ht. reflexivity.
  - rewrite Hl. split; [lia|].
    unfold char_array, lit. cbv zeta. rewrite !length_app. lia.
Qed.

Lemma sent_lookup w fd sk data :
  socks (sent w fd sk data) !! fd = Some (mkSock (inbox sk) [] (outbox sk ++ data)).
Proof. apply lookup_insert_eq. Qed.

Lemma sent_other w fd sk data fd' :
  fd' <> fd -> socks (sent w fd sk data) !! fd' = socks w !! fd'.
Proof. intros H. apply lookup_insert_ne. auto. Qed.

(** ** Which descriptors are open *)

Lemma same_fds_refl w : same_fds w w.
Proof. intros fd. reflexivity. Qed.

Lemma same_fds_trans w1 w2 w3 : same_fds w1 w2 -> same_fds w2 w3 -> same_fds w1 w3.
Proof.
  intros H1 H2 fd. split; intros H.
  - apply H1, H2, H.
  - apply H2, H1, H.
Qed.

Lemma insert_same_fds (m : gmap Z Sock) fd sk sk' fd' :
  m !! fd = Some sk -> is_Some (<[fd := sk']> m !! fd') <-> is_Some (m !! fd').
Proof.
  intros H. rewrite lookup_insert_is_Some. split.
  - intros [<- | [_ Hs]]; [eauto|exact Hs].
  - intros Hs. destruct (decide (fd = fd')) as [->|Hne]; auto.
Qed.

Lemma send_same_fds w fd data : same_fds w (snd (send w fd data)).
Proof.
  intros fd'. unfold send. destruct (socks w !! fd) as [sk|] eqn:Hsk; [|reflexivity].
  destruct (outscript sk) as [|[k|e] rest]; cbn [snd socks log set_socks set_errno];
    eapply insert_same_fds; exact Hsk.
Qed.

Lemma recv_same_fds w fd n : same_fds w (snd (recv w fd n)).
Proof.
  intros fd'. unfold recv. destruct (socks w !! fd) as [sk|] eqn:Hsk; [|reflexivity].
  destruct (inbox sk) as [|[b|e] rest]; cbn [snd socks log set_socks set_errno];
    eapply insert_same_fds; exact Hsk.
Qed.

Lemma write_str_loop_same_fds fuel : forall w fd buf len write,
  same_fds w (snd (write_str_loop fuel w fd buf len write)).
Proof.
  induction fuel as [|fuel IH]; intros w fd buf len write; simpl.
  - destruct (write <? len); apply same_fds_refl.
  - destruct (write <? len); [|apply same_fds_refl].
    pose proof (send_same_fds w fd (take (Z.to_nat (len - write)) (drop (Z.to_nat write) buf))) as Hs.
    destruct (send w fd _) as [ret w1]. simpl in Hs.
    destruct (ret =? 0); [exact Hs|].
    destruct (ret <? 0); [exact Hs|].
    eapply same_fds_trans; [exact Hs|apply IH].
Qed.

Lemma write_str_same_fds w fd buf len : same_fds w (snd (write_str w fd buf len)).
Proof. apply write_str_loop_same_fds. Qed.

Lemma read_str_until_loop_same_fds turns : forall w fd c out read,
  same_fds w (snd (read_str_until_loop turns w fd c out read)).
Proof.
  induction turns as [|turns IH]; intros w fd c out read; simpl.
  - apply same_fds_refl.
  - pose proof (recv_same_fds w fd 1) as Hr.
    destruct (recv w fd 1) as [[ret buf] w1]. simpl in Hr.
    destruct (ret <? 0); [exact Hr|].
    destruct (ret <? 1); [exact Hr|].
    destruct (Ascii.eqb (hd NUL buf) c); [exact Hr|].
    eapply same_fds_trans; [exact Hr|apply IH].
Qed.

Lemma read_str_until_same_fds w fd c out max :
  same_fds w (snd (read_str_until w fd c out max)).
Proof. apply read_str_until_loop_same_fds. Qed.

Lemma strtoll_socks w buf : socks (snd (strtoll w buf)) = socks w.
Proof.
  unfold strtoll. destruct (split_sign _) as [neg l].
  destruct (scan_digits l 0 false) as [v any].
  destruct (negb any); [destruct (noconv_einval w); reflexivity|].
  destruct (_ >? _); [|destruct (_ <? _)]; reflexivity.
Qed.

Lemma fds_below_step w w' :
  fds_below w -> same_fds w w' -> (next_fd w <= next_fd w')%nat -> fds_below w'.
Proof.
  intros Hb Hs Hn fd Hfd. apply Hs in Hfd. specialize (Hb fd Hfd). lia.
Qed.

(** ** What [write_str] leaves with the peer *)

(** Whatever the peer's script, [write_str] leaves with it a prefix of
    the line: all of it when it returns 0, less otherwise. *)
Lemma write_str_outbox w fd sk buf len :
  socks w !! fd = Some sk -> 0 <= len <= Z.of_nat (length buf) ->
  exists n,
    0 <= n <= len /\
    outbox_of (snd (write_str w fd buf len)) fd = outbox sk ++ take (Z.to_nat n) buf /\
    inbox_of (snd (write_str w fd buf len)) fd = inbox sk /\
    (fst (write_str w fd buf len) = 0 -> n = len) /\
    (fst (write_str w fd buf len) <> 0 -> n < len).
Proof.
  intros Hsk Hlen. unfold write_str.
  destruct (write_str_loop_delivers (Z.to_nat len) w fd buf len 0 sk Hsk)
    as (n & Hn & Hout & Hin & H0 & H1); [lia|lia|lia|].
  rewrite Z.sub_0_r in Hout. change (Z.to_nat 0) with 0%nat in Hout.
  rewrite drop_0 in Hout.
  exists n. repeat split; auto; lia.
Qed.

(** A command line printed into a 50-byte array and sent with
    [write_str(fd, cmd, strlen(cmd))] that returns 0 has reached the peer
    whole. *)
Lemma write_str_line_outbox w fd sk (str : string) :
  socks w !! fd = Some sk ->
  Forall (fun c => c <> NUL) (list_ascii_of_string str) ->
  fst (write_str w fd (char_array 50 str) (strlen (char_array 50 str))) = 0 ->
  outbox_of (snd (write_str w fd (char_array 50 str) (strlen (char_array 50 str)))) fd
    = outbox sk ++ list_ascii_of_string str /\
  inbox_of (snd (write_str w fd (char_array 50 str) (strlen (char_array 50 str)))) fd
    = inbox sk.
Proof.
  intros Hsk Hp H0.
  destruct (strlen_char_array 50 str Hp) as [Hl Ht].
  destruct (write_str_outbox w fd sk (char_array 50 str) (strlen (char_array 50 str)) Hsk)
    as (n & Hn & Hout & Hin & Hall & _).
  { rewrite Hl. split; [lia|].
    unfold char_array, lit. cbv zeta. rewrite !length_app. lia. }
  rewrite (Hall H0) in Hout. rewrite Hl in Hout at 2.
  rewrite Nat2Z.id, Ht in Hout. auto.
Qed.

Lemma outbox_of_open w fd :
  is_Some (socks w !! fd) \/ outbox_of w fd = [].
Proof. unfold outbox_of. destruct (socks w !! fd); eauto. Qed.

(** ** [connectSocket] *)

Lemma connected_lookup w s sk rest :
  socks (connected w s sk rest) !! Z.of_nat (next_fd w) = Some sk.
Proof. apply lookup_insert_eq. Qed.

(** [connectSocket] as far as the command line, when a peer answers. *)
Lemma connectSocket_peer w s sk rest :
  backlog w = Peer sk :: rest ->
  connectSocket w s =
    (let fd := Z.of_nat (next_fd w) in
     let w3 := connected w s sk rest in
     if session_id s >? 0 then
       let cmd := char_array 50 (run_session_line (session_id s)) in
       let '(ret, w4) := write_str w3 fd cmd (strlen cmd) in
       if ret <? 0 then (ret, s, closesocket w4 fd) else (fd, s, w4)
     else
       let id := wrap32 (session_id_inc w + 1) in
       let w4 := set_session_id_inc id w3 in
       let cmd := char_array 50 (new_session_line (reading_mode s) id) in
       let '(ret, w5) := write_str w4 fd cmd (strlen cmd) in
       if ret <? 0 then (ret, s, closesocket w5 fd)
       else (fd, set_session_id id s, w5)).
Proof.
  intros Hb. unfold connectSocket, ff_socket. rewrite Hb.
  destruct (Z.of_nat (next_fd w) <? 0) eqn:E; [absurd_test|].
  unfold ff_listen_connect. cbn [backlog log set_next_fd]. rewrite Hb.
  cbn [Z.ltb Z.compare]. cbv zeta.
  destruct (session_id s >? 0); [reflexivity|].
  unfold new_session_line. destruct (negb (reading_mode s =? 0)); reflexivity.
Qed.

(** [connectSocket] when the connection cannot be had: the descriptor, if
    one was made, is closed again. *)
Lemma connectSocket_no_peer w s :
  (forall sk rest, backlog w <> Peer sk :: rest) ->
  exists w',
    connectSocket w s = (fst (fst (connectSocket w s)), s, w') /\
    fst (fst (connectSocket w s)) < 0 /\
    (socks w' = socks w \/ socks w' = delete (Z.of_nat (next_fd w)) (socks w)) /\
    (next_fd w <= next_fd w' <= S (next_fd w))%nat /\
    session_id_inc w' = session_id_inc w.
Proof.
  intros Hb. unfold connectSocket, ff_socket, ff_neterrno.
  assert (Hneg : forall e, (AVERROR (Z.pos e) <? 0) = true) by reflexivity.
  assert (Hneg' : forall e, AVERROR (Z.pos e) < 0) by (intros e; reflexivity).
  destruct (backlog w) as [|[e|e|sk] rest] eqn:Eb.
  - destruct (Z.of_nat (next_fd w) <? 0) eqn:E; [absurd_test|].
    unfold ff_listen_connect. cbn [backlog log set_next_fd]. rewrite Eb.
    cbv zeta. change (AVERROR ECONNREFUSED <? 0) with true. cbv iota.
    eexists. split; [reflexivity|]. cbn [fst].
    split; [reflexivity|]. split; [right; reflexivity|]. split; [cbn; lia|reflexivity].
  - cbn [Z.ltb Z.compare]. eexists. split; [reflexivity|]. cbn [fst errno log set_errno].
    split; [apply Hneg'|]. split; [left; reflexivity|]. split; [cbn; lia|reflexivity].
  - destruct (Z.of_nat (next_fd w) <? 0) eqn:E; [absurd_test|].
    unfold ff_listen_connect. cbn [backlog log set_next_fd]. rewrite Eb.
    cbv zeta. rewrite Hneg.
    eexists. split; [reflexivity|]. cbn [fst].
    split; [apply Hneg'|]. split; [right; reflexivity|]. split; [cbn; lia|reflexivity].
  - exfalso. eapply Hb. reflexivity.
Qed.

(** Settles an arithmetic goal from the tests on integers among the
    hypotheses. *)
Ltac test_lia :=
  repeat match goal with
    | H : (_ <? _) = true |- _ => apply Z.ltb_lt in H
    | H : (_ <? _) = false |- _ => apply Z.ltb_ge in H
    | H : (_ >? _) = true |- _ => apply Z.gtb_lt in H
    | H : (_ >? _) = false |- _ => rewrite Z.gtb_ltb in H
    | H : (_ >=? _) = true |- _ => apply Z.geb_le in H
    | H : (_ >=? _) = false |- _ => rewrite Z.geb_leb in H
    | H : (_ <=? _) = true |- _ => apply Z.leb_le in H
    | H : (_ <=? _) = false |- _ => apply Z.leb_gt in H
    | H : (_ =? _) = true |- _ => apply Z.eqb_eq in H
    | H : (_ =? _) = false |- _ => apply Z.eqb_neq in H
    end;
  lia.

(** [write_str] returns 0 or a negative code, never a count. *)
Lemma write_str_loop_sign fuel : forall w fd buf len write,
  fst (write_str_loop fuel w fd buf len write) = 0 \/
  fst (write_str_loop fuel w fd buf len write) < 0.
Proof.
  induction fuel as [|fuel IH]; intros w fd buf len write; simpl.
  - destruct (write <? len); auto.
  - destruct (write <? len); [|auto].
    pose proof (send_failed_errno w fd
                  (take (Z.to_nat (len - write)) (drop (Z.to_nat write) buf))) as He.
    destruct (send w fd _) as [ret w1]. cbn [fst snd] in He.
    destruct (ret =? 0); [right; reflexivity|].
    destruct (ret <? 0) eqn:E; [|apply IH].
    right. cbn [fst]. unfold AVERROR. apply Z.ltb_lt in E. specialize (He E). lia.
Qed.

Lemma write_str_sign w fd buf len :
  fst (write_str w fd buf len) = 0 \/ fst (write_str w fd buf len) < 0.
Proof. apply write_str_loop_sign. Qed.

(** All that a call of [connectSocket] can come to.  Either it fails and
    leaves the context as it was, with the new descriptor, if one was
    made, closed again; or it returns the new descriptor, connected to
    the peer at the head of the backlog, with the command line in the
    peer's hands. *)
Lemma connectSocket_cases w s :
  exists ret s' w',
    connectSocket w s = (ret, s', w') /\
    (forall fd', fd' <> Z.of_nat (next_fd w) -> socks w' !! fd' = socks w !! fd') /\
    (next_fd w <= next_fd w' <= S (next_fd w))%nat /\
    ((ret < 0 /\ s' = s /\ socks w' !! Z.of_nat (next_fd w) = None
        \/ ret < 0 /\ s' = s /\ socks w' = socks w)
     \/
     (ret = Z.of_nat (next_fd w) /\ next_fd w' = S (next_fd w) /\
      exists sk rest line,
        backlog w = Peer sk :: rest /\ backlog w' = rest /\
        is_Some (socks w' !! ret) /\
        inbox_of w' ret = inbox sk /\
        outbox_of w' ret = outbox sk ++ list_ascii_of_string line /\
        hello_line_sent w s s' w' line)).
Proof.
  destruct (backlog w) as [|[e|e|sk] rest] eqn:Eb.
  1-3: (destruct (connectSocket_no_peer w s) as (w' & Heq & Hneg & Hs & Hn & _);
        [intros sk0 rest0; rewrite Eb; discriminate|];
        exists (fst (fst (connectSocket w s))), s, w';
        split; [exact Heq|]; split;
        [intros fd' Hfd; destruct Hs as [-> | ->];
           [reflexivity|apply lookup_delete_ne; auto]|];
        split; [exact Hn|]; left;
        destruct Hs as [Hs|Hs]; [right; auto|left];
        split; [exact Hneg|]; split; [reflexivity|];
        rewrite Hs; apply lookup_delete_eq).
  rewrite (connectSocket_peer w s sk rest Eb). cbv zeta.
  set (fd := Z.of_nat (next_fd w)).
  set (w3 := connected w s sk rest).
  assert (Hsk3 : socks w3 !! fd = Some sk) by apply connected_lookup.
  assert (Ho3 : forall fd', fd' <> fd -> socks w3 !! fd' = socks w !! fd')
    by (intros fd' Hfd; apply lookup_insert_ne; auto).
  destruct (session_id s >? 0) eqn:Eid.
  - set (line := run_session_line (session_id s)).
    pose proof (write_str_io_on w3 fd (char_array 50 line) (strlen (char_array 50 line))) as Hio.
    pose proof (write_str_same_fds w3 fd (char_array 50 line) (strlen (char_array 50 line))) as Hfds.
    pose proof (write_str_sign w3 fd (char_array 50 line) (strlen (char_array 50 line))) as Hsg.
    pose proof (write_str_line_outbox w3 fd sk line Hsk3 (run_session_line_plain _)) as Hout.
    destruct (write_str w3 fd _ _) as [ret w4]. cbn [fst snd] in *.
    destruct (ret <? 0) eqn:E.
    + exists ret, s, (closesocket w4 fd). split; [reflexivity|].
      split; [intros fd' Hfd; unfold closesocket; cbn [socks log set_socks];
              rewrite lookup_delete_ne by auto; rewrite (io_socks _ _ _ Hio) by auto;
              apply Ho3, Hfd|].
      split; [cbn; rewrite (io_next_fd _ _ _ Hio); cbn; lia|].
      left. left. split; [test_lia|]. split; [reflexivity|apply lookup_delete_eq].
    + destruct Hsg as [-> | Hlt]; [|absurd_test].
      exists fd, s, w4. split; [reflexivity|].
      split; [intros fd' Hfd; rewrite (io_socks _ _ _ Hio) by auto; apply Ho3, Hfd|].
      split; [rewrite (io_next_fd _ _ _ Hio); cbn; lia|].
      right. split; [reflexivity|]. split; [rewrite (io_next_fd _ _ _ Hio); reflexivity|].
      destruct (Hout eq_refl) as [Hob Hib].
      exists sk, rest, line. split; [reflexivity|].
      split; [rewrite (io_backlog _ _ _ Hio); reflexivity|].
      split; [apply Hfds; rewrite Hsk3; eauto|].
      split; [exact Hib|]. split; [exact Hob|].
      left. split; [test_lia|]. split; [reflexivity|].
      split; [rewrite (io_counter _ _ _ Hio); reflexivity|reflexivity].
  - set (id := wrap32 (session_id_inc w + 1)).
    set (w4 := set_session_id_inc id w3).
    set (line := new_session_line (reading_mode s) id).
    assert (Hsk4 : socks w4 !! fd = Some sk) by exact Hsk3.
    pose proof (write_str_io_on w4 fd (char_array 50 line) (strlen (char_array 50 line))) as Hio.
    pose proof (write_str_same_fds w4 fd (char_array 50 line) (strlen (char_array 50 line))) as Hfds.
    pose proof (write_str_sign w4 fd (char_array 50 line) (strlen (char_array 50 line))) as Hsg.
    pose proof (write_str_line_outbox w4 fd sk line Hsk4 (new_session_line_plain _ _)) as Hout.
    destruct (write_str w4 fd _ _) as [ret w5]. cbn [fst snd] in *.
    destruct (ret <? 0) eqn:E.
    + exists ret, s, (closesocket w5 fd). split; [reflexivity|].
      split; [intros fd' Hfd; unfold closesocket; cbn [socks log set_socks];
              rewrite lookup_delete_ne by auto; rewrite (io_socks _ _ _ Hio) by auto;
              apply Ho3, Hfd|].
      split; [cbn; rewrite (io_next_fd _ _ _ Hio); cbn; lia|].
      left. left. split; [test_lia|]. split; [reflexivity|apply lookup_delete_eq].
    + destruct Hsg as [-> | Hlt]; [|absurd_test].
      exists fd, (set_session_id id s), w5. split; [reflexivity|].
      split; [intros fd' Hfd; rewrite (io_socks _ _ _ Hio) by auto; apply Ho3, Hfd|].
      split; [rewrite (io_next_fd _ _ _ Hio); cbn; lia|].
      right. split; [reflexivity|]. split; [rewrite (io_next_fd _ _ _ Hio); reflexivity|].
      destruct (Hout eq_refl) as [Hob Hib].
      exists sk, rest, line. split; [reflexivity|].
      split; [rewrite (io_backlog _ _ _ Hio); reflexivity|].
      split; [apply Hfds; rewrite Hsk4; eauto|].
      split; [exact Hib|]. split; [exact Hob|].
      right. split; [test_lia|]. split; [reflexivity|].
      split; [rewrite (io_counter _ _ _ Hio); reflexivity|reflexivity].
Qed.

Lemma fds_below_fresh_world conns : fds_below (fresh_world conns).
Proof. intros fd [sk Hsk]. cbn in Hsk. rewrite lookup_empty in Hsk. discriminate. Qed.

Lemma fds_below_world_with ctrl conns : fds_below (world_with ctrl conns).
Proof.
  intros fd [sk Hsk]. unfold world_with in Hsk. cbn [socks] in Hsk.
  destruct (decide (fd = 3)) as [->|Hne]; [cbn; lia|].
  rewrite lookup_singleton_ne in Hsk by auto. discriminate.
Qed.

(** X6.  A failed [connectSocket] leaves no descriptor behind: when the
    descriptors in use are those handed out so far, a negative result
    comes with the context and the set of open connections exactly as
    they were before the call. *)
Theorem connectSocket_failure_leaves_no_descriptor w s :
  fds_below w ->
  fst (fst (connectSocket w s)) < 0 ->
  snd (fst (connectSocket w s)) = s /\
  socks (snd (connectSocket w s)) = socks w.
Proof.
  intros Hb Hneg.
  destruct (connectSocket_cases w s) as (ret & s' & w' & Heq & Hoth & _ & Hcase).
  rewrite Heq in *. cbn [fst snd] in *.
  destruct Hcase as [[(_ & -> & Hnone) | (_ & -> & Hsame)] | (Hret & _)].
  - split; [reflexivity|]. apply map_eq. intros fd.
    destruct (decide (fd = Z.of_nat (next_fd w))) as [->|Hne]; [|apply Hoth, Hne].
    rewrite Hnone. symmetry. apply eq_None_not_Some. intros Hs.
    specialize (Hb _ Hs). lia.
  - auto.
  - lia.
Qed.

Lemma connectSocket_failure_leaves_no_descriptor_witness :
  snd (fst (connectSocket (world_with (peer []) [Peer (mkSock [] [SErr 32] [])])
              (opened 1))) = opened 1 /\
  socks (snd (connectSocket (world_with (peer []) [Peer (mkSock [] [SErr 32] [])])
                (opened 1)))
  = socks (world_with (peer []) [Peer (mkSock [] [SErr 32] [])]).
Proof.
  apply (connectSocket_failure_leaves_no_descriptor
           (world_with (peer []) [Peer (mkSock [] [SErr 32] [])]) (opened 1)).
  - apply fds_below_world_with.
  - vm_compute. reflexivity.
Defined.

(** X7.  A [connectSocket] that does not fail returns the descriptor
    [ff_socket] made, which is the next free one, connected to the peer
    that was first in line; that peer has received the one command line,
    [run_session <id>] for a stream that has its session id and
    [new_session read|write <id>] with the id now stored for one that has
    not, and nothing has been read from it.  Every other connection is as
    it was. *)
Theorem connectSocket_success_hands_over_the_line w s :
  0 <= fst (fst (connectSocket w s)) ->
  let '(ret, s', w') := connectSocket w s in
  ret = Z.of_nat (next_fd w) /\
  next_fd w' = S (next_fd w) /\
  (forall fd', fd' <> ret -> socks w' !! fd' = socks w !! fd') /\
  exists sk rest,
    backlog w = Peer sk :: rest /\ backlog w' = rest /\
    inbox_of w' ret = inbox sk /\
    outbox_of w' ret
    = outbox sk ++
      list_ascii_of_string
        (if session_id s >? 0 then run_session_line (session_id s)
         else new_session_line (reading_mode s) (session_id s')).
Proof.
  intros Hret.
  destruct (connectSocket_cases w s) as (ret & s' & w' & Heq & Hoth & _ & Hcase).
  rewrite Heq in *. cbn [fst] in Hret.
  destruct Hcase as [[(Hneg & _) | (Hneg & _)] | (Hfd & Hnext & sk & rest & line & Hb & Hb' & _ & Hin & Hout & Hline)];
    [lia|lia|].
  split; [exact Hfd|]. split; [exact Hnext|].
  split; [intros fd' Hne; apply Hoth; congruence|].
  exists sk, rest. split; [exact Hb|]. split; [exact Hb'|]. split; [exact Hin|].
  rewrite Hout. f_equal. f_equal.
  destruct Hline as [(Hid & _ & _ & ->) | (Hid & -> & _ & ->)].
  - destruct (session_id s >? 0) eqn:E; [reflexivity|test_lia].
  - destruct (session_id s >? 0) eqn:E; [test_lia|reflexivity].
Qed.

Lemma connectSocket_success_hands_over_the_line_witness :
  outbox_of (snd (connectSocket (world_with (peer []) [Peer (peer [])]) (opened 0))) 4
  = list_ascii_of_string (run_session_line 1).
Proof.
  pose proof (connectSocket_success_hands_over_the_line
                (world_with (peer []) [Peer (peer [])]) (opened 0)) as H.
  assert (H0 : 0 <= fst (fst (connectSocket (world_with (peer []) [Peer (peer [])])
                                 (opened 0))))
    by (vm_compute; discriminate).
  specialize (H H0).
  destruct (connectSocket _ _) as [[ret s'] w'].
  destruct H as (Hret & _ & _ & sk & rest & Hb & _ & _ & Hout).
  cbn [snd]. rewrite Hret in Hout. injection Hb as <- _. exact Hout.
Defined.

(** With a session id in the context [connectSocket] changes nothing in
    the context and leaves the session counter alone, whether the
    connection is made or not. *)
Lemma connectSocket_keeps_a_session w s :
  session_id s > 0 ->
  snd (fst (connectSocket w s)) = s /\
  session_id_inc (snd (connectSocket w s)) = session_id_inc w.
Proof.
  intros Hid. unfold connectSocket.
  assert (Hsock : session_id_inc (snd (ff_socket w)) = session_id_inc w)
    by (unfold ff_socket; destruct (backlog w) as [|[e|e|sk] rest]; reflexivity).
  destruct (ff_socket w) as [fd w1]. cbn [snd] in Hsock.
  destruct (fd <? 0); [split; [reflexivity|exact Hsock]|].
  assert (Hcon : session_id_inc
                   (snd (ff_listen_connect w1 fd (addr s) (addr_len s) (timeout s)))
                 = session_id_inc w1)
    by (unfold ff_listen_connect; destruct (backlog w1) as [|[e|e|sk] rest]; reflexivity).
  destruct (ff_listen_connect w1 fd _ _ _) as [ret w2]. cbn [snd] in Hcon.
  destruct (ret <? 0); [split; [reflexivity|cbn; congruence]|].
  destruct (session_id s >? 0) eqn:E; [|test_lia].
  cbv zeta.
  pose proof (write_str_io_on (ff_socket_nonblock w2 fd) fd
                (char_array 50 ("run_session " ++ dec (session_id s) ++ String LF ""))
                (strlen (char_array 50 ("run_session " ++ dec (session_id s) ++ String LF ""))))
    as Hio.
  destruct (write_str _ _ _ _) as [r w4]. cbn [snd] in Hio.
  pose proof (io_counter _ _ _ Hio) as Hc. cbn in Hc.
  destruct (r <? 0); (split; [reflexivity|cbn; congruence]).
Qed.

(** ** [unix_y_open] *)

(** [unix_y_open] is [connectSocket] on a context prepared from the
    arguments, followed by three stores when it succeeds. *)
Lemma unix_y_open_unfold w s filename flags :
  exists s0,
    unix_y_open w s filename flags
    = (let '(fd, s1, w1) := connectSocket w s0 in
       if fd <? 0 then (fd, s1, w1)
       else (0, mkCtx (addr s1) (addr_len s1) (timeout s1) fd (-1)
                      (reading_mode s1) (session_id s1) 0, w1)) /\
    reading_mode s0 = Z.land flags AVIO_FLAG_READ /\
    session_id s0 = -1 /\
    control_fd s0 = control_fd s /\ cur_fd s0 = cur_fd s /\ pos s0 = pos s /\
    timeout s0 = (if timeout s <? 0 then 3000 else timeout s) /\
    (addr s0, addr_len s0)
    = (if Ascii.eqb (hd NUL (socket_name filename)) "0"%char
       then (<[0%nat := NUL]> (av_strlcpy (socket_name filename) SUN_PATH_SIZE),
             Z.of_nat (length (socket_name filename)) + SUN_PATH_OFFSET)
       else (av_strlcpy (socket_name filename) SUN_PATH_SIZE, SOCKADDR_UN_SIZE)).
Proof.
  unfold unix_y_open, socket_name. cbv zeta.
  destruct (Ascii.eqb (hd NUL _) "0"%char);
    (eexists; split; [reflexivity|]; cbn [reading_mode session_id control_fd cur_fd
       pos timeout addr addr_len]; repeat split; reflexivity).
Qed.

(** All that a call of [unix_y_open] can come to. *)
Lemma unix_y_open_cases w s filename flags :
  exists ret s' w',
    unix_y_open w s filename flags = (ret, s', w') /\
    reading_mode s' = Z.land flags AVIO_FLAG_READ /\
    timeout s' = (if timeout s <? 0 then 3000 else timeout s) /\
    (addr s', addr_len s')
    = (if Ascii.eqb (hd NUL (socket_name filename)) "0"%char
       then (<[0%nat := NUL]> (av_strlcpy (socket_name filename) SUN_PATH_SIZE),
             Z.of_nat (length (socket_name filename)) + SUN_PATH_OFFSET)
       else (av_strlcpy (socket_name filename) SUN_PATH_SIZE, SOCKADDR_UN_SIZE)) /\
    (forall fd', fd' <> Z.of_nat (next_fd w) -> socks w' !! fd' = socks w !! fd') /\
    (next_fd w <= next_fd w' <= S (next_fd w))%nat /\
    ((ret < 0 /\ session_id s' = -1 /\ control_fd s' = control_fd s /\
      cur_fd s' = cur_fd s /\ pos s' = pos s /\
      (socks w' !! Z.of_nat (next_fd w) = None \/ socks w' = socks w))
     \/
     (ret = 0 /\ control_fd s' = Z.of_nat (next_fd w) /\ cur_fd s' = -1 /\ pos s' = 0 /\
      session_id s' = wrap32 (session_id_inc w + 1) /\
      session_id_inc w' = wrap32 (session_id_inc w + 1) /\
      next_fd w' = S (next_fd w) /\
      exists sk rest,
        backlog w = Peer sk :: rest /\ backlog w' = rest /\
        is_Some (socks w' !! Z.of_nat (next_fd w)) /\
        inbox_of w' (Z.of_nat (next_fd w)) = inbox sk /\
        outbox_of w' (Z.of_nat (next_fd w))
        = outbox sk ++
          list_ascii_of_string
            (new_session_line (Z.land flags AVIO_FLAG_READ)
               (wrap32 (session_id_inc w + 1))))).
Proof.
  destruct (unix_y_open_unfold w s filename flags)
    as (s0 & Heq & Hmode & Hid & Hctl & Hcur & Hpos & Htmo & Haddr).
  rewrite Heq. clear Heq.
  destruct (connectSocket_cases w s0) as (fd & s1 & w1 & Hc & Hoth & Hn & Hcase).
  rewrite Hc. clear Hc.
  destruct Hcase as [Hfail | (Hfd & Hnext & sk & rest & line & Hb & Hb' & Hopen & Hin & Hout & Hline)].
  - assert (Hneg : fd < 0) by (destruct Hfail as [(H & _) | (H & _)]; exact H).
    assert (Hs1 : s1 = s0) by (destruct Hfail as [(_ & H & _) | (_ & H & _)]; exact H).
    subst s1. destruct (fd <? 0) eqn:E; [|test_lia].
    exists fd, s0, w1. split; [reflexivity|].
    split; [exact Hmode|]. split; [exact Htmo|]. split; [exact Haddr|].
    split; [exact Hoth|]. split; [exact Hn|].
    left. repeat split; auto.
    destruct Hfail as [(_ & _ & H) | (_ & _ & H)]; auto.
  - destruct (fd <? 0) eqn:E; [test_lia|].
    destruct Hline as [(Hpos' & _) | (_ & Hs1 & Hcnt & Hline)]; [lia|].
    subst s1 line fd.
    eexists 0, _, w1. split; [reflexivity|].
    cbn [reading_mode timeout addr addr_len control_fd cur_fd pos session_id
         set_session_id].
    split; [exact Hmode|]. split; [exact Htmo|]. split; [exact Haddr|].
    split; [exact Hoth|]. split; [exact Hn|].
    right. repeat split; auto.
    exists sk, rest. rewrite <- Hmode. auto 10.
Qed.

(** X1.  A successful [unix_y_open] returns 0 with the control connection on
    the descriptor just made, which [unix_y_get_file_handle] reports, no
    data connection, position 0, the direction taken from bit 0 of
    [flags] and the session id the counter was advanced to.  The peer has
    received [new_session read <id>] or [new_session write <id>], with
    that id, and nothing else; no byte has been read from it and every
    other connection is as it was. *)
Theorem unix_y_open_success w s filename flags :
  0 <= fst (fst (unix_y_open w s filename flags)) ->
  let '(ret, s', w') := unix_y_open w s filename flags in
  ret = 0 /\
  unix_y_get_file_handle s' = Z.of_nat (next_fd w) /\
  cur_fd s' = -1 /\ pos s' = 0 /\
  reading_mode s' = Z.land flags AVIO_FLAG_READ /\
  session_id s' = wrap32 (session_id_inc w + 1) /\
  session_id_inc w' = session_id s' /\
  (forall fd', fd' <> control_fd s' -> socks w' !! fd' = socks w !! fd') /\
  exists sk rest,
    backlog w = Peer sk :: rest /\ backlog w' = rest /\
    inbox_of w' (control_fd s') = inbox sk /\
    outbox_of w' (control_fd s')
    = outbox sk ++
      list_ascii_of_string
        (new_session_line (Z.land flags AVIO_FLAG_READ) (session_id s')).
Proof.
  intros Hret.
  destruct (unix_y_open_cases w s filename flags)
    as (ret & s' & w' & Heq & Hmode & _ & _ & Hoth & _ & Hcase).
  rewrite Heq in *. cbn [fst] in Hret.
  destruct Hcase as [(Hneg & _) | (H0 & Hctl & Hcur & Hpos & Hid & Hcnt & _ & sk & rest & Hb & Hb' & _ & Hin & Hout)];
    [lia|].
  unfold unix_y_get_file_handle. rewrite Hctl, Hid.
  repeat (split; [assumption || reflexivity|]).
  exists sk, rest. auto.
Qed.

Lemma unix_y_open_success_witness :
  let '(ret, s', w') :=
    unix_y_open (fresh_world [Peer (peer [])]) (unopened 0) "unix-y:/tmp/y.sock" 2 in
  ret = 0 /\ unix_y_get_file_handle s' = 3 /\ session_id s' = 1 /\
  outbox_of w' 3 = list_ascii_of_string (new_session_line 0 1).
Proof.
  pose proof (unix_y_open_success (fresh_world [Peer (peer [])]) (unopened 0)
                "unix-y:/tmp/y.sock" 2) as H.
  assert (H0 : 0 <= fst (fst (unix_y_open (fresh_world [Peer (peer [])]) (unopened 0)
                                 "unix-y:/tmp/y.sock" 2)))
    by (vm_compute; discriminate).
  specialize (H H0).
  destruct (unix_y_open _ _ _ _) as [[ret s'] w'].
  destruct H as (Hret & Hfd & _ & _ & _ & Hid & _ & _ & sk & rest & Hb & _ & _ & Hout).
  injection Hb as <- _.
  unfold unix_y_get_file_handle in Hfd. rewrite Hfd, Hid in Hout.
  repeat split; assumption.
Defined.

(** X2.  [unix_y_open] never returns a positive value, and when it fails it
    has set no descriptor in the context and left none open: with the
    descriptors in use being those handed out so far, the set of open
    connections is what it was before the call.  The session id is left
    at [-1]. *)
Theorem unix_y_open_failure w s filename flags :
  fds_below w ->
  fst (fst (unix_y_open w s filename flags)) <> 0 ->
  let '(ret, s', w') := unix_y_open w s filename flags in
  ret < 0 /\
  control_fd s' = control_fd s /\ cur_fd s' = cur_fd s /\ pos s' = pos s /\
  session_id s' = -1 /\
  socks w' = socks w.
Proof.
  intros Hb Hret.
  destruct (unix_y_open_cases w s filename flags)
    as (ret & s' & w' & Heq & _ & _ & _ & Hoth & _ & Hcase).
  rewrite Heq in *. cbn [fst] in Hret.
  destruct Hcase as [(Hneg & Hid & Hctl & Hcur & Hpos & Hs) | (H0 & _)]; [|lia].
  repeat (split; [assumption|]).
  destruct Hs as [Hnone | Hs]; [|exact Hs].
  apply map_eq. intros fd.
  destruct (decide (fd = Z.of_nat (next_fd w))) as [->|Hne]; [|apply Hoth, Hne].
  rewrite Hnone. symmetry. apply eq_None_not_Some. intros Hs.
  specialize (Hb _ Hs). lia.
Qed.

Lemma unix_y_open_failure_witness :
  let '(ret, s', w') :=
    unix_y_open (fresh_world [Refuse 111]) (unopened 1) "unix-y:/tmp/y.sock" 1 in
  ret < 0 /\
  control_fd s' = control_fd (unopened 1) /\ cur_fd s' = cur_fd (unopened 1) /\
  pos s' = pos (unopened 1) /\ session_id s' = -1 /\
  socks w' = socks (fresh_world [Refuse 111]).
Proof.
  apply (unix_y_open_failure (fresh_world [Refuse 111]) (unopened 1)
           "unix-y:/tmp/y.sock" 1).
  - apply fds_below_fresh_world.
  - vm_compute. discriminate.
Defined.

(** X5.  Streams opened one after the other get session ids that follow one
    another: while the counter is short of [INT_MAX], the first
    successful open gets the counter plus one and the next one the
    counter plus two. *)
Theorem streams_opened_in_turn_get_successive_ids w sa fa la sb fb lb :
  0 <= session_id_inc w < 2 ^ 31 - 2 ->
  let '(ra, sa', w1) := unix_y_open w sa fa la in
  let '(rb, sb', w2) := unix_y_open w1 sb fb lb in
  ra = 0 -> rb = 0 ->
  session_id sa' = session_id_inc w + 1 /\
  session_id sb' = session_id_inc w + 2.
Proof.
  intros Hc.
  destruct (unix_y_open_cases w sa fa la)
    as (ra & sa' & w1 & Heq1 & _ & _ & _ & _ & _ & Hcase1).
  rewrite Heq1.
  destruct (unix_y_open_cases w1 sb fb lb)
    as (rb & sb' & w2 & Heq2 & _ & _ & _ & _ & _ & Hcase2).
  rewrite Heq2. intros Ha Hb.
  destruct Hcase1 as [(Hneg & _) | (_ & _ & _ & _ & Hid1 & Hcnt1 & _)]; [lia|].
  destruct Hcase2 as [(Hneg & _) | (_ & _ & _ & _ & Hid2 & _)]; [lia|].
  rewrite wrap32_exact in Hid1, Hcnt1 by lia.
  rewrite Hcnt1, wrap32_exact in Hid2 by lia.
  lia.
Qed.

Lemma streams_opened_in_turn_get_successive_ids_witness :
  let '(ra, sa', w1) :=
    unix_y_open (fresh_world [Peer (peer []); Peer (peer [])]) (unopened 0)
      "unix-y:/tmp/a.sock" 1 in
  let '(rb, sb', w2) := unix_y_open w1 (unopened 0) "unix-y:/tmp/b.sock" 2 in
  session_id sa' = 1 /\ session_id sb' = 2.
Proof.
  pose proof (streams_opened_in_turn_get_successive_ids
                (fresh_world [Peer (peer []); Peer (peer [])]) (unopened 0)
                "unix-y:/tmp/a.sock" 1 (unopened 0) "unix-y:/tmp/b.sock" 2) as H.
  assert (Hc : 0 <= session_id_inc (fresh_world [Peer (peer []); Peer (peer [])])
               < 2 ^ 31 - 2)
    by (vm_compute; split; [discriminate|reflexivity]).
  specialize (H Hc).
  assert (Ha : fst (fst (unix_y_open (fresh_world [Peer (peer []); Peer (peer [])])
                           (unopened 0) "unix-y:/tmp/a.sock" 1)) = 0)
    by (vm_compute; reflexivity).
  assert (Hb : fst (fst (unix_y_open
                           (snd (unix_y_open (fresh_world [Peer (peer []); Peer (peer [])])
                                   (unopened 0) "unix-y:/tmp/a.sock" 1))
                           (unopened 0) "unix-y:/tmp/b.sock" 2)) = 0)
    by (vm_compute; reflexivity).
  destruct (unix_y_open (fresh_world _) _ _ _) as [[ra sa'] w1].
  cbn [fst snd] in Ha, Hb.
  destruct (unix_y_open w1 _ _ _) as [[rb sb'] w2].
  cbn [fst] in Hb. exact (H Ha Hb).
Defined.

(** ** The socket address *)

Lemma strip_prefix_app pfx : forall str, strip_prefix pfx (pfx ++ str) = Some str.
Proof.
  induction pfx as [|p pfx IH]; intros str; simpl; [reflexivity|].
  rewrite Ascii.eqb_refl. apply IH.
Qed.

Lemma strip_prefix_Some pfx : forall str rest,
  strip_prefix pfx str = Some rest -> str = pfx ++ rest.
Proof.
  induction pfx as [|p pfx IH]; intros str rest H; simpl in *.
  - congruence.
  - destruct str as [|c str]; [discriminate|].
    destruct (Ascii.eqb p c) eqn:E; [|discriminate].
    apply Ascii.eqb_eq in E. subst c. f_equal. apply IH, H.
Qed.

Lemma av_strlcpy_length src size :
  (0 < size)%nat -> length (av_strlcpy src size) = size.
Proof.
  intros Hs. unfold av_strlcpy. cbv zeta.
  rewrite length_app, repeat_length, length_take. lia.
Qed.

(** [av_strlcpy] copies at most [size - 1] characters and fills the
    rest of the array, its last byte at least, with NUL. *)
Lemma av_strlcpy_nth src size i :
  (i < size)%nat ->
  nth i (av_strlcpy src size) NUL = if (i <? size - 1)%nat then nth i src NUL else NUL.
Proof.
  intros Hi. unfold av_strlcpy. cbv zeta.
  destruct (Nat.lt_ge_cases i (length (take (size - 1) src))) as [Hlt|Hge].
  - rewrite app_nth1 by exact Hlt. rewrite length_take in Hlt.
    rewrite nth_firstn.
    destruct (i <? size - 1)%nat eqn:E; [reflexivity|].
    apply Nat.ltb_ge in E. lia.
  - rewrite app_nth2 by exact Hge. rewrite nth_repeat.
    rewrite length_take in Hge.
    destruct (i <? size - 1)%nat eqn:E; [|reflexivity].
    apply Nat.ltb_lt in E. symmetry. apply nth_overflow. lia.
Qed.

(** X4.  The scheme in front of the socket name is optional: a name that does
    not itself begin with [unix-y:] is opened the same with and without
    it. *)
Theorem unix_y_open_scheme_is_optional w s (name : string) flags :
  (forall rest,
     list_ascii_of_string name <> list_ascii_of_string "unix-y:" ++ rest) ->
  unix_y_open w s ("unix-y:" ++ name) flags = unix_y_open w s name flags.
Proof.
  intros Hname.
  assert (Hl : av_strstart (list_ascii_of_string ("unix-y:" ++ name))
                 (list_ascii_of_string "unix-y:") = list_ascii_of_string name).
  { rewrite chars_app. unfold av_strstart. rewrite strip_prefix_app. reflexivity. }
  assert (Hr : av_strstart (list_ascii_of_string name)
                 (list_ascii_of_string "unix-y:") = list_ascii_of_string name).
  { unfold av_strstart.
    destruct (strip_prefix _ _) as [rest|] eqn:E; [|reflexivity].
    apply strip_prefix_Some in E. exfalso. exact (Hname rest E). }
  unfold unix_y_open. rewrite Hl, Hr. reflexivity.
Qed.

Lemma unix_y_open_scheme_is_optional_witness :
  unix_y_open (fresh_world [Peer (peer [])]) (unopened 1) ("unix-y:" ++ "/tmp/y.sock") 1
  = unix_y_open (fresh_world [Peer (peer [])]) (unopened 1) "/tmp/y.sock" 1.
Proof.
  apply (unix_y_open_scheme_is_optional (fresh_world [Peer (peer [])]) (unopened 1)
           "/tmp/y.sock" 1).
  intros rest. simpl. discriminate.
Defined.

(** X3.  The address [unix_y_open] connects to, whatever comes of the
    connection.  The path array keeps its 108 bytes and ends in a NUL:
    bytes 1 to 106 are those of the name, NUL past its end, and a longer
    name is cut.  A name that begins with the character [0] names an
    abstract socket: byte 0 of the path is NUL and the address length is
    the length of the whole name plus the offset of the path, with no cap
    at the size of the address structure.  Any other name keeps its first
    byte and gets the size of the structure as its address length.  A
    negative [timeout] option, as the default [-1] is, becomes 3000; any
    other value is kept. *)
Theorem unix_y_open_address w s filename flags :
  let name := socket_name filename in
  let s' := snd (fst (unix_y_open w s filename flags)) in
  timeout s' = (if timeout s <? 0 then 3000 else timeout s) /\
  length (addr s') = SUN_PATH_SIZE /\
  nth 107 (addr s') NUL = NUL /\
  (forall i, (0 < i < 107)%nat -> nth i (addr s') NUL = nth i name NUL) /\
  (hd NUL name = "0"%char ->
   nth 0 (addr s') NUL = NUL /\
   addr_len s' = Z.of_nat (length name) + SUN_PATH_OFFSET) /\
  (hd NUL name <> "0"%char ->
   nth 0 (addr s') NUL = hd NUL name /\ addr_len s' = SOCKADDR_UN_SIZE).
Proof.
  intros name s'.
  destruct (unix_y_open_cases w s filename flags)
    as (ret & s1 & w1 & Heq & _ & Htmo & Haddr & _).
  subst s'. rewrite Heq. cbn [fst snd]. fold name in Haddr.
  split; [exact Htmo|].
  assert (Hlen : length (av_strlcpy name SUN_PATH_SIZE) = SUN_PATH_SIZE)
    by (apply av_strlcpy_length; unfold SUN_PATH_SIZE; lia).
  assert (Hhd : nth 0 name NUL = hd NUL name) by (destruct name; reflexivity).
  destruct (Ascii.eqb (hd NUL name) "0"%char) eqn:E;
    injection Haddr as Ha Hl; rewrite Ha.
  - apply Ascii.eqb_eq in E.
    split; [rewrite length_insert; exact Hlen|].
    split; [|split; [|split]].
    + rewrite nth_lookup, list_lookup_insert_ne, <- nth_lookup by lia.
      rewrite av_strlcpy_nth by (unfold SUN_PATH_SIZE; lia). reflexivity.
    + intros i Hi.
      rewrite nth_lookup, list_lookup_insert_ne, <- nth_lookup by lia.
      rewrite av_strlcpy_nth by (unfold SUN_PATH_SIZE; lia).
      unfold SUN_PATH_SIZE.
      destruct (i <? 108 - 1)%nat eqn:Ei; [reflexivity|].
      apply Nat.ltb_ge in Ei. lia.
    + intros _. split; [|exact Hl].
      rewrite nth_lookup, list_lookup_insert_eq by (rewrite Hlen; unfold SUN_PATH_SIZE; lia).
      reflexivity.
    + intros Hne. contradiction.
  - apply Ascii.eqb_neq in E.
    split; [exact Hlen|].
    split; [|split; [|split]].
    + rewrite av_strlcpy_nth by (unfold SUN_PATH_SIZE; lia). reflexivity.
    + intros i Hi. rewrite av_strlcpy_nth by (unfold SUN_PATH_SIZE; lia).
      unfold SUN_PATH_SIZE.
      destruct (i <? 108 - 1)%nat eqn:Ei; [reflexivity|].
      apply Nat.ltb_ge in Ei. lia.
    + intros Heq0. contradiction.
    + intros _. split; [|exact Hl].
      rewrite av_strlcpy_nth by (unfold SUN_PATH_SIZE; lia). exact Hhd.
Qed.

(** ** Reading and writing on the data connection *)

(** What [recv] hands over is the run of bytes at the head of the inbox. *)
Lemma take_bytes_spec n : forall items,
  items = map RByte (take_bytes n items) ++ drop (length (take_bytes n items)) items /\
  (length (take_bytes n items) <= n)%nat.
Proof.
  induction n as [|n IH]; intros items.
  - split; [reflexivity|]. simpl. lia.
  - destruct items as [|[b|e] rest]; simpl; try (split; [reflexivity|lia]).
    destruct (IH rest) as [Heq Hlen]. split; [|lia].
    f_equal. exact Heq.
Qed.

Lemma recv_cases w fd n sk :
  socks w !! fd = Some sk ->
  let '(ret, data, w') := recv w fd n in
  (ret = -1 /\ data = [] /\ 0 < errno w' /\
   exists e rest, inbox sk = RErr e :: rest /\ inbox_of w' fd = rest)
  \/
  (ret = Z.of_nat (length data) /\ ret <= Z.max 0 n /\
   inbox sk = map RByte data ++ inbox_of w' fd /\ errno w' = errno w).
Proof.
  intros Hsk. unfold recv. rewrite Hsk.
  destruct (inbox sk) as [|[b|e] rest] eqn:Hin.
  - right. unfold inbox_of. cbn [socks log set_socks]. rewrite lookup_insert_eq.
    cbn [take_bytes inbox length drop map app]. destruct (Z.to_nat n); cbn; repeat split; lia.
  - right. unfold inbox_of. cbn [socks log set_socks]. rewrite lookup_insert_eq.
    cbn [inbox].
    destruct (take_bytes_spec (Z.to_nat n) (RByte b :: rest)) as [Heq Hlen].
    split; [reflexivity|]. split; [lia|]. split; [exact Heq|reflexivity].
  - left. unfold inbox_of. cbn [socks log set_socks set_errno errno].
    rewrite lookup_insert_eq. cbn [inbox].
    split; [reflexivity|]. split; [reflexivity|]. split; [lia|]. eauto.
Qed.

(** X8.  A read on a stream whose data connection is open is one [recv] on
    that connection and nothing else: the control connection is not used.
    It returns a negative code and leaves the context alone, or it
    returns the number of bytes it hands over, at least one and at most
    [size]; these are the bytes that were first in line on the data
    connection, they are taken off it, and the position advances by their
    number. *)
Theorem unix_y_read_on_open_connection w s size sk :
  reading_mode s <> 0 -> 0 <= cur_fd s -> socks w !! cur_fd s = Some sk ->
  0 <= size ->
  let '(ret, data, s', w') := unix_y_read w s size in
  (exists r, trace w' = trace w ++ [SysRecv (cur_fd s) size r]) /\
  (forall fd', fd' <> cur_fd s -> socks w' !! fd' = socks w !! fd') /\
  ((ret < 0 /\ data = [] /\ s' = s)
   \/
   (0 < ret <= size /\ ret = Z.of_nat (length data) /\
    inbox sk = map RByte data ++ inbox_of w' (cur_fd s) /\
    s' = set_pos (add64 (pos s) ret) s)).
Proof.
  intros Hmode Hfd Hsk Hsize. unfold unix_y_read.
  destruct (reading_mode s =? 0) eqn:Em; [absurd_test|].
  destruct (cur_fd s <? 0) eqn:Ec; [absurd_test|].
  unfold unix_y_read_recv.
  pose proof (recv_cases w (cur_fd s) size sk Hsk) as Hr.
  pose proof (recv_trace w (cur_fd s) size) as Ht.
  pose proof (recv_io_on w (cur_fd s) size) as Hio.
  destruct (recv w (cur_fd s) size) as [[ret data] w1]. cbn [fst snd] in Ht, Hio.
  assert (Htr : exists r, trace w1 = trace w ++ [SysRecv (cur_fd s) size r]) by eauto.
  destruct (ret =? 0) eqn:E0.
  - split; [exact Htr|]. split; [apply (io_socks _ _ _ Hio)|].
    left. split; [reflexivity|]. auto.
  - destruct (ret <? 0) eqn:E1.
    + destruct Hr as [(-> & -> & Herr & _) | (Hlen & _)]; [|test_lia].
      split; [exact Htr|]. split; [apply (io_socks _ _ _ Hio)|].
      left. split; [unfold ff_neterrno, AVERROR; lia|]. auto.
    + destruct Hr as [(-> & _) | (Hlen & Hmax & Hin & _)]; [discriminate|].
      split; [exact Htr|]. split; [apply (io_socks _ _ _ Hio)|].
      right. split; [test_lia|]. auto.
Qed.

Lemma unix_y_read_on_open_connection_witness :
  let '(ret, data, s', w') :=
    unix_y_read (world_streaming (peer []) (peer (bytes "abcdef"))) (streaming 1 10) 4 in
  ret = 4 /\ data = list_ascii_of_string "abcd" /\ pos s' = 14 /\
  inbox_of w' 4 = bytes "ef".
Proof.
  pose proof (unix_y_read_on_open_connection
                (world_streaming (peer []) (peer (bytes "abcdef"))) (streaming 1 10) 4
                (peer (bytes "abcdef"))) as H.
  assert (H1 : reading_mode (streaming 1 10) <> 0) by (vm_compute; discriminate).
  assert (H2 : 0 <= cur_fd (streaming 1 10)) by (vm_compute; discriminate).
  assert (H3 : 0 <= 4) by (vm_compute; discriminate).
  specialize (H H1 H2 eq_refl H3).
  assert (Hret : fst (fst (fst (unix_y_read
                   (world_streaming (peer []) (peer (bytes "abcdef")))
                   (streaming 1 10) 4))) = 4) by (vm_compute; reflexivity).
  assert (Hdata : snd (fst (fst (unix_y_read
                   (world_streaming (peer []) (peer (bytes "abcdef")))
                   (streaming 1 10) 4))) = list_ascii_of_string "abcd")
    by (vm_compute; reflexivity).
  destruct (unix_y_read _ _ _) as [[[ret data] s'] w']. cbn [fst snd] in Hret, Hdata.
  destruct H as (_ & _ & [(Hneg & _) | (_ & _ & Hin & Hs)]); [lia|].
  subst ret data. split; [reflexivity|]. split; [reflexivity|].
  split; [rewrite Hs; reflexivity|].
  change (inbox (peer (bytes "abcdef"))) with (bytes "abcd" ++ bytes "ef") in Hin.
  change (map RByte (list_ascii_of_string "abcd")) with (bytes "abcd") in Hin.
  apply app_inv_head in Hin. symmetry. exact Hin.
Defined.

(** X9.  A write on a stream whose data connection is open is one [send] of
    the first [size] bytes of the buffer on that connection and nothing
    else.  It returns a negative code with the context and the bytes the
    peer holds as they were, or it returns the number of bytes taken,
    from 0 to [size]: the peer holds that many more, the first of the
    buffer, and the position advances by that number.  A result of 0 is
    not an error here. *)
Theorem unix_y_write_on_open_connection w s buf size sk :
  reading_mode s = 0 -> 0 <= cur_fd s -> socks w !! cur_fd s = Some sk ->
  0 <= size <= Z.of_nat (length buf) ->
  let '(ret, s', w') := unix_y_write w s buf size in
  trace w' = trace w ++ [SysSend (cur_fd s) (take (Z.to_nat size) buf)
                           (if ret <? 0 then -1 else ret)] /\
  (forall fd', fd' <> cur_fd s -> socks w' !! fd' = socks w !! fd') /\
  inbox_of w' (cur_fd s) = inbox sk /\
  ((ret < 0 /\ s' = s /\ outbox_of w' (cur_fd s) = outbox sk)
   \/
   (0 <= ret <= size /\
    outbox_of w' (cur_fd s) = outbox sk ++ take (Z.to_nat ret) buf /\
    s' = set_pos (add64 (pos s) ret) s)).
Proof.
  intros Hmode Hfd Hsk Hsize. unfold unix_y_write.
  rewrite Hmode. cbn [Z.eqb negb].
  destruct (cur_fd s <? 0) eqn:Ec; [absurd_test|].
  unfold unix_y_write_send.
  pose proof (send_open w (cur_fd s) (take (Z.to_nat size) buf) sk Hsk)
    as (sk1 & Hsk1 & Hle & Hin & Hout).
  pose proof (send_trace w (cur_fd s) (take (Z.to_nat size) buf)) as Ht.
  pose proof (send_io_on w (cur_fd s) (take (Z.to_nat size) buf)) as Hio.
  pose proof (send_failed_errno w (cur_fd s) (take (Z.to_nat size) buf)) as Herr.
  assert (Hm1 : fst (send w (cur_fd s) (take (Z.to_nat size) buf)) < 0 ->
                fst (send w (cur_fd s) (take (Z.to_nat size) buf)) = -1).
  { unfold send. rewrite Hsk. destruct (outscript sk) as [|[k|e] rest]; cbn [fst]; lia. }
  destruct (send w (cur_fd s) _) as [ret w1]. cbn [fst snd] in *.
  rewrite length_take in Hle.
  destruct (ret <? 0) eqn:E; cbv beta iota zeta; unfold inbox_of, outbox_of;
    rewrite Hsk1.
  - apply Z.ltb_lt in E. rewrite (Hm1 E) in Ht, Hout.
    assert (Hneg : ff_neterrno w1 < 0)
      by (specialize (Herr E); unfold ff_neterrno, AVERROR; lia).
    apply Z.ltb_lt in Hneg. rewrite Hneg. apply Z.ltb_lt in Hneg.
    split; [exact Ht|]. split; [apply (io_socks _ _ _ Hio)|]. split; [exact Hin|].
    left. split; [exact Hneg|]. split; [reflexivity|].
    rewrite Hout. cbn. apply app_nil_r.
  - apply Z.ltb_ge in E. pose proof E as E'. apply Z.ltb_ge in E'. rewrite E'.
    split; [exact Ht|]. split; [apply (io_socks _ _ _ Hio)|]. split; [exact Hin|].
    right. split; [lia|]. split; [|reflexivity].
    rewrite Hout, take_take. f_equal. f_equal. lia.
Qed.

Lemma unix_y_write_on_open_connection_witness :
  let '(ret, s', w') :=
    unix_y_write (world_streaming (peer []) (mkSock [] [SAccept 2] []))
      (streaming 0 10) (list_ascii_of_string "abcdef") 4 in
  ret = 2 /\ pos s' = 12 /\ outbox_of w' 4 = list_ascii_of_string "ab".
Proof.
  pose proof (unix_y_write_on_open_connection
                (world_streaming (peer []) (mkSock [] [SAccept 2] []))
                (streaming 0 10) (list_ascii_of_string "abcdef") 4
                (mkSock [] [SAccept 2] [])) as H.
  assert (H2 : 0 <= cur_fd (streaming 0 10)) by (vm_compute; discriminate).
  assert (H4 : 0 <= 4 <= Z.of_nat (length (list_ascii_of_string "abcdef")))
    by (vm_compute; split; discriminate).
  specialize (H eq_refl H2 eq_refl H4).
  assert (Hret : fst (fst (unix_y_write
                   (world_streaming (peer []) (mkSock [] [SAccept 2] []))
                   (streaming 0 10) (list_ascii_of_string "abcdef") 4)) = 2)
    by (vm_compute; reflexivity).
  destruct (unix_y_write _ _ _ _) as [[ret s'] w']. cbn [fst] in Hret.
  destruct H as (_ & _ & _ & [(Hneg & _) | (_ & Hout & Hs)]); [lia|].
  subst ret. split; [reflexivity|]. split; [rewrite Hs; reflexivity|exact Hout].
Defined.

(** ** A negotiation that goes through *)

Lemma ok_reply_line rest :
  bytes "ok" ++ RByte LF :: rest
  = map RByte (list_ascii_of_string "ok") ++ RByte LF :: rest.
Proof. reflexivity. Qed.

(** The three steps both [unix_y_read] and [unix_y_write] take before
    their first transfer, with a server that takes the command, answers
    [ok] and accepts the data connection. *)
Lemma negotiation_steps w s ctl rest dk conns (line : string) :
  Forall (fun c => c <> NUL) (list_ascii_of_string line) ->
  (0 < length (list_ascii_of_string line))%nat ->
  session_id s > 0 ->
  socks w !! control_fd s = Some ctl -> outscript ctl = [] ->
  inbox ctl = bytes "ok" ++ RByte LF :: rest ->
  backlog w = Peer dk :: conns -> outscript dk = [] ->
  exists w1 w2 buf,
    write_str w (control_fd s) (char_array 50 line) (strlen (char_array 50 line))
      = (0, w1) /\
    read_str_until w1 (control_fd s) LF (char_array 50 line) 50 = (2, buf, w2) /\
    strcmp buf (lit "ok") = 0 /\
    connectSocket w2 s
      = (Z.of_nat (next_fd w), s, negotiated w s ctl rest dk conns line).
Proof.
  intros Hplain Hlen Hid Hctl Hscript Hin Hb Hdk.
  set (c := control_fd s).
  set (chars := list_ascii_of_string line).
  set (w1 := sent w c ctl chars).
  set (ctl1 := mkSock (inbox ctl) [] (outbox ctl ++ chars)).
  assert (Hctl1 : socks w1 !! c = Some ctl1) by apply sent_lookup.
  destruct (read_reply_line w1 c ctl1 (list_ascii_of_string "ok") rest
              (char_array 50 line) Hctl1) as (buf & Hread & Hbuf).
  { exact Hin. }
  { repeat constructor; discriminate. }
  { repeat constructor; discriminate. }
  { simpl. lia. }
  { apply char_array_length. }
  exists w1, (received w1 c ctl1 3 rest), buf.
  split; [apply write_str_line; assumption|].
  split; [exact Hread|].
  split; [apply strcmp_ok, Hbuf|].
  set (w2 := received w1 c ctl1 3 rest).
  assert (Hb2 : backlog w2 = Peer dk :: conns) by exact Hb.
  rewrite (connectSocket_peer w2 s dk conns Hb2). cbv zeta.
  destruct (session_id s >? 0) eqn:E; [|test_lia].
  change (next_fd w2) with (next_fd w).
  rewrite (write_str_line (connected w2 s dk conns) (Z.of_nat (next_fd w)) dk
             (run_session_line (session_id s))).
  - reflexivity.
  - apply (connected_lookup w2 s dk conns).
  - exact Hdk.
  - apply run_session_line_plain.
  - apply line_not_empty.
Qed.

(** What a negotiation that went through has left: the command with the
    server and its reply taken off the control connection, the data
    connection on the next descriptor with [run_session <id>] in the
    peer's hands, and nothing else touched. *)
Lemma negotiated_world w s ctl rest dk conns line :
  control_fd s <> Z.of_nat (next_fd w) ->
  socks (negotiated w s ctl rest dk conns line) !! control_fd s
    = Some (mkSock rest [] (outbox ctl ++ list_ascii_of_string line)) /\
  socks (negotiated w s ctl rest dk conns line) !! Z.of_nat (next_fd w)
    = Some (mkSock (inbox dk) []
              (outbox dk ++ list_ascii_of_string (run_session_line (session_id s)))) /\
  (forall fd', fd' <> control_fd s -> fd' <> Z.of_nat (next_fd w) ->
     socks (negotiated w s ctl rest dk conns line) !! fd' = socks w !! fd') /\
  backlog (negotiated w s ctl rest dk conns line) = conns /\
  next_fd (negotiated w s ctl rest dk conns line) = S (next_fd w) /\
  session_id_inc (negotiated w s ctl rest dk conns line) = session_id_inc w.
Proof.
  intros Hne. unfold negotiated, sent, connected, received, ff_socket_nonblock.
  cbn [socks log set_socks set_backlog set_next_fd backlog next_fd session_id_inc
       inbox outbox outscript].
  split; [rewrite !(lookup_insert_ne _ (Z.of_nat (next_fd w))) by auto;
          apply lookup_insert_eq|].
  split; [apply lookup_insert_eq|].
  split; [|auto].
  intros fd' H1 H2. rewrite !lookup_insert_ne by auto. reflexivity.
Qed.

Lemma recv_outbox w fd n sk :
  socks w !! fd = Some sk -> outbox_of (snd (recv w fd n)) fd = outbox sk.
Proof.
  intros Hsk. unfold recv, outbox_of. rewrite Hsk.
  destruct (inbox sk) as [|[b|e] rest]; cbn [snd socks log set_socks set_errno];
    rewrite lookup_insert_eq; reflexivity.
Qed.

(** X10.  The first read on a stream, with a server that plays its part: it
    takes the command, answers [ok] and accepts the data connection.
    The server has then received [read <pos>] on the control connection,
    whose reply is used up, and [run_session <id>] on the new connection,
    which becomes the stream's data connection.  The read itself then
    fails with the position unchanged, or hands over the first bytes the
    peer had queued on the data connection and advances the position by
    their number. *)
Theorem unix_y_read_negotiates w s size ctl rest dk conns :
  reading_mode s <> 0 -> cur_fd s < 0 -> session_id s > 0 ->
  socks w !! control_fd s = Some ctl -> outscript ctl = [] ->
  inbox ctl = bytes "ok" ++ RByte LF :: rest ->
  backlog w = Peer dk :: conns -> outscript dk = [] ->
  control_fd s <> Z.of_nat (next_fd w) ->
  0 <= size ->
  let '(ret, data, s', w') := unix_y_read w s size in
  cur_fd s' = Z.of_nat (next_fd w) /\
  outbox_of w' (control_fd s)
    = outbox ctl ++ list_ascii_of_string (read_line (pos s)) /\
  inbox_of w' (control_fd s) = rest /\
  outbox_of w' (cur_fd s')
    = outbox dk ++ list_ascii_of_string (run_session_line (session_id s)) /\
  ((ret < 0 /\ data = [] /\ pos s' = pos s)
   \/
   (0 < ret <= size /\ ret = Z.of_nat (length data) /\
    inbox dk = map RByte data ++ inbox_of w' (cur_fd s') /\
    pos s' = add64 (pos s) ret)).
Proof.
  intros Hmode Hcur Hid Hctl Hscript Hin Hb Hdk Hne Hsize.
  destruct (negotiation_steps w s ctl rest dk conns (read_line (pos s))
              (read_line_plain _) (line_not_empty _ _) Hid Hctl Hscript Hin Hb Hdk)
    as (w1 & w2 & buf & Hw & Hr & Hok & Hc).
  destruct (negotiated_world w s ctl rest dk conns (read_line (pos s)) Hne)
    as (Hn1 & Hn2 & _).
  unfold unix_y_read.
  destruct (reading_mode s =? 0) eqn:Em; [absurd_test|].
  destruct (cur_fd s <? 0) eqn:Ec; [|absurd_test].
  cbv zeta. fold (read_line (pos s)).
  rewrite Hw. cbn [Z.ltb Z.compare]. rewrite Hr. cbn [Z.ltb Z.compare].
  rewrite Hok. cbn [Z.eqb negb]. rewrite Hc.
  destruct (Z.of_nat (next_fd w) <? 0) eqn:E; [absurd_test|].
  set (fd := Z.of_nat (next_fd w)) in *.
  set (wn := negotiated w s ctl rest dk conns (read_line (pos s))) in *.
  unfold unix_y_read_recv. cbn [cur_fd set_cur_fd].
  pose proof (recv_cases wn fd size _ Hn2) as Hcases.
  pose proof (recv_io_on wn fd size) as Hio.
  pose proof (recv_outbox wn fd size _ Hn2) as Hout.
  destruct (recv wn fd size) as [[ret data] w3]. cbn [snd outbox inbox] in *.
  assert (Hctl3 : socks w3 !! control_fd s
                  = Some (mkSock rest [] (outbox ctl ++ list_ascii_of_string (read_line (pos s)))))
    by (rewrite (io_socks _ _ _ Hio) by exact Hne; exact Hn1).
  assert (Hobs : outbox_of w3 (control_fd s)
                 = outbox ctl ++ list_ascii_of_string (read_line (pos s)) /\
                 inbox_of w3 (control_fd s) = rest)
    by (unfold outbox_of, inbox_of; rewrite Hctl3; auto).
  destruct Hobs as [Ho Hi].
  destruct (ret =? 0) eqn:E0.
  - cbn [cur_fd set_cur_fd pos]. repeat (split; [assumption || reflexivity|]).
    left. repeat split; reflexivity.
  - destruct (ret <? 0) eqn:E1.
    + cbn [cur_fd set_cur_fd pos]. repeat (split; [assumption || reflexivity|]).
      left. destruct Hcases as [(Hr1 & _ & Herr & _) | (Hlen & _)]; [|test_lia].
      split; [unfold ff_neterrno, AVERROR; lia|]. auto.
    + cbn [cur_fd set_cur_fd set_pos pos]. repeat (split; [assumption || reflexivity|]).
      right. destruct Hcases as [(Hr1 & _) | (Hlen & Hmax & Hdata & _)]; [test_lia|].
      split; [test_lia|]. auto.
Qed.

Lemma unix_y_read_negotiates_witness :
  let '(ret, data, s', w') :=
    unix_y_read (world_with (peer (bytes ("ok" ++ String LF ""))) [Peer (peer (bytes "abc"))])
      (opened 1) 2 in
  cur_fd s' = 4 /\
  outbox_of w' 3 = list_ascii_of_string (read_line 0) /\
  outbox_of w' 4 = list_ascii_of_string (run_session_line 1) /\
  ret = 2 /\ data = list_ascii_of_string "ab".
Proof.
  pose proof (unix_y_read_negotiates
                (world_with (peer (bytes ("ok" ++ String LF ""))) [Peer (peer (bytes "abc"))])
                (opened 1) 2 (peer (bytes ("ok" ++ String LF ""))) [] (peer (bytes "abc")) [])
    as H.
  assert (H1 : reading_mode (opened 1) <> 0) by (vm_compute; discriminate).
  assert (H2 : cur_fd (opened 1) < 0) by reflexivity.
  assert (H3 : session_id (opened 1) > 0) by reflexivity.
  assert (H9 : control_fd (opened 1)
               <> Z.of_nat (next_fd (world_with (peer (bytes ("ok" ++ String LF "")))
                                       [Peer (peer (bytes "abc"))])))
    by (vm_compute; discriminate).
  assert (H10 : 0 <= 2) by (vm_compute; discriminate).
  specialize (H H1 H2 H3 eq_refl eq_refl eq_refl eq_refl eq_refl H9 H10).
  assert (Hret : fst (fst (fst (unix_y_read
                   (world_with (peer (bytes ("ok" ++ String LF ""))) [Peer (peer (bytes "abc"))])
                   (opened 1) 2))) = 2) by (vm_compute; reflexivity).
  assert (Hdata : snd (fst (fst (unix_y_read
                   (world_with (peer (bytes ("ok" ++ String LF ""))) [Peer (peer (bytes "abc"))])
                   (opened 1) 2))) = list_ascii_of_string "ab") by (vm_compute; reflexivity).
  destruct (unix_y_read _ _ _) as [[[ret data] s'] w']. cbn [fst snd] in Hret, Hdata.
  destruct H as (Hcur & Hctl & _ & Hdk & _).
  rewrite Hcur in Hdk.
  split; [exact Hcur|]. split; [exact Hctl|]. split; [exact Hdk|]. auto.
Defined.

(** X11.  The first write on a stream, with a server that plays its part and
    takes all it is sent: it has received [write <pos>] on the control
    connection, whose reply is used up, and on the new data connection
    [run_session <id>] followed by the first [size] bytes of the buffer;
    the call returns [size] and the position has advanced by it. *)
Theorem unix_y_write_negotiates w s buf size ctl rest dk conns :
  reading_mode s = 0 -> cur_fd s < 0 -> session_id s > 0 ->
  0 <= size <= Z.of_nat (length buf) ->
  socks w !! control_fd s = Some ctl -> outscript ctl = [] ->
  inbox ctl = bytes "ok" ++ RByte LF :: rest ->
  backlog w = Peer dk :: conns -> outscript dk = [] ->
  control_fd s <> Z.of_nat (next_fd w) ->
  let '(ret, s', w') := unix_y_write w s buf size in
  ret = size /\
  s' = set_pos (add64 (pos s) size) (set_cur_fd (Z.of_nat (next_fd w)) s) /\
  outbox_of w' (control_fd s)
    = outbox ctl ++ list_ascii_of_string (write_line (pos s)) /\
  inbox_of w' (control_fd s) = rest /\
  outbox_of w' (cur_fd s')
    = outbox dk ++ list_ascii_of_string (run_session_line (session_id s))
      ++ take (Z.to_nat size) buf.
Proof.
  intros Hmode Hcur Hid Hsize Hctl Hscript Hin Hb Hdk Hne.
  destruct (negotiation_steps w s ctl rest dk conns (write_line (pos s))
              (write_line_plain _) (line_not_empty _ _) Hid Hctl Hscript Hin Hb Hdk)
    as (w1 & w2 & buf' & Hw & Hr & Hok & Hc).
  destruct (negotiated_world w s ctl rest dk conns (write_line (pos s)) Hne)
    as (Hn1 & Hn2 & _).
  unfold unix_y_write. rewrite Hmode. cbn [Z.eqb negb].
  destruct (cur_fd s <? 0) eqn:Ec; [|absurd_test].
  cbv zeta. fold (write_line (pos s)).
  rewrite Hw. cbn [Z.ltb Z.compare]. rewrite Hr. cbn [Z.ltb Z.compare].
  rewrite Hok. cbn [Z.eqb negb]. rewrite Hc.
  destruct (Z.of_nat (next_fd w) <? 0) eqn:E; [absurd_test|].
  set (fd := Z.of_nat (next_fd w)) in *.
  set (wn := negotiated w s ctl rest dk conns (write_line (pos s))) in *.
  unfold unix_y_write_send. cbn [cur_fd set_cur_fd].
  rewrite (send_all wn fd _ (take (Z.to_nat size) buf) Hn2 eq_refl).
  assert (Hl : Z.of_nat (length (take (Z.to_nat size) buf)) = size)
    by (rewrite length_take; lia).
  rewrite Hl. destruct (size <? 0) eqn:Es; [absurd_test|].
  cbn [cur_fd set_cur_fd set_pos pos].
  split; [reflexivity|]. split; [reflexivity|].
  unfold outbox_of, inbox_of.
  rewrite sent_lookup, sent_other, Hn1 by exact Hne.
  cbn [outbox inbox]. rewrite <- app_assoc. auto.
Qed.

Lemma unix_y_write_negotiates_witness :
  let '(ret, s', w') :=
    unix_y_write (world_with (peer (bytes ("ok" ++ String LF ""))) [Peer (peer [])])
      (opened 0) (list_ascii_of_string "abcdef") 4 in
  ret = 4 /\ pos s' = 4 /\ cur_fd s' = 4 /\
  outbox_of w' 3 = list_ascii_of_string (write_line 0) /\
  outbox_of w' 4 = list_ascii_of_string (run_session_line 1 ++ "abcd").
Proof.
  pose proof (unix_y_write_negotiates
                (world_with (peer (bytes ("ok" ++ String LF ""))) [Peer (peer [])])
                (opened 0) (list_ascii_of_string "abcdef") 4
                (peer (bytes ("ok" ++ String LF ""))) [] (peer []) []) as H.
  assert (H2 : cur_fd (opened 0) < 0) by reflexivity.
  assert (H3 : session_id (opened 0) > 0) by reflexivity.
  assert (H4 : 0 <= 4 <= Z.of_nat (length (list_ascii_of_string "abcdef")))
    by (vm_compute; split; discriminate).
  assert (H9 : control_fd (opened 0)
               <> Z.of_nat (next_fd (world_with (peer (bytes ("ok" ++ String LF "")))
                                       [Peer (peer [])])))
    by (vm_compute; discriminate).
  specialize (H eq_refl H2 H3 H4 eq_refl eq_refl eq_refl eq_refl eq_refl H9).
  destruct (unix_y_write _ _ _ _) as [[ret s'] w'].
  destruct H as (Hret & Hs & Hctl & _ & Hdk).
  rewrite Hs in Hdk |- *.
  split; [exact Hret|]. split; [reflexivity|]. split; [reflexivity|].
  split; [exact Hctl|exact Hdk].
Defined.

(** ** The descriptors of a stream *)

(** Sends and receives on one of the two descriptors of a stream keep
    its descriptors as they are. *)
Lemma owns_io w0 w w' c d fd :
  owns w0 w c d -> io_on fd w w' -> same_fds w w' ->
  fd = c \/ fd = d ->
  owns w0 w' c d.
Proof.
  intros (H0 & Hb & Hn & Hc & Hco & Hd & Hoth) Hio Hfds Hfd.
  unfold owns. split; [exact H0|].
  split; [eapply fds_below_step; [exact Hb|exact Hfds|rewrite (io_next_fd _ _ _ Hio); lia]|].
  split; [rewrite (io_next_fd _ _ _ Hio); exact Hn|].
  split; [exact Hc|]. split; [apply Hfds, Hco|].
  split; [destruct Hd as [Hd|(Hd1 & Hd2 & Hd3)]; [left; exact Hd|right];
          split; [exact Hd1|]; split; [exact Hd2|apply Hfds, Hd3]|].
  intros fd' H1 H2. rewrite <- (Hoth fd' H1 H2).
  apply (io_socks _ _ _ Hio). destruct Hfd; congruence.
Qed.

(** Closing the data connection gives its descriptor back. *)
Lemma owns_close w0 w c d :
  owns w0 w c d -> 0 <= d -> owns w0 (closesocket w d) c (-1).
Proof.
  intros (H0 & Hb & Hn & Hc & Hco & Hd & Hoth) Hd0.
  destruct Hd as [Hd|(Hd1 & Hd2 & Hd3)]; [lia|].
  unfold owns, closesocket. cbn [socks next_fd log set_socks].
  split; [exact H0|].
  split; [intros fd Hfd; apply Hb; cbn [socks log set_socks] in Hfd;
          apply lookup_delete_is_Some in Hfd; tauto|].
  split; [exact Hn|]. split; [exact Hc|].
  split; [rewrite lookup_delete_ne by auto; exact Hco|].
  split; [left; lia|].
  intros fd H1 _. destruct (decide (fd = d)) as [->|Hne].
  - rewrite lookup_delete_eq. symmetry. apply eq_None_not_Some. intros Hs.
    specialize (H0 _ Hs). lia.
  - rewrite lookup_delete_ne by auto. apply Hoth; auto.
Qed.

(** [connectSocket] on a stream without a data connection: a failure
    leaves the stream's descriptors as they were, a success adds the new
    descriptor as the one of the data connection. *)
Lemma owns_connectSocket w0 w s d :
  owns w0 w (control_fd s) d -> d < 0 ->
  let '(ret, s', w') := connectSocket w s in
  control_fd s' = control_fd s /\ cur_fd s' = cur_fd s /\
  reading_mode s' = reading_mode s /\
  if ret <? 0 then owns w0 w' (control_fd s) d
  else owns w0 w' (control_fd s) ret.
Proof.
  intros (H0 & Hb & Hn & Hc & Hco & _ & Hoth) Hd.
  destruct (connectSocket_cases w s) as (ret & s' & w' & Heq & Ho & Hnext & Hcase).
  rewrite Heq.
  assert (Hfresh : socks w !! Z.of_nat (next_fd w) = None).
  { apply eq_None_not_Some. intros Hs. specialize (Hb _ Hs). lia. }
  assert (Hctl : control_fd s <> Z.of_nat (next_fd w)).
  { intros Heq'. rewrite Heq' in Hco. rewrite Hfresh in Hco. destruct Hco; discriminate. }
  assert (Hs' : control_fd s' = control_fd s /\ cur_fd s' = cur_fd s /\
                reading_mode s' = reading_mode s).
  { destruct Hcase as [[(_ & -> & _) | (_ & -> & _)] | (_ & _ & sk & rest & line & _ & _ & _ & _ & _ & Hl)];
      auto.
    destruct Hl as [(_ & -> & _) | (_ & -> & _)]; auto. }
  destruct Hs' as (Hs1 & Hs2 & Hs3).
  split; [exact Hs1|]. split; [exact Hs2|]. split; [exact Hs3|].
  destruct Hcase as [Hfail | (Hret & Hnx & sk & rest & line & _ & _ & Hopen & _)].
  - assert (Hneg : ret < 0) by (destruct Hfail as [(H & _) | (H & _)]; exact H).
    destruct (ret <? 0) eqn:E; [|test_lia].
    assert (Hsame : forall fd, socks w' !! fd = socks w !! fd).
    { intros fd. destruct (decide (fd = Z.of_nat (next_fd w))) as [->|Hne]; [|apply Ho, Hne].
      destruct Hfail as [(_ & _ & H) | (_ & _ & H)]; [congruence|rewrite H; reflexivity]. }
    unfold owns. split; [exact H0|].
    split; [intros fd Hfd; rewrite Hsame in Hfd; specialize (Hb _ Hfd); lia|].
    split; [lia|]. split; [exact Hc|]. split; [rewrite Hsame; exact Hco|].
    split; [left; exact Hd|].
    intros fd H1 H2. rewrite Hsame. apply Hoth; auto.
  - destruct (ret <? 0) eqn:E; [test_lia|]. subst ret.
    unfold owns. split; [exact H0|].
    split; [intros fd Hfd; destruct (decide (fd = Z.of_nat (next_fd w))) as [->|Hne];
            [lia|rewrite Ho in Hfd by exact Hne; specialize (Hb _ Hfd); lia]|].
    split; [lia|]. split; [exact Hc|].
    split; [rewrite Ho by exact Hctl; exact Hco|].
    split; [right; split; [lia|]; split; [auto|exact Hopen]|].
    intros fd H1 H2. rewrite Ho by exact H2.
    destruct (decide (fd = d)) as [->|Hne]; [|apply Hoth; assumption].
    transitivity (@None Sock); [|symmetry];
      apply eq_None_not_Some; intros Hs;
      [specialize (Hb _ Hs)|specialize (H0 _ Hs)]; lia.
Qed.

Lemma unix_y_seek_stat_same_fds w s whence :
  same_fds w (snd (unix_y_seek_stat w s whence)).
Proof.
  unfold unix_y_seek_stat.
  destruct ((whence =? AVSEEK_SIZE) || (whence =? SEEK_END)); [|apply same_fds_refl].
  cbv zeta.
  pose proof (write_str_same_fds w (control_fd s) (lit ("stat" ++ String LF ""))
                (strlen (lit ("stat" ++ String LF "")))) as H1.
  destruct (write_str w (control_fd s) _ _) as [ret w1]. cbn [snd] in H1.
  destruct (ret <? 0); [exact H1|].
  pose proof (read_str_until_same_fds w1 (control_fd s) LF (repeat NUL 50) 50) as H2.
  destruct (read_str_until w1 (control_fd s) LF (repeat NUL 50) 50) as [[ret2 buf] w2].
  cbn [snd] in H2.
  assert (H12 : same_fds w w2) by (eapply same_fds_trans; eassumption).
  destruct (ret2 <? 0); [exact H12|].
  pose proof (strtoll_socks w2 buf) as H3.
  destruct (strtoll w2 buf) as [stat w3]. cbn [snd] in H3.
  assert (H13 : same_fds w w3) by (intros fd; rewrite H3; apply H12).
  destruct (errno w3 =? EINVAL); exact H13.
Qed.

Lemma unix_y_read_recv_owns w0 w s size :
  stream_owns w0 w s ->
  let '(_, _, s', w') := unix_y_read_recv w s size in
  stream_owns w0 w' s' /\ control_fd s' = control_fd s /\
  reading_mode s' = reading_mode s.
Proof.
  intros H. unfold unix_y_read_recv.
  pose proof (owns_io w0 w _ _ _ (cur_fd s) H (recv_io_on w (cur_fd s) size)
                (recv_same_fds w (cur_fd s) size) (or_intror eq_refl)) as H1.
  destruct (recv w (cur_fd s) size) as [[ret data] w1]. cbn [snd] in H1.
  destruct (ret =? 0); [auto|]. destruct (ret <? 0); auto.
Qed.

Lemma unix_y_write_send_owns w0 w s buf size :
  stream_owns w0 w s ->
  let '(_, s', w') := unix_y_write_send w s buf size in
  stream_owns w0 w' s' /\ control_fd s' = control_fd s /\
  reading_mode s' = reading_mode s.
Proof.
  intros H. unfold unix_y_write_send.
  pose proof (owns_io w0 w _ _ _ (cur_fd s) H
                (send_io_on w (cur_fd s) (take (Z.to_nat size) buf))
                (send_same_fds w (cur_fd s) (take (Z.to_nat size) buf))
                (or_intror eq_refl)) as H1.
  destruct (send w (cur_fd s) _) as [ret w1]. cbn [snd] in H1.
  destruct (ret <? 0); auto.
Qed.

(** The exchange on the control connection and the new data connection
    that come before the first transfer. *)
Lemma negotiation_owns w0 w s (line : string) :
  stream_owns w0 w s -> cur_fd s < 0 ->
  let cmd_buf := char_array 50 line in
  let '(ret, w1) := write_str w (control_fd s) cmd_buf (strlen cmd_buf) in
  stream_owns w0 w1 s /\
  let '(ret, cmd_buf, w2) := read_str_until w1 (control_fd s) LF cmd_buf 50 in
  stream_owns w0 w2 s /\
  let '(ret, s1, w3) := connectSocket w2 s in
  control_fd s1 = control_fd s /\ reading_mode s1 = reading_mode s /\
  if ret <? 0 then stream_owns w0 w3 s1
  else stream_owns w0 w3 (set_cur_fd ret s1).
Proof.
  intros H Hcur. cbv zeta.
  pose proof (owns_io w0 w _ _ _ (control_fd s) H
                (write_str_io_on w (control_fd s) (char_array 50 line)
                   (strlen (char_array 50 line)))
                (write_str_same_fds w (control_fd s) (char_array 50 line)
                   (strlen (char_array 50 line)))
                (or_introl eq_refl)) as H1.
  destruct (write_str w (control_fd s) _ _) as [r1 w1]. cbn [snd] in H1.
  split; [exact H1|].
  pose proof (owns_io w0 w1 _ _ _ (control_fd s) H1
                (read_str_until_io_on w1 (control_fd s) LF (char_array 50 line) 50)
                (read_str_until_same_fds w1 (control_fd s) LF (char_array 50 line) 50)
                (or_introl eq_refl)) as H2.
  destruct (read_str_until w1 (control_fd s) LF _ 50) as [[r2 buf] w2]. cbn [snd] in H2.
  split; [exact H2|].
  pose proof (owns_connectSocket w0 w2 s (cur_fd s) H2 Hcur) as H3.
  destruct (connectSocket w2 s) as [[ret s1] w3].
  destruct H3 as (Hc & Hd & Hm & H3).
  split; [exact Hc|]. split; [exact Hm|].
  unfold stream_owns. destruct (ret <? 0); cbn [control_fd cur_fd set_cur_fd];
    rewrite Hc; [rewrite Hd|]; exact H3.
Qed.

Lemma unix_y_read_owns w0 w s size :
  stream_owns w0 w s ->
  let '(_, _, s', w') := unix_y_read w s size in
  stream_owns w0 w' s' /\ control_fd s' = control_fd s /\
  reading_mode s' = reading_mode s.
Proof.
  intros H. unfold unix_y_read.
  destruct (reading_mode s =? 0); [auto|].
  destruct (cur_fd s <? 0) eqn:Ec; [|apply unix_y_read_recv_owns, H].
  apply Z.ltb_lt in Ec.
  pose proof (negotiation_owns w0 w s ("read " ++ dec (pos s) ++ String LF "") H Ec) as Hn.
  cbv zeta in Hn |- *.
  destruct (write_str w (control_fd s) _ _) as [r1 w1]. destruct Hn as [H1 Hn].
  destruct (r1 <? 0); [auto|].
  destruct (read_str_until w1 (control_fd s) LF _ 50) as [[r2 buf] w2].
  destruct Hn as [H2 Hn].
  destruct (r2 <? 0); [auto|].
  destruct (negb (strcmp buf (lit "ok") =? 0)); [auto|].
  destruct (connectSocket w2 s) as [[ret s1] w3]. destruct Hn as (Hc & Hm & H3).
  destruct (ret <? 0); [auto|].
  pose proof (unix_y_read_recv_owns w0 w3 (set_cur_fd ret s1) size H3) as H4.
  destruct (unix_y_read_recv w3 (set_cur_fd ret s1) size) as [[[r d] s'] w'].
  destruct H4 as (H4 & Hc4 & Hm4). cbn [control_fd reading_mode set_cur_fd] in Hc4, Hm4.
  split; [exact H4|]. split; congruence.
Qed.

Lemma unix_y_write_owns w0 w s buf size :
  stream_owns w0 w s ->
  let '(_, s', w') := unix_y_write w s buf size in
  stream_owns w0 w' s' /\ control_fd s' = control_fd s /\
  reading_mode s' = reading_mode s.
Proof.
  intros H. unfold unix_y_write.
  destruct (negb (reading_mode s =? 0)); [auto|].
  destruct (cur_fd s <? 0) eqn:Ec; [|apply unix_y_write_send_owns, H].
  apply Z.ltb_lt in Ec.
  pose proof (negotiation_owns w0 w s ("write " ++ dec (pos s) ++ String LF "") H Ec) as Hn.
  cbv zeta in Hn |- *.
  destruct (write_str w (control_fd s) _ _) as [r1 w1]. destruct Hn as [H1 Hn].
  destruct (r1 <? 0); [auto|].
  destruct (read_str_until w1 (control_fd s) LF _ 50) as [[r2 cmd] w2].
  destruct Hn as [H2 Hn].
  destruct (r2 <? 0); [auto|].
  destruct (negb (strcmp cmd (lit "ok") =? 0)); [auto|].
  destruct (connectSocket w2 s) as [[ret s1] w3]. destruct Hn as (Hc & Hm & H3).
  destruct (ret <? 0); [auto|].
  pose proof (unix_y_write_send_owns w0 w3 (set_cur_fd ret s1) buf size H3) as H4.
  destruct (unix_y_write_send w3 (set_cur_fd ret s1) buf size) as [[r s'] w'].
  destruct H4 as (H4 & Hc4 & Hm4). cbn [control_fd reading_mode set_cur_fd] in Hc4, Hm4.
  split; [exact H4|]. split; congruence.
Qed.

Lemma unix_y_seek_owns w0 w s offset whence :
  stream_owns w0 w s ->
  let '(_, s', w') := unix_y_seek w s offset whence in
  stream_owns w0 w' s' /\ control_fd s' = control_fd s /\
  reading_mode s' = reading_mode s.
Proof.
  intros H. unfold unix_y_seek.
  pose proof (owns_io w0 w _ _ _ (control_fd s) H
                (unix_y_seek_stat_io_on w s whence)
                (unix_y_seek_stat_same_fds w s whence) (or_introl eq_refl)) as H1.
  destruct (unix_y_seek_stat w s whence) as [[r|stat] w1]; cbn [snd] in H1; [auto|].
  unfold unix_y_seek_move.
  destruct (whence =? AVSEEK_SIZE); [auto|].
  cbv zeta.
  destruct (if whence =? SEEK_SET then Some offset
            else if whence =? SEEK_CUR then Some (add64 (pos s) offset)
            else if whence =? SEEK_END then Some (add64 stat offset) else None)
    as [newPos|]; [|auto].
  destruct ((cur_fd s >=? 0) && negb (newPos =? pos s)) eqn:E; [|auto].
  apply andb_true_iff in E. destruct E as [E _]. apply Z.geb_le in E.
  split; [|auto].
  apply (owns_close w0 w1 (control_fd s) (cur_fd s) H1 E).
Qed.

Lemma calls_owns w0 cs : forall w s,
  stream_owns w0 w s ->
  stream_owns w0 (snd (calls cs w s)) (fst (calls cs w s)) /\
  control_fd (fst (calls cs w s)) = control_fd s.
Proof.
  induction cs as [|c cs IH]; intros w s H; [auto|].
  cbn [calls].
  assert (Hstep : let '(_, s', w') := ff_unix_y_protocol c w s in
                  stream_owns w0 w' s' /\ control_fd s' = control_fd s).
  { destruct c as [size|buf size|offset whence]; cbn [ff_unix_y_protocol].
    - pose proof (unix_y_read_owns w0 w s size H) as Hr.
      destruct (unix_y_read w s size) as [[[r d] s'] w']. tauto.
    - pose proof (unix_y_write_owns w0 w s buf size H) as Hr.
      destruct (unix_y_write w s buf size) as [[r s'] w']. tauto.
    - pose proof (unix_y_seek_owns w0 w s offset whence H) as Hr.
      destruct (unix_y_seek w s offset whence) as [[r s'] w']. tauto. }
  destruct (ff_unix_y_protocol c w s) as [[r s'] w'].
  destruct Hstep as [H' Hc]. destruct (IH w' s' H') as [IH1 IH2].
  split; [exact IH1|congruence].
Qed.

Lemma unix_y_open_owns w0 s filename flags :
  fds_below w0 ->
  fst (fst (unix_y_open w0 s filename flags)) = 0 ->
  stream_owns w0 (snd (unix_y_open w0 s filename flags))
    (snd (fst (unix_y_open w0 s filename flags))).
Proof.
  intros Hb Hret.
  destruct (unix_y_open_cases w0 s filename flags)
    as (ret & s' & w' & Heq & _ & _ & _ & Hoth & Hn & Hcase).
  rewrite Heq in *. cbn [fst snd] in *.
  destruct Hcase as [(Hneg & _) | (_ & Hctl & Hcur & _ & _ & _ & Hnext & sk & rest & _ & _ & Hopen & _)];
    [lia|].
  unfold stream_owns, owns. rewrite Hctl, Hcur.
  split; [exact Hb|].
  split; [intros fd Hfd; destruct (decide (fd = Z.of_nat (next_fd w0))) as [->|Hne];
          [lia|rewrite Hoth in Hfd by exact Hne; specialize (Hb _ Hfd); lia]|].
  split; [lia|]. split; [lia|]. split; [exact Hopen|]. split; [left; lia|].
  intros fd H1 _. apply Hoth, H1.
Qed.

(** [unix_y_close] on a stream gives back what the stream holds. *)
Lemma unix_y_close_owns w0 w s :
  stream_owns w0 w s -> socks (snd (unix_y_close w s)) = socks w0.
Proof.
  intros (H0 & Hb & Hn & Hc & Hco & Hd & Hoth).
  assert (Hnew : forall fd, Z.of_nat (next_fd w0) <= fd -> socks w0 !! fd = None).
  { intros fd Hfd. apply eq_None_not_Some. intros Hs. specialize (H0 _ Hs). lia. }
  assert (Hneg : forall fd, fd < 0 -> socks w !! fd = socks w0 !! fd).
  { intros fd Hfd. transitivity (@None Sock); [|symmetry];
      apply eq_None_not_Some; intros Hs;
      [specialize (Hb _ Hs)|specialize (H0 _ Hs)]; lia. }
  unfold unix_y_close. cbn [snd]. apply map_eq. intros fd.
  unfold closesocket at 1. cbn [socks log set_socks].
  destruct (decide (fd = control_fd s)) as [->|Hne1].
  { rewrite lookup_delete_eq. symmetry. apply Hnew, Hc. }
  rewrite lookup_delete_ne by auto.
  destruct (cur_fd s >=? 0) eqn:E.
  - apply Z.geb_le in E. destruct Hd as [Hd|(Hd1 & Hd2 & Hd3)]; [lia|].
    unfold closesocket. cbn [socks log set_socks].
    destruct (decide (fd = cur_fd s)) as [->|Hne2].
    + rewrite lookup_delete_eq. symmetry. apply Hnew, Hd1.
    + rewrite lookup_delete_ne by auto. apply Hoth; auto.
  - destruct (decide (fd = cur_fd s)) as [->|Hne2]; [|apply Hoth; auto].
    apply Hneg. test_lia.
Qed.

(** X14.  A stream keeps its descriptors in order through any sequence of
    reads, writes and seeks, whatever the server does and whatever the
    calls return.  After a successful open in a process whose open
    descriptors are those handed out so far, the control descriptor is
    the one the open made and its connection stays open; the data
    descriptor is negative or an open connection other than the control
    one; and every descriptor that is not one of these two is as it was
    before the open, so a connection the stream has made and dropped is
    closed. *)
Theorem stream_keeps_its_descriptors w0 s filename flags cs :
  fds_below w0 ->
  fst (fst (unix_y_open w0 s filename flags)) = 0 ->
  let '(_, s1, w1) := unix_y_open w0 s filename flags in
  let '(s2, w2) := calls cs w1 s1 in
  unix_y_get_file_handle s2 = Z.of_nat (next_fd w0) /\
  is_Some (socks w2 !! control_fd s2) /\
  (cur_fd s2 < 0 \/ (cur_fd s2 <> control_fd s2 /\ is_Some (socks w2 !! cur_fd s2))) /\
  (forall fd, fd <> control_fd s2 -> fd <> cur_fd s2 -> socks w2 !! fd = socks w0 !! fd).
Proof.
  intros Hb Hret.
  pose proof (unix_y_open_owns w0 s filename flags Hb Hret) as Ho.
  destruct (unix_y_open_cases w0 s filename flags)
    as (r & s1 & w1 & Heq & _ & _ & _ & _ & _ & Hcase).
  rewrite Heq in *. cbn [fst snd] in Ho, Hret.
  assert (Hfd : control_fd s1 = Z.of_nat (next_fd w0))
    by (destruct Hcase as [(Hneg & _) | (_ & Hctl & _)]; [lia|exact Hctl]).
  destruct (calls_owns w0 cs w1 s1 Ho) as [Hc Hctl].
  destruct (calls cs w1 s1) as [s2 w2]. cbn [fst snd] in Hc, Hctl.
  destruct Hc as (_ & _ & _ & _ & Hco & Hd & Hoth).
  unfold unix_y_get_file_handle in *.
  split; [congruence|]. split; [exact Hco|].
  split; [destruct Hd as [Hd|(_ & Hd2 & Hd3)]; auto|exact Hoth].
Qed.

Lemma stream_keeps_its_descriptors_witness :
  let '(_, s1, w1) :=
    unix_y_open (fresh_world [Peer (peer (bytes ("ok" ++ String LF ""))); Peer (peer (bytes "abc"))])
      (unopened 1) "unix-y:/tmp/y.sock" 1 in
  let '(s2, w2) := calls [url_read 2; url_seek 7 SEEK_SET] w1 s1 in
  unix_y_get_file_handle s2 = 3 /\ is_Some (socks w2 !! 3) /\ cur_fd s2 = -1 /\
  socks w2 !! 4 = None.
Proof.
  pose proof (stream_keeps_its_descriptors
                (fresh_world [Peer (peer (bytes ("ok" ++ String LF ""))); Peer (peer (bytes "abc"))])
                (unopened 1) "unix-y:/tmp/y.sock" 1 [url_read 2; url_seek 7 SEEK_SET]
                (fds_below_fresh_world _)) as H.
  assert (H0 : fst (fst (unix_y_open
                 (fresh_world [Peer (peer (bytes ("ok" ++ String LF ""))); Peer (peer (bytes "abc"))])
                 (unopened 1) "unix-y:/tmp/y.sock" 1)) = 0) by (vm_compute; reflexivity).
  specialize (H H0).
  assert (Hcur : cur_fd (fst (calls [url_read 2; url_seek 7 SEEK_SET]
                   (snd (unix_y_open
                      (fresh_world [Peer (peer (bytes ("ok" ++ String LF ""))); Peer (peer (bytes "abc"))])
                      (unopened 1) "unix-y:/tmp/y.sock" 1))
                   (snd (fst (unix_y_open
                      (fresh_world [Peer (peer (bytes ("ok" ++ String LF ""))); Peer (peer (bytes "abc"))])
                      (unopened 1) "unix-y:/tmp/y.sock" 1))))) = -1)
    by (vm_compute; reflexivity).
  destruct (unix_y_open _ _ _ _) as [[r s1] w1]. cbn [fst snd] in Hcur.
  destruct (calls _ w1 s1) as [s2 w2]. cbn [fst] in Hcur.
  destruct H as (Hfd & Hopen & _ & Hoth).
  unfold unix_y_get_file_handle in Hfd. change (Z.of_nat (next_fd (fresh_world _))) with 3 in Hfd.
  rewrite Hfd in Hopen, Hoth.
  split; [exact Hfd|]. split; [exact Hopen|]. split; [exact Hcur|].
  rewrite Hoth by (rewrite ?Hcur; discriminate). reflexivity.
Defined.

(** X15.  A stream gives back every descriptor it took: after a successful
    open, any sequence of reads, writes and seeks, and the close, the
    open connections of the process are those it had before the open,
    whatever the server did and whatever the calls returned. *)
Theorem stream_life_leaves_no_descriptor w0 s filename flags cs :
  fds_below w0 ->
  fst (fst (unix_y_open w0 s filename flags)) = 0 ->
  let '(_, s1, w1) := unix_y_open w0 s filename flags in
  let '(s2, w2) := calls cs w1 s1 in
  let '(ret, _, w3) := unix_y_close w2 s2 in
  ret = 0 /\ socks w3 = socks w0.
Proof.
  intros Hb Hret.
  pose proof (unix_y_open_owns w0 s filename flags Hb Hret) as Ho.
  destruct (unix_y_open w0 s filename flags) as [[r s1] w1]. cbn [fst snd] in Ho.
  destruct (calls_owns w0 cs w1 s1 Ho) as [Hc _].
  destruct (calls cs w1 s1) as [s2 w2]. cbn [fst snd] in Hc.
  pose proof (unix_y_close_owns w0 w2 s2 Hc) as Hcl.
  destruct (unix_y_close w2 s2) as [[ret s3] w3] eqn:E. cbn [snd] in Hcl.
  split; [|exact Hcl].
  unfold unix_y_close in E. injection E as <- _ _. reflexivity.
Qed.

Lemma stream_life_leaves_no_descriptor_witness :
  let '(_, s1, w1) :=
    unix_y_open (fresh_world [Peer (peer (bytes ("ok" ++ String LF ""))); Peer (peer (bytes "abc"))])
      (unopened 1) "unix-y:/tmp/y.sock" 1 in
  let '(s2, w2) := calls [url_read 2; url_read 2] w1 s1 in
  let '(ret, _, w3) := unix_y_close w2 s2 in
  ret = 0 /\ socks w3 = ∅.
Proof.
  apply (stream_life_leaves_no_descriptor
           (fresh_world [Peer (peer (bytes ("ok" ++ String LF ""))); Peer (peer (bytes "abc"))])
           (unopened 1) "unix-y:/tmp/y.sock" 1 [url_read 2; url_read 2]).
  - apply fds_below_fresh_world.
  - vm_compute. reflexivity.
Defined.

(** ** What stays fixed in a stream *)

Lemma same_stream_refl s : same_stream s s.
Proof. repeat split. Qed.

Lemma same_stream_trans s1 s2 s3 :
  same_stream s1 s2 -> same_stream s2 s3 -> same_stream s1 s3.
Proof.
  intros (A1 & B1 & C1 & D1 & E1) (A2 & B2 & C2 & D2 & E2).
  repeat split; congruence.
Qed.

(** [connectSocket] leaves the address, the timeout, the control
    descriptor and the direction as they are, and the session id and the
    session counter too when the stream has its session id. *)
Lemma connectSocket_fixed w s :
  same_stream s (snd (fst (connectSocket w s))) /\
  (session_id s > 0 ->
   session_id (snd (fst (connectSocket w s))) = session_id s /\
   session_id_inc (snd (connectSocket w s)) = session_id_inc w).
Proof.
  split.
  - destruct (connectSocket_cases w s) as (ret & s' & w' & Heq & _ & _ & Hcase).
    rewrite Heq. cbn [fst snd].
    destruct Hcase as [[(_ & -> & _) | (_ & -> & _)] | (_ & _ & sk & rest & line & _ & _ & _ & _ & _ & Hl)];
      try apply same_stream_refl.
    destruct Hl as [(_ & -> & _) | (_ & -> & _)]; repeat split.
  - intros Hid. destruct (connectSocket_keeps_a_session w s Hid) as [-> Hc]. auto.
Qed.

Lemma unix_y_read_recv_fixed w s size :
  let '(_, _, s', w') := unix_y_read_recv w s size in
  same_stream s s' /\ session_id s' = session_id s /\
  session_id_inc w' = session_id_inc w.
Proof.
  unfold unix_y_read_recv.
  pose proof (io_counter _ _ _ (recv_io_on w (cur_fd s) size)) as Hc.
  destruct (recv w (cur_fd s) size) as [[ret data] w1]. cbn [snd] in Hc.
  destruct (ret =? 0); [|destruct (ret <? 0)]; repeat split; auto.
Qed.

Lemma unix_y_write_send_fixed w s buf size :
  let '(_, s', w') := unix_y_write_send w s buf size in
  same_stream s s' /\ session_id s' = session_id s /\
  session_id_inc w' = session_id_inc w.
Proof.
  unfold unix_y_write_send.
  pose proof (io_counter _ _ _ (send_io_on w (cur_fd s) (take (Z.to_nat size) buf))) as Hc.
  destruct (send w (cur_fd s) _) as [ret w1]. cbn [snd] in Hc.
  destruct (ret <? 0); repeat split; auto.
Qed.

Lemma unix_y_read_fixed w s size :
  let '(_, _, s', w') := unix_y_read w s size in
  same_stream s s' /\
  (session_id s > 0 ->
   session_id s' = session_id s /\ session_id_inc w' = session_id_inc w).
Proof.
  unfold unix_y_read.
  destruct (reading_mode s =? 0); [split; [apply same_stream_refl|auto]|].
  destruct (cur_fd s <? 0).
  2:{ pose proof (unix_y_read_recv_fixed w s size) as H.
      destruct (unix_y_read_recv w s size) as [[[r d] s'] w']. tauto. }
  cbv zeta.
  pose proof (io_counter _ _ _ (write_str_io_on w (control_fd s)
                (char_array 50 ("read " ++ dec (pos s) ++ String LF ""))
                (strlen (char_array 50 ("read " ++ dec (pos s) ++ String LF ""))))) as H1.
  destruct (write_str w (control_fd s) _ _) as [r1 w1]. cbn [snd] in H1.
  destruct (r1 <? 0); [split; [apply same_stream_refl|auto]|].
  pose proof (io_counter _ _ _ (read_str_until_io_on w1 (control_fd s) LF
                (char_array 50 ("read " ++ dec (pos s) ++ String LF "")) 50)) as H2.
  destruct (read_str_until w1 (control_fd s) LF _ 50) as [[r2 buf] w2]. cbn [snd] in H2.
  destruct (r2 <? 0); [split; [apply same_stream_refl|split; congruence]|].
  destruct (negb (strcmp buf (lit "ok") =? 0));
    [split; [apply same_stream_refl|split; congruence]|].
  destruct (connectSocket_fixed w2 s) as [H3 H3'].
  destruct (connectSocket w2 s) as [[ret s1] w3]. cbn [fst snd] in H3, H3'.
  destruct (ret <? 0).
  { split; [exact H3|]. intros Hid. destruct (H3' Hid). split; congruence. }
  pose proof (unix_y_read_recv_fixed w3 (set_cur_fd ret s1) size) as H4.
  destruct (unix_y_read_recv w3 (set_cur_fd ret s1) size) as [[[r d] s'] w'].
  destruct H4 as (H4 & H4' & H4'').
  split; [eapply same_stream_trans; [exact H3|exact H4]|].
  intros Hid. destruct (H3' Hid). cbn [session_id set_cur_fd] in H4'.
  split; congruence.
Qed.

Lemma unix_y_write_fixed w s buf size :
  let '(_, s', w') := unix_y_write w s buf size in
  same_stream s s' /\
  (session_id s > 0 ->
   session_id s' = session_id s /\ session_id_inc w' = session_id_inc w).
Proof.
  unfold unix_y_write.
  destruct (negb (reading_mode s =? 0)); [split; [apply same_stream_refl|auto]|].
  destruct (cur_fd s <? 0).
  2:{ pose proof (unix_y_write_send_fixed w s buf size) as H.
      destruct (unix_y_write_send w s buf size) as [[r s'] w']. tauto. }
  cbv zeta.
  pose proof (io_counter _ _ _ (write_str_io_on w (control_fd s)
                (char_array 50 ("write " ++ dec (pos s) ++ String LF ""))
                (strlen (char_array 50 ("write " ++ dec (pos s) ++ String LF ""))))) as H1.
  destruct (write_str w (control_fd s) _ _) as [r1 w1]. cbn [snd] in H1.
  destruct (r1 <? 0); [split; [apply same_stream_refl|auto]|].
  pose proof (io_counter _ _ _ (read_str_until_io_on w1 (control_fd s) LF
                (char_array 50 ("write " ++ dec (pos s) ++ String LF "")) 50)) as H2.
  destruct (read_str_until w1 (control_fd s) LF _ 50) as [[r2 cmd] w2]. cbn [snd] in H2.
  destruct (r2 <? 0); [split; [apply same_stream_refl|split; congruence]|].
  destruct (negb (strcmp cmd (lit "ok") =? 0));
    [split; [apply same_stream_refl|split; congruence]|].
  destruct (connectSocket_fixed w2 s) as [H3 H3'].
  destruct (connectSocket w2 s) as [[ret s1] w3]. cbn [fst snd] in H3, H3'.
  destruct (ret <? 0).
  { split; [exact H3|]. intros Hid. destruct (H3' Hid). split; congruence. }
  pose proof (unix_y_write_send_fixed w3 (set_cur_fd ret s1) buf size) as H4.
  destruct (unix_y_write_send w3 (set_cur_fd ret s1) buf size) as [[r s'] w'].
  destruct H4 as (H4 & H4' & H4'').
  split; [eapply same_stream_trans; [exact H3|exact H4]|].
  intros Hid. destruct (H3' Hid). cbn [session_id set_cur_fd] in H4'.
  split; congruence.
Qed.

Lemma unix_y_seek_fixed w s offset whence :
  let '(_, s', w') := unix_y_seek w s offset whence in
  same_stream s s' /\ session_id s' = session_id s /\
  session_id_inc w' = session_id_inc w.
Proof.
  unfold unix_y_seek.
  pose proof (io_counter _ _ _ (unix_y_seek_stat_io_on w s whence)) as H1.
  destruct (unix_y_seek_stat w s whence) as [[r|stat] w1]; cbn [snd] in H1;
    [split; [apply same_stream_refl|auto]|].
  unfold unix_y_seek_move.
  destruct (whence =? AVSEEK_SIZE); [split; [apply same_stream_refl|auto]|].
  cbv zeta.
  destruct (if whence =? SEEK_SET then Some offset
            else if whence =? SEEK_CUR then Some (add64 (pos s) offset)
            else if whence =? SEEK_END then Some (add64 stat offset) else None)
    as [newPos|]; [|split; [apply same_stream_refl|auto]].
  destruct ((cur_fd s >=? 0) && negb (newPos =? pos s)); repeat split; auto.
Qed.

Lemma calls_fixed cs : forall w s,
  same_stream s (fst (calls cs w s)) /\
  (session_id s > 0 ->
   session_id (fst (calls cs w s)) = session_id s /\
   session_id_inc (snd (calls cs w s)) = session_id_inc w).
Proof.
  induction cs as [|c cs IH]; intros w s; [split; [apply same_stream_refl|auto]|].
  cbn [calls].
  assert (Hstep : let '(_, s', w') := ff_unix_y_protocol c w s in
                  same_stream s s' /\
                  (session_id s > 0 ->
                   session_id s' = session_id s /\ session_id_inc w' = session_id_inc w)).
  { destruct c as [size|buf size|offset whence]; cbn [ff_unix_y_protocol].
    - pose proof (unix_y_read_fixed w s size) as H.
      destruct (unix_y_read w s size) as [[[r d] s'] w']. exact H.
    - apply unix_y_write_fixed.
    - pose proof (unix_y_seek_fixed w s offset whence) as H.
      destruct (unix_y_seek w s offset whence) as [[r s'] w']. tauto. }
  destruct (ff_unix_y_protocol c w s) as [[r s'] w'].
  destruct Hstep as [H1 H2]. destruct (IH w' s') as [IH1 IH2].
  split; [eapply same_stream_trans; eassumption|].
  intros Hid. destruct (H2 Hid) as [Hs Hc].
  destruct IH2 as [IHs IHc]; [lia|]. split; congruence.
Qed.

(** X16.  The direction of a stream is fixed by bit 0 of the flags given to
    [unix_y_open] and no read, write or seek changes it.  With the bit
    set, as for [AVIO_FLAG_READ] and for [AVIO_FLAG_READ_WRITE], every
    later [unix_y_write] returns [AVERROR(EPERM)] and does nothing; with
    the bit clear every later [unix_y_read] does. *)
Theorem direction_is_fixed_at_open w s filename flags cs :
  let '(_, s1, w1) := unix_y_open w s filename flags in
  let s2 := fst (calls cs w1 s1) in
  (Z.land flags AVIO_FLAG_READ <> 0 ->
   forall w2 buf size, unix_y_write w2 s2 buf size = (AVERROR EPERM, s2, w2)) /\
  (Z.land flags AVIO_FLAG_READ = 0 ->
   forall w2 size, unix_y_read w2 s2 size = (AVERROR EPERM, [], s2, w2)).
Proof.
  destruct (unix_y_open_cases w s filename flags)
    as (r & s1 & w1 & Heq & Hmode & _).
  rewrite Heq. cbv zeta.
  destruct (calls_fixed cs w1 s1) as [(_ & _ & _ & _ & Hm) _].
  rewrite Hmode in Hm.
  split.
  - intros Hbit w2 buf size. unfold unix_y_write. rewrite Hm.
    apply Z.eqb_neq in Hbit. rewrite Hbit. reflexivity.
  - intros Hbit w2 size. unfold unix_y_read. rewrite Hm, Hbit. reflexivity.
Qed.

(** X17.  A stream runs under one session id.  While the counter is short of
    [INT_MAX], the id a successful open stores is positive, and no read,
    write or seek after it changes the id or advances the counter: every
    data connection the stream makes announces that id. *)
Theorem stream_keeps_its_session_id w0 s filename flags cs :
  0 <= session_id_inc w0 < 2 ^ 31 - 1 ->
  fst (fst (unix_y_open w0 s filename flags)) = 0 ->
  let '(_, s1, w1) := unix_y_open w0 s filename flags in
  let '(s2, w2) := calls cs w1 s1 in
  session_id s1 = session_id_inc w0 + 1 /\
  session_id s2 = session_id s1 /\
  session_id_inc w2 = session_id s1.
Proof.
  intros Hc Hret.
  destruct (unix_y_open_cases w0 s filename flags)
    as (r & s1 & w1 & Heq & _ & _ & _ & _ & _ & Hcase).
  rewrite Heq in *. cbn [fst] in Hret.
  destruct Hcase as [(Hneg & _) | (_ & _ & _ & _ & Hid & Hcnt & _)]; [lia|].
  rewrite wrap32_exact in Hid, Hcnt by lia.
  destruct (calls_fixed cs w1 s1) as [_ Hfix].
  destruct (calls cs w1 s1) as [s2 w2]. cbn [fst snd] in Hfix.
  destruct Hfix as [Hs Hw]; [lia|].
  split; [exact Hid|]. split; [exact Hs|]. congruence.
Qed.

Lemma stream_keeps_its_session_id_witness :
  let '(_, s1, w1) :=
    unix_y_open (fresh_world [Peer (peer (bytes ("ok" ++ String LF ""))); Peer (peer (bytes "abc"))])
      (unopened 1) "unix-y:/tmp/y.sock" 1 in
  let '(s2, w2) := calls [url_read 2; url_seek 7 SEEK_SET; url_read 2] w1 s1 in
  session_id s1 = 1 /\ session_id s2 = session_id s1 /\ session_id_inc w2 = session_id s1.
Proof.
  apply (stream_keeps_its_session_id
           (fresh_world [Peer (peer (bytes ("ok" ++ String LF ""))); Peer (peer (bytes "abc"))])
           (unopened 1) "unix-y:/tmp/y.sock" 1 [url_read 2; url_seek 7 SEEK_SET; url_read 2]).
  - vm_compute. split; [discriminate|reflexivity].
  - vm_compute. reflexivity.
Defined.

(** ** [unix_y_close] *)

Lemma closed_fds_app tr1 tr2 : closed_fds (tr1 ++ tr2) = closed_fds tr1 ++ closed_fds tr2.
Proof. unfold closed_fds. apply flat_map_app. Qed.

(** X13.  [unix_y_close] returns 0 whatever state the stream is in.  It closes
    the data descriptor when that is not negative and then the control
    descriptor, in this order and nothing else, so that neither is open
    afterwards and every other connection is as it was.  The context is
    not changed: the descriptors it holds are stale from then on. *)
Theorem unix_y_close_releases w s :
  let '(ret, s', w') := unix_y_close w s in
  ret = 0 /\ s' = s /\
  trace w' = trace w ++ (if cur_fd s >=? 0 then [SysClose (cur_fd s)] else [])
                     ++ [SysClose (control_fd s)] /\
  socks w' !! control_fd s = None /\
  (0 <= cur_fd s -> socks w' !! cur_fd s = None) /\
  (forall fd, fd <> control_fd s -> fd <> cur_fd s -> socks w' !! fd = socks w !! fd).
Proof.
  unfold unix_y_close. cbv zeta.
  assert (Hlk : forall w1 fd, fd <> control_fd s ->
            socks (closesocket w1 (control_fd s)) !! fd = socks w1 !! fd)
    by (intros w1 fd Hfd; apply lookup_delete_ne; auto).
  split; [reflexivity|]. split; [reflexivity|].
  split; [|split; [apply closesocket_gone|split]].
  - destruct (cur_fd s >=? 0); cbn [trace closesocket log set_socks];
      rewrite <- ?app_assoc; reflexivity.
  - intros Hcur. destruct (decide (cur_fd s = control_fd s)) as [->|Hne];
      [apply closesocket_gone|].
    rewrite Hlk by exact Hne.
    destruct (cur_fd s >=? 0) eqn:E; [apply closesocket_gone|test_lia].
  - intros fd H1 H2. rewrite Hlk by exact H1.
    destruct (cur_fd s >=? 0); [|reflexivity].
    apply lookup_delete_ne. auto.
Qed.

(** ** [read_str_until] and the caller's array *)

Lemma recv_failed_errno w fd n :
  fst (fst (recv w fd n)) < 0 -> 0 < errno (snd (recv w fd n)).
Proof.
  unfold recv. destruct (socks w !! fd) as [sk|]; [|cbn; unfold EBADF; lia].
  destruct (inbox sk) as [|[b|e] rest]; cbn [fst snd errno log set_errno]; lia.
Qed.

Lemma store_length out i c : length (store out i c) = length out.
Proof. unfold store. destruct (i <? 0); [reflexivity|apply length_insert]. Qed.

Lemma store_drop out i c n :
  0 <= i -> (Z.to_nat i < n)%nat -> drop n (store out i c) = drop n out.
Proof.
  intros Hi Hn. unfold store. destruct (i <? 0); [reflexivity|].
  apply drop_insert_lt. exact Hn.
Qed.

(** The loop entered with [read] bytes stored and [turns] turns left
    returns a negative code or a count from [read] to [read + turns],
    writes no byte at an index from [read + turns] on, and calls [recv]
    at most [turns] times, each time for one byte. *)
Lemma read_str_until_loop_bounds turns : forall w fd c out read,
  0 <= read ->
  let '(ret, out', w') := read_str_until_loop turns w fd c out read in
  (ret < 0 \/ read <= ret <= read + Z.of_nat turns) /\
  length out' = length out /\
  drop (Z.to_nat read + turns) out' = drop (Z.to_nat read + turns) out /\
  exists evs,
    trace w' = trace w ++ evs /\ (length evs <= turns)%nat /\
    Forall (fun ev => exists r, ev = SysRecv fd 1 r) evs.
Proof.
  induction turns as [|turns IH]; intros w fd c out read Hread.
  - cbn [read_str_until_loop]. split; [right; lia|]. split; [reflexivity|].
    split; [reflexivity|]. exists []. rewrite app_nil_r. auto.
  - cbn [read_str_until_loop].
    pose proof (recv_trace w fd 1) as Ht.
    pose proof (recv_failed_errno w fd 1) as He.
    destruct (recv w fd 1) as [[ret buf] w1]. cbn [fst snd] in Ht, He.
    assert (Hone : exists evs, trace w1 = trace w ++ evs /\ (length evs <= S turns)%nat /\
                     Forall (fun ev => exists r, ev = SysRecv fd 1 r) evs).
    { exists [SysRecv fd 1 ret]. split; [exact Ht|]. split; [simpl; lia|].
      repeat constructor. eauto. }
    destruct (ret <? 0) eqn:E1.
    { split; [left; apply Z.ltb_lt in E1; specialize (He E1);
              unfold ff_neterrno, AVERROR; lia|]. auto. }
    destruct (ret <? 1) eqn:E2.
    { split; [left; reflexivity|]. auto. }
    destruct (Ascii.eqb (hd NUL buf) c).
    { split; [right; lia|]. split; [apply store_length|].
      split; [apply store_drop; lia|exact Hone]. }
    specialize (IH w1 fd c (store out read (hd NUL buf)) (read + 1)).
    destruct (read_str_until_loop turns w1 fd c _ (read + 1)) as [[r out'] w'].
    destruct IH as (Hr & Hlen & Hdrop & evs & Hevs & Hn & Hall); [lia|].
    split; [lia|]. split; [rewrite Hlen; apply store_length|].
    split.
    + replace (Z.to_nat read + S turns)%nat with (Z.to_nat (read + 1) + turns)%nat by lia.
      rewrite Hdrop. apply store_drop; lia.
    + exists (SysRecv fd 1 ret :: evs). split; [|split].
      * rewrite Hevs, Ht, <- app_assoc. reflexivity.
      * simpl. lia.
      * constructor; [eauto|exact Hall].
Qed.

(** X18.  [read_str_until] stays within the [max] bytes it is given, whatever
    the peer sends.  It returns a negative code or a count from 0 to
    [max]; it calls [recv] at most [max] times, one byte each; the array
    keeps its length, no byte is written at index [max] or beyond, and a
    count below [max] is the index of a NUL it has stored. *)
Theorem read_str_until_stays_in_bounds w fd c out max :
  let '(ret, out', w') := read_str_until w fd c out max in
  (ret < 0 \/ 0 <= ret <= Z.max 0 max) /\
  length out' = length out /\
  drop (Z.to_nat max) out' = drop (Z.to_nat max) out /\
  (exists evs,
     trace w' = trace w ++ evs /\ (length evs <= Z.to_nat max)%nat /\
     Forall (fun ev => exists r, ev = SysRecv fd 1 r) evs) /\
  (0 <= ret < max -> ret < Z.of_nat (length out) ->
   out' !! Z.to_nat ret = Some NUL).
Proof.
  unfold read_str_until.
  pose proof (read_str_until_loop_bounds (Z.to_nat max) w fd c out 0 (Z.le_refl 0)) as H.
  assert (Hnul : forall turns w fd c out read,
            0 <= read ->
            let '(ret, out', _) := read_str_until_loop turns w fd c out read in
            0 <= ret < read + Z.of_nat turns -> ret < Z.of_nat (length out) ->
            out' !! Z.to_nat ret = Some NUL).
  { clear. induction turns as [|turns IH]; intros w fd c out read Hread;
      cbn [read_str_until_loop]; [lia|].
    pose proof (recv_failed_errno w fd 1) as He.
    destruct (recv w fd 1) as [[ret buf] w1]. cbn [fst snd] in He.
    destruct (ret <? 0) eqn:E1.
    { intros Hr. apply Z.ltb_lt in E1. specialize (He E1).
      unfold ff_neterrno, AVERROR in Hr. lia. }
    destruct (ret <? 1).
    { intros [Hr _]. exfalso. apply Hr. reflexivity. }
    destruct (Ascii.eqb (hd NUL buf) c).
    { intros _ Hlen. unfold store. destruct (read <? 0) eqn:E; [test_lia|].
      apply list_lookup_insert_eq. lia. }
    specialize (IH w1 fd c (store out read (hd NUL buf)) (read + 1)).
    pose proof (read_str_until_loop_bounds turns w1 fd c (store out read (hd NUL buf))
                  (read + 1)) as Hb.
    destruct (read_str_until_loop turns w1 fd c _ (read + 1)) as [[r out'] w'].
    intros Hr Hlen. destruct Hb as ([Hneg|Hge] & _); [lia|lia|].
    apply IH; [lia|lia|rewrite store_length; exact Hlen]. }
  specialize (Hnul (Z.to_nat max) w fd c out 0 (Z.le_refl 0)).
  destruct (read_str_until_loop (Z.to_nat max) w fd c out 0) as [[ret out'] w'].
  destruct H as (Hr & Hlen & Hdrop & Hevs).
  split; [lia|]. split; [exact Hlen|]. split; [exact Hdrop|]. split; [exact Hevs|].
  intros Hret Hlt. apply Hnul; lia.
Qed.

(** ** The command buffers *)

(** [%d] and [%lld] print a number below [10 ^ k] in absolute value with
    at most [k] digits and a sign. *)
Lemma dec_length z k :
  0 < k -> - 10 ^ k < z < 10 ^ k ->
  (length (list_ascii_of_string (dec z)) <= Z.to_nat k + 1)%nat.
Proof.
  intros Hk Hz.
  assert (Hdig : forall p, Z.pos p < 10 ^ k ->
            (Decimal.nb_digits (Pos.to_uint p) <= Z.to_nat k)%nat).
  { intros p Hp. pose proof (to_uint_digits p) as Hd.
    destruct (Nat.le_gt_cases (Decimal.nb_digits (Pos.to_uint p)) (Z.to_nat k)) as [H|H];
      [exact H|]. exfalso.
    assert (10 ^ k <= 10 ^ (Z.of_nat (Decimal.nb_digits (Pos.to_uint p)) - 1))
      by (apply Z.pow_le_mono_r; lia).
    lia. }
  destruct z as [|p|p]; unfold dec.
  - simpl. lia.
  - cbn [Z.to_int NilZero.string_of_int].
    rewrite string_of_uint_to_uint, string_of_uint_length.
    specialize (Hdig p). lia.
  - cbn [Z.to_int NilZero.string_of_int list_ascii_of_string length].
    rewrite string_of_uint_to_uint, string_of_uint_length.
    specialize (Hdig p). lia.
Qed.

Lemma wrap32_range z : - 2 ^ 31 <= wrap32 z < 2 ^ 31.
Proof.
  unfold wrap32, wrap.
  pose proof (Z.mod_pos_bound (z + 2 ^ (32 - 1)) (2 ^ 32) eq_refl) as H.
  change (2 ^ (32 - 1)) with (2 ^ 31) in *.
  change (2 ^ 32) with (2 * 2 ^ 31) in *. lia.
Qed.

Lemma char_array_fits size (str : string) :
  (length (list_ascii_of_string str) < size)%nat ->
  length (char_array size str) = size.
Proof.
  intros H. unfold char_array, lit. cbv zeta.
  rewrite !length_app, repeat_length. simpl. lia.
Qed.

(** X19.  No command line overruns its buffer.  Each of the four lines the
    code prints with [sprintf] into a [char [50]], the terminating NUL
    included, fits in the 50 bytes: [read] and [write] with any [int64_t]
    position, [run_session] with any [int] session id, and [new_session]
    with whatever the counter gives. *)
Theorem command_lines_fit_the_buffer :
  (forall p, in_int64 p ->
     length (char_array 50 (read_line p)) = 50%nat /\
     length (char_array 50 (write_line p)) = 50%nat) /\
  (forall id, - 2 ^ 31 <= id < 2 ^ 31 ->
     length (char_array 50 (run_session_line id)) = 50%nat) /\
  (forall mode counter,
     length (char_array 50 (new_session_line mode (wrap32 (counter + 1)))) = 50%nat).
Proof.
  assert (H64 : forall p, in_int64 p ->
            (length (list_ascii_of_string (dec p)) <= 20)%nat).
  { intros p [Hmin Hmax]. unfold LLONG_MIN, LLONG_MAX in *.
    apply (dec_length p 19); [lia|].
    assert (2 ^ 63 < 10 ^ 19) by reflexivity. lia. }
  assert (H32 : forall id, - 2 ^ 31 <= id < 2 ^ 31 ->
            (length (list_ascii_of_string (dec id)) <= 11)%nat).
  { intros id Hid. apply (dec_length id 10); [lia|].
    assert (2 ^ 31 < 10 ^ 10) by reflexivity. lia. }
  split; [|split].
  - intros p Hp. specialize (H64 p Hp).
    split; apply char_array_fits; unfold read_line, write_line;
      rewrite !chars_app, !length_app; simpl; lia.
  - intros id Hid. specialize (H32 id Hid).
    apply char_array_fits. unfold run_session_line.
    rewrite !chars_app, !length_app. simpl. lia.
  - intros mode counter. specialize (H32 _ (wrap32_range (counter + 1))).
    apply char_array_fits. unfold new_session_line.
    destruct (negb (mode =? 0)); rewrite !chars_app, !length_app; simpl; lia.
Qed.

(** ** What the peer holds after [write_str] *)

(** X20.  [write_str] loses and repeats nothing.  On an open connection, when
    it has returned the peer holds, behind what it held before, a prefix
    of the first [len] bytes of the buffer in their order: all [len] of
    them when the result is 0, and fewer when it is not, in which case
    the result is negative.  Nothing is read from the connection. *)
Theorem write_str_delivers_a_prefix w fd sk buf len :
  socks w !! fd = Some sk -> 0 <= len <= Z.of_nat (length buf) ->
  let '(ret, w') := write_str w fd buf len in
  inbox_of w' fd = inbox sk /\
  exists n,
    0 <= n <= len /\
    outbox_of w' fd = outbox sk ++ take (Z.to_nat n) buf /\
    (ret = 0 -> n = len) /\
    (ret <> 0 -> ret < 0 /\ n < len).
Proof.
  intros Hsk Hlen.
  destruct (write_str_outbox w fd sk buf len Hsk Hlen)
    as (n & Hn & Hout & Hin & Hall & Hless).
  pose proof (write_str_sign w fd buf len) as Hsign.
  destruct (write_str w fd buf len) as [ret w']. cbn [fst snd] in *.
  split; [exact Hin|].
  exists n. split; [exact Hn|]. split; [exact Hout|]. split; [exact Hall|].
  intros Hne. split; [|apply Hless, Hne].
  destruct Hsign as [H0|Hneg]; [contradiction|exact Hneg].
Qed.

Lemma write_str_delivers_a_prefix_witness :
  let '(ret, w') :=
    write_str (world_with (mkSock [] [SAccept 2; SAccept 1; SErr 32] []) [])
      3 (list_ascii_of_string "stat!") 5 in
  inbox_of w' 3 = [] /\
  exists n,
    0 <= n <= 5 /\
    outbox_of w' 3 = [] ++ take (Z.to_nat n) (list_ascii_of_string "stat!") /\
    (ret = 0 -> n = 5) /\
    (ret <> 0 -> ret < 0 /\ n < 5).
Proof.
  apply (write_str_delivers_a_prefix
           (world_with (mkSock [] [SAccept 2; SAccept 1; SErr 32] []) [])
           3 (mkSock [] [SAccept 2; SAccept 1; SErr 32] [])
           (list_ascii_of_string "stat!") 5).
  - reflexivity.
  - vm_compute. split; discriminate.
Defined.

(** ** Seeks and what follows them *)

(** The stat exchange with a server that takes the command and answers
    with a size in decimal. *)
Lemma unix_y_seek_stat_run w s whence sk z rest :
  whence = AVSEEK_SIZE \/ whence = SEEK_END ->
  socks w !! control_fd s = Some sk -> outscript sk = [] ->
  inbox sk = bytes (dec z) ++ RByte LF :: rest ->
  in_int64 z -> errno w <> EINVAL ->
  unix_y_seek_stat w s whence
  = (Reached z,
     received (sent w (control_fd s) sk (list_ascii_of_string ("stat" ++ String LF "")))
       (control_fd s)
       (mkSock (inbox sk) [] (outbox sk ++ list_ascii_of_string ("stat" ++ String LF "")))
       (length (list_ascii_of_string (dec z)) + 1) rest).
Proof.
  intros Hwh Hsk Hscript Hin Hz Herrno.
  destruct (dec_line z Hz) as (Hlf & Hnul & Hlen).
  unfold unix_y_seek_stat.
  replace ((whence =? AVSEEK_SIZE) || (whence =? SEEK_END)) with true
    by (destruct Hwh as [-> | ->]; reflexivity).
  cbv zeta.
  rewrite (write_str_all w (control_fd s) sk _ _ Hsk Hscript)
    by (vm_compute; split; [reflexivity|discriminate]).
  change (0 <? 0) with false. cbv iota.
  change (take (Z.to_nat (strlen (lit ("stat" ++ String LF ""))))
            (lit ("stat" ++ String LF "")))
    with (list_ascii_of_string ("stat" ++ String LF "")).
  set (w1 := sent w (control_fd s) sk (list_ascii_of_string ("stat" ++ String LF ""))).
  set (sk1 := mkSock (inbox sk) [] (outbox sk ++ list_ascii_of_string ("stat" ++ String LF ""))).
  assert (Hsk1 : socks w1 !! control_fd s = Some sk1) by apply sent_lookup.
  destruct (read_reply_line w1 (control_fd s) sk1 (list_ascii_of_string (dec z)) rest
              (repeat NUL 50) Hsk1) as (buf & Hr & Hbuf); auto.
  rewrite Hr.
  destruct (Z.of_nat (length (list_ascii_of_string (dec z))) <? 0) eqn:E; [absurd_test|].
  rewrite (strtoll_cstr _ buf (list_ascii_of_string (dec z) ++ NUL :: [])).
  2:{ rewrite Hbuf, cstr_line by exact Hnul. reflexivity. }
  rewrite strtoll_dec by exact Hz.
  change (errno (received w1 (control_fd s) sk1 _ rest)) with (errno w).
  apply Z.eqb_neq in Herrno. rewrite Herrno. reflexivity.
Qed.

(** X21.  A seek from the end, with a server that takes the [stat] command and
    answers with the size [z] in decimal, whatever its sign: the server
    has received [stat] and its reply is used up, the call returns
    [z + offset] in [int64_t] arithmetic, the plain sum when that fits,
    and this is the new position; an open data connection is dropped
    exactly when that position is not the old one. *)
Theorem seek_end_lands_at_size_plus_offset w s offset sk z rest :
  socks w !! control_fd s = Some sk -> outscript sk = [] ->
  inbox sk = bytes (dec z) ++ RByte LF :: rest ->
  in_int64 z -> errno w <> EINVAL ->
  cur_fd s <> control_fd s ->
  let '(ret, s', w') := unix_y_seek w s offset SEEK_END in
  ret = add64 z offset /\ pos s' = ret /\
  (in_int64 (z + offset) -> ret = z + offset) /\
  outbox_of w' (control_fd s)
    = outbox sk ++ list_ascii_of_string ("stat" ++ String LF "") /\
  inbox_of w' (control_fd s) = rest /\
  cur_fd s' = (if (cur_fd s >=? 0) && negb (ret =? pos s) then -1 else cur_fd s) /\
  (cur_fd s' <> cur_fd s -> socks w' !! cur_fd s = None).
Proof.
  intros Hsk Hscript Hin Hz Herrno Hne.
  unfold unix_y_seek.
  rewrite (unix_y_seek_stat_run w s SEEK_END sk z rest (or_intror eq_refl)
             Hsk Hscript Hin Hz Herrno).
  unfold unix_y_seek_move.
  change (SEEK_END =? AVSEEK_SIZE) with false.
  change (SEEK_END =? SEEK_SET) with false.
  change (SEEK_END =? SEEK_CUR) with false.
  change (SEEK_END =? SEEK_END) with true. cbv iota zeta.
  set (w1 := received _ _ _ _ rest).
  assert (Hctl : socks w1 !! control_fd s
                 = Some (mkSock rest [] (outbox sk ++ list_ascii_of_string ("stat" ++ String LF ""))))
    by apply received_lookup.
  destruct ((cur_fd s >=? 0) && negb (add64 z offset =? pos s)) eqn:E;
    cbn [pos cur_fd set_pos set_cur_fd].
  - split; [reflexivity|]. split; [reflexivity|]. split; [apply add64_exact|].
    unfold outbox_of, inbox_of, closesocket. cbn [socks log set_socks].
    rewrite lookup_delete_ne, Hctl by exact Hne. cbn [outbox inbox].
    split; [reflexivity|]. split; [reflexivity|]. split; [rewrite E; reflexivity|].
    intros _. apply lookup_delete_eq.
  - split; [reflexivity|]. split; [reflexivity|]. split; [apply add64_exact|].
    unfold outbox_of, inbox_of. rewrite Hctl. cbn [outbox inbox].
    split; [reflexivity|]. split; [reflexivity|]. split; [rewrite E; reflexivity|].
    intros Hc. contradiction.
Qed.

Lemma seek_end_lands_at_size_plus_offset_witness :
  let '(ret, s', w') :=
    unix_y_seek (world_streaming (peer (bytes ("200" ++ String LF ""))) (peer []))
      (streaming 1 60) (-10) SEEK_END in
  ret = 190 /\ pos s' = 190 /\ cur_fd s' = -1 /\ socks w' !! 4 = None.
Proof.
  pose proof (seek_end_lands_at_size_plus_offset
                (world_streaming (peer (bytes ("200" ++ String LF ""))) (peer []))
                (streaming 1 60) (-10) (peer (bytes ("200" ++ String LF ""))) 200 []
                eq_refl eq_refl eq_refl) as H.
  assert (Hz : in_int64 200) by (vm_compute; split; discriminate).
  assert (He : errno (world_streaming (peer (bytes ("200" ++ String LF ""))) (peer []))
               <> EINVAL) by (vm_compute; discriminate).
  assert (Hne : cur_fd (streaming 1 60) <> control_fd (streaming 1 60))
    by (vm_compute; discriminate).
  specialize (H Hz He Hne).
  destruct (unix_y_seek _ _ _ _) as [[ret s'] w'].
  destruct H as (Hret & Hpos & Hfit & _ & _ & Hcur & Hclosed).
  assert (H190 : ret = 190) by (rewrite Hret; reflexivity).
  rewrite H190 in Hpos, Hcur.
  change ((cur_fd (streaming 1 60) >=? 0) && negb (190 =? pos (streaming 1 60)))
    with true in Hcur. cbv iota in Hcur.
  split; [exact H190|]. split; [exact Hpos|]. split; [exact Hcur|].
  apply Hclosed. rewrite Hcur. discriminate.
Defined.

(** X22.  A seek that moves the position of a reading stream drops the data
    connection, and the read that follows asks for the data from the new
    position: with a server that plays its part, after
    [seek(x, SEEK_SET)] and a read the old data connection is closed, the
    server has received [read <x>] on the control connection, the stream
    has a new data connection, and the bytes handed over are counted from
    [x]. *)
Theorem seek_then_read_asks_from_the_new_position w s x size ctl rest dk conns :
  reading_mode s <> 0 -> 0 <= cur_fd s -> cur_fd s <> control_fd s ->
  x <> pos s -> session_id s > 0 ->
  socks w !! control_fd s = Some ctl -> outscript ctl = [] ->
  inbox ctl = bytes "ok" ++ RByte LF :: rest ->
  backlog w = Peer dk :: conns -> outscript dk = [] ->
  control_fd s <> Z.of_nat (next_fd w) ->
  0 <= size ->
  let '(r1, s1, w1) := unix_y_seek w s x SEEK_SET in
  let '(r2, data, s2, w2) := unix_y_read w1 s1 size in
  r1 = x /\ cur_fd s1 = -1 /\ socks w1 !! cur_fd s = None /\
  outbox_of w2 (control_fd s)
    = outbox ctl ++ list_ascii_of_string (read_line x) /\
  cur_fd s2 = Z.of_nat (next_fd w) /\
  ((r2 < 0 /\ data = [] /\ pos s2 = x)
   \/
   (0 < r2 <= size /\ r2 = Z.of_nat (length data) /\
    inbox dk = map RByte data ++ inbox_of w2 (cur_fd s2) /\
    pos s2 = add64 x r2)).
Proof.
  intros Hmode Hcur Hcc Hx Hid Hctl Hscript Hin Hb Hdk Hne Hsize.
  assert (Hseek : unix_y_seek w s x SEEK_SET
                  = (x, set_pos x (set_cur_fd (-1) s), closesocket w (cur_fd s))).
  { unfold unix_y_seek. rewrite unix_y_seek_stat_other by discriminate.
    unfold unix_y_seek_move.
    change (SEEK_SET =? AVSEEK_SIZE) with false.
    change (SEEK_SET =? SEEK_SET) with true. cbv iota zeta.
    destruct (cur_fd s >=? 0) eqn:E1; [|absurd_test].
    destruct (x =? pos s) eqn:E2; [absurd_test|]. reflexivity. }
  rewrite Hseek.
  set (s1 := set_pos x (set_cur_fd (-1) s)).
  set (w1 := closesocket w (cur_fd s)).
  assert (Hctl1 : socks w1 !! control_fd s1 = Some ctl)
    by (unfold w1, closesocket; cbn [socks log set_socks control_fd s1 set_pos set_cur_fd];
        rewrite lookup_delete_ne by auto; exact Hctl).
  assert (Hb1 : backlog w1 = Peer dk :: conns) by exact Hb.
  assert (Hid1 : session_id s1 > 0) by exact Hid.
  assert (Hne1 : control_fd s1 <> Z.of_nat (next_fd w1)) by exact Hne.
  destruct (negotiation_steps w1 s1 ctl rest dk conns (read_line (pos s1))
              (read_line_plain _) (line_not_empty _ _) Hid1 Hctl1 Hscript Hin Hb1 Hdk)
    as (wa & wb & buf & Hw & Hr & Hok & Hc).
  destruct (negotiated_world w1 s1 ctl rest dk conns (read_line (pos s1)) Hne1)
    as (Hn1 & Hn2 & _).
  unfold unix_y_read.
  change (reading_mode s1) with (reading_mode s).
  destruct (reading_mode s =? 0) eqn:Em; [absurd_test|].
  change (cur_fd s1 <? 0) with true. cbv iota zeta.
  fold (read_line (pos s1)).
  rewrite Hw. cbn [Z.ltb Z.compare]. rewrite Hr. cbn [Z.ltb Z.compare].
  rewrite Hok. cbn [Z.eqb negb]. rewrite Hc.
  change (next_fd w1) with (next_fd w) in *.
  destruct (Z.of_nat (next_fd w) <? 0) eqn:E; [absurd_test|].
  set (fd := Z.of_nat (next_fd w)) in *.
  set (wn := negotiated w1 s1 ctl rest dk conns (read_line (pos s1))) in *.
  unfold unix_y_read_recv. cbn [cur_fd set_cur_fd].
  pose proof (recv_cases wn fd size _ Hn2) as Hcases.
  pose proof (recv_io_on wn fd size) as Hio.
  destruct (recv wn fd size) as [[ret data] w3]. cbn [snd outbox inbox] in *.
  assert (Hout : outbox_of w3 (control_fd s)
                 = outbox ctl ++ list_ascii_of_string (read_line x)).
  { unfold outbox_of. rewrite (io_socks _ _ _ Hio) by exact Hne.
    change (control_fd s) with (control_fd s1). rewrite Hn1. reflexivity. }
  assert (Hclosed : socks w1 !! cur_fd s = None) by apply closesocket_gone.
  destruct (ret =? 0) eqn:E0.
  - cbn [cur_fd set_cur_fd pos]. repeat (split; [assumption || reflexivity|]).
    left. repeat split; reflexivity.
  - destruct (ret <? 0) eqn:E1.
    + cbn [cur_fd set_cur_fd pos]. repeat (split; [assumption || reflexivity|]).
      left. destruct Hcases as [(Hr1 & _ & Herr & _) | (Hlen & _)]; [|test_lia].
      split; [unfold ff_neterrno, AVERROR; lia|]. split; reflexivity.
    + cbn [cur_fd set_cur_fd set_pos pos]. repeat (split; [assumption || reflexivity|]).
      right. destruct Hcases as [(Hr1 & _) | (Hlen & Hmax & Hdata & _)]; [test_lia|].
      split; [test_lia|]. split; [exact Hlen|]. split; [exact Hdata|reflexivity].
Qed.

Lemma seek_then_read_asks_from_the_new_position_witness :
  let '(r1, s1, w1) :=
    unix_y_seek (mkWorld 0 (<[ 4 := peer (bytes "abc") ]>
                              {[ 3 := peer (bytes ("ok" ++ String LF "")) ]})
                   [Peer (peer (bytes "xyz"))] 5 1 false [])
      (streaming 1 10) 70 SEEK_SET in
  let '(r2, data, s2, w2) := unix_y_read w1 s1 2 in
  r1 = 70 /\ socks w1 !! 4 = None /\
  outbox_of w2 3 = list_ascii_of_string (read_line 70) /\
  cur_fd s2 = 5 /\ r2 = 2 /\ data = list_ascii_of_string "xy" /\ pos s2 = 72.
Proof.
  pose proof (seek_then_read_asks_from_the_new_position
                (mkWorld 0 (<[ 4 := peer (bytes "abc") ]>
                              {[ 3 := peer (bytes ("ok" ++ String LF "")) ]})
                   [Peer (peer (bytes "xyz"))] 5 1 false [])
                (streaming 1 10) 70 2 (peer (bytes ("ok" ++ String LF ""))) []
                (peer (bytes "xyz")) []) as H.
  assert (H1 : reading_mode (streaming 1 10) <> 0) by (vm_compute; discriminate).
  assert (H2 : 0 <= cur_fd (streaming 1 10)) by (vm_compute; discriminate).
  assert (H3 : cur_fd (streaming 1 10) <> control_fd (streaming 1 10))
    by (vm_compute; discriminate).
  assert (H4 : 70 <> pos (streaming 1 10)) by (vm_compute; discriminate).
  assert (H5 : session_id (streaming 1 10) > 0) by reflexivity.
  assert (H9 : control_fd (streaming 1 10) <> Z.of_nat 5) by (vm_compute; discriminate).
  assert (H10 : 0 <= 2) by (vm_compute; discriminate).
  specialize (H H1 H2 H3 H4 H5 eq_refl eq_refl eq_refl eq_refl eq_refl H9 H10).
  assert (Hret : fst (fst (fst (
            unix_y_read
              (snd (unix_y_seek (mkWorld 0 (<[ 4 := peer (bytes "abc") ]>
                              {[ 3 := peer (bytes ("ok" ++ String LF "")) ]})
                   [Peer (peer (bytes "xyz"))] 5 1 false []) (streaming 1 10) 70 SEEK_SET))
              (snd (fst (unix_y_seek (mkWorld 0 (<[ 4 := peer (bytes "abc") ]>
                              {[ 3 := peer (bytes ("ok" ++ String LF "")) ]})
                   [Peer (peer (bytes "xyz"))] 5 1 false []) (streaming 1 10) 70 SEEK_SET)))
              2))) = 2) by (vm_compute; reflexivity).
  assert (Hdata : snd (fst (fst (
            unix_y_read
              (snd (unix_y_seek (mkWorld 0 (<[ 4 := peer (bytes "abc") ]>
                              {[ 3 := peer (bytes ("ok" ++ String LF "")) ]})
                   [Peer (peer (bytes "xyz"))] 5 1 false []) (streaming 1 10) 70 SEEK_SET))
              (snd (fst (unix_y_seek (mkWorld 0 (<[ 4 := peer (bytes "abc") ]>
                              {[ 3 := peer (bytes ("ok" ++ String LF "")) ]})
                   [Peer (peer (bytes "xyz"))] 5 1 false []) (streaming 1 10) 70 SEEK_SET)))
              2))) = list_ascii_of_string "xy") by (vm_compute; reflexivity).
  destruct (unix_y_seek _ _ _ _) as [[r1 s1] w1]. cbn [fst snd] in Hret, Hdata.
  destruct (unix_y_read w1 s1 2) as [[[r2 data] s2] w2]. cbn [fst snd] in Hret, Hdata.
  destruct H as (Hr1 & _ & Hclosed & Hout & Hcur & [(Hneg & _) | (_ & _ & _ & Hpos)]); [lia|].
  subst r2. split; [exact Hr1|]. split; [exact Hclosed|]. split; [exact Hout|].
  split; [exact Hcur|]. split; [reflexivity|]. split; [exact Hdata|exact Hpos].
Defined.

(** ** The end of the data *)

(** X12.  A read reports the end of the file when [recv] hands over nothing:
    when the peer has nothing more queued on the data connection, and
    also whenever the caller asks for 0 bytes, the peer having data or
    not.  The result is [AVERROR_EOF], the context is unchanged and
    nothing is taken off the connection. *)
Theorem read_of_nothing_is_end_of_file w s size sk :
  reading_mode s <> 0 -> 0 <= cur_fd s -> socks w !! cur_fd s = Some sk ->
  (forall e rest, inbox sk <> RErr e :: rest) ->
  0 <= size -> inbox sk = [] \/ size = 0 ->
  let '(ret, data, s', w') := unix_y_read w s size in
  ret = AVERROR_EOF /\ data = [] /\ s' = s /\ inbox_of w' (cur_fd s) = inbox sk.
Proof.
  intros Hmode Hfd Hsk Hnoerr Hsize Hnone. unfold unix_y_read.
  destruct (reading_mode s =? 0) eqn:Em; [absurd_test|].
  destruct (cur_fd s <? 0) eqn:Ec; [absurd_test|].
  unfold unix_y_read_recv.
  pose proof (recv_cases w (cur_fd s) size sk Hsk) as Hr.
  destruct (recv w (cur_fd s) size) as [[ret data] w1].
  destruct Hr as [(_ & _ & _ & e & rest & Hin & _) | (Hlen & Hmax & Hin & _)].
  { exfalso. exact (Hnoerr e rest Hin). }
  assert (Hdata : data = []).
  { destruct Hnone as [Hempty | ->].
    - rewrite Hempty in Hin. symmetry in Hin. apply app_eq_nil in Hin.
      destruct Hin as [Hmap _]. destruct data; [reflexivity|discriminate].
    - destruct data; [reflexivity|]. simpl in Hlen. lia. }
  subst data. cbn [length Z.of_nat] in Hlen. subst ret.
  change (Z.of_nat 0 =? 0) with true. cbv iota. cbn [map app] in Hin.
  repeat split. symmetry. exact Hin.
Qed.

Lemma read_of_nothing_is_end_of_file_witness :
  let '(ret, data, s', w') :=
    unix_y_read (world_streaming (peer []) (peer (bytes "abc"))) (streaming 1 10) 0 in
  ret = AVERROR_EOF /\ data = [] /\ s' = streaming 1 10 /\
  inbox_of w' (cur_fd (streaming 1 10)) = inbox (peer (bytes "abc")).
Proof.
  apply (read_of_nothing_is_end_of_file
           (world_streaming (peer []) (peer (bytes "abc"))) (streaming 1 10) 0
           (peer (bytes "abc"))).
  - vm_compute. discriminate.
  - vm_compute. discriminate.
  - reflexivity.
  - intros e rest. vm_compute. discriminate.
  - reflexivity.
  - right. reflexivity.
Defined.
